(** * A filtering DNS forwarder: wire codec and query handling

    Shallow embedding of [src/parser/parser.cpp], [include/parser/parser.hpp],
    the shared constants of [common.hpp] and the query path of
    [src/server/server.cpp].

    Conventions of the embedding:
    - a datagram [(data, len)] is a [list byte]; [len] is its length;
    - every memory read [data[i]] is checked against [len]: a read with
      [len <= i] yields the outcome [OutOfBounds]; the decoders are given a
      second time inside a buffer longer than [len] ([Name_decode_in] and
      the like), where such a read yields the byte of the buffer, and
      [Listener_handleQuery] runs them in the receive buffer;
    - [uint8_t]/[uint16_t]/[uint32_t] values are [Z] with the masks and
      shifts of the source written out; [size_t] offsets are [nat];
    - [std::expected<T, Error>] is the monad [exec];
    - [std::unordered_map<std::string, uint16_t>] is [gmap string Z],
      [std::unordered_set<std::string>] is [gset string]. *)

From Stdlib Require Import ZArith Strings.Byte Ascii String Lia.
From stdpp Require Import base option list gmap strings.

Local Open Scope Z_scope.
Local Open Scope nat_scope.

(** ** common.hpp *)

Inductive Error : Type :=
| OK
| PARSE_TOO_SHORT | PARSE_BAD_OPCODE | PARSE_BAD_LABEL | PARSE_NAME_TOO_LONG
| PARSE_PTR_LOOP | PARSE_PTR_OOB | PARSE_TRUNCATED | PARSE_BAD_QTYPE
| PARSE_BAD_QCLASS | PARSE_BAD_QDCOUNT
| ENCODE_NAME_TOO_LONG | ENCODE_LABEL_TOO_LONG | ENCODE_OVERFLOW
| SERVER_SOCKET_FAIL | SERVER_BIND_FAIL | SERVER_RECV_FAIL | SERVER_SEND_FAIL
| SERVER_NOT_RUNNING
| UPSTREAM_TIMEOUT | UPSTREAM_UNREACHABLE | UPSTREAM_SERVFAIL
| CACHE_MISS | CACHE_EXPIRED | CACHE_FULL
| BLOCKER_FILE_NOT_FOUND | BLOCKER_PARSE_ERROR | BLOCKER_EMPTY | INVALID_IP
| UNKNOWN.

Module OpCode.
Definition QUERY : Z := 0.
Definition IQUERY : Z := 1.
Definition STATUS : Z := 2.
Definition NOTIFY : Z := 4.
Definition UPDATE : Z := 5.
Definition DSO : Z := 6.
End OpCode.

Module QType.
Definition A : Z := 1.
Definition AAAA : Z := 28.
Definition OPT : Z := 41.
Definition HTTPS : Z := 65.
End QType.

Module Flags.
Definition QR : Z := 0x8000.
Definition AA : Z := 0x0400.
Definition TC : Z := 0x0200.
Definition RD : Z := 0x0100.
Definition RA : Z := 0x0080.
Definition Z_ : Z := 0x0040.
Definition AD : Z := 0x0020.
Definition CD : Z := 0x0010.
End Flags.

Module Limits.
Definition MAX_EDNS_PAYLOAD : nat := 4096.
Definition MAX_LABEL_LEN : nat := 63.
Definition MAX_NAME_LEN : nat := 255.
Definition COMPRESSION_MASK : Z := 0xC0.
End Limits.

(** ** Outcomes of a call *)

Inductive exec (A : Type) : Type :=
| Ret (a : A)             (* the call returned a value *)
| Unexpected (e : Error)  (* the call returned [std::unexpected(e)] *)
| OutOfBounds             (* the call read [data[i]] with [len <= i] *)
| OutOfFuel.                (* the loop budget of the embedding ran out *)
Arguments Ret {A} a.
Arguments Unexpected {A} e.
Arguments OutOfBounds {A}.
Arguments OutOfFuel {A}.

#[global] Instance exec_ret : MRet exec := @Ret.
#[global] Instance exec_bind : MBind exec := λ A B f m,
  match m with
  | Ret a => f a
  | Unexpected e => Unexpected e
  | OutOfBounds => OutOfBounds
  | OutOfFuel => OutOfFuel
  end.

(** A loop body either goes round again or leaves the loop. *)
Inductive flow (S R : Type) : Type :=
| Continue (s : S)
| Break (r : R).
Arguments Continue {S R} s.
Arguments Break {S R} r.

(** ** Bytes and integers *)

Definition b2z (b : byte) : Z := Z.of_N (Byte.to_N b).

(** [static_cast<uint8_t>(v)] *)
Definition z2b (v : Z) : byte :=
  default x00 (Byte.of_N (Z.to_N (v `mod` 256))).

Definition u16 (v : Z) : Z := v `mod` 65536.

(** [data[i]] *)
Definition rd (data : list byte) (i : nat) : exec byte :=
  match data !! i with
  | Some b => Ret b
  | None => OutOfBounds
  end.

(** the bytes [data[i] .. data[i + n - 1]] *)
Fixpoint rd_range (data : list byte) (i n : nat) : exec (list byte) :=
  match n with
  | O => Ret []
  | S n' => b ← rd data i; bs ← rd_range data (S i) n'; Ret (b :: bs)
  end.

(** [(uint16_t(hi) << 8) | lo] *)
Definition be16 (hi lo : byte) : Z := Z.lor (Z.shiftl (b2z hi) 8) (b2z lo).

Definition be32 (b3 b2 b1 b0 : byte) : Z :=
  Z.lor (Z.lor (Z.lor (Z.shiftl (b2z b3) 24) (Z.shiftl (b2z b2) 16))
               (Z.shiftl (b2z b1) 8)) (b2z b0).

(** [ntohs] of the 16-bit word stored at [data + i] *)
Definition rd16 (data : list byte) (i : nat) : exec Z :=
  hi ← rd data i; lo ← rd data (i + 1); Ret (be16 hi lo).

(** the lambda [write16]: two [push_back]s *)
Definition write16 (v : Z) : list byte :=
  [z2b (Z.land (Z.shiftr v 8) 0xFF); z2b (Z.land v 0xFF)].

Definition write32 (v : Z) : list byte :=
  [z2b (Z.land (Z.shiftr v 24) 0xFF); z2b (Z.land (Z.shiftr v 16) 0xFF);
   z2b (Z.land (Z.shiftr v 8) 0xFF); z2b (Z.land v 0xFF)].

(** ** std::string operations used by the source *)

Definition string_of_bytes (bs : list byte) : string :=
  string_of_list_ascii (map ascii_of_byte bs).

Definition bytes_of_string (s : string) : list byte :=
  map byte_of_ascii (list_ascii_of_string s).

(** [s.substr(n)] for [n <= s.size()], also [s.erase(0, n)] *)
Fixpoint str_drop (n : nat) (s : string) : string :=
  match n, s with
  | O, _ => s
  | S n', String _ s' => str_drop n' s'
  | S _, EmptyString => EmptyString
  end.

(** [s.substr(0, n)], also [s.erase(n)] *)
Fixpoint str_take (n : nat) (s : string) : string :=
  match n, s with
  | O, _ => EmptyString
  | S n', String c s' => String c (str_take n' s')
  | S _, EmptyString => EmptyString
  end.

(** [s.find(c)]; [None] is [npos] *)
Fixpoint str_find_char (c : ascii) (s : string) : option nat :=
  match s with
  | EmptyString => None
  | String d s' =>
      if Ascii.eqb d c then Some O else S <$> str_find_char c s'
  end.

(** [s.find(c, pos)] *)
Definition str_find_char_from (c : ascii) (s : string) (pos : nat) : option nat :=
  (λ i, pos + i) <$> str_find_char c (str_drop pos s).

(** [s.find(pat)] *)
Fixpoint str_find (pat s : string) : option nat :=
  if String.prefix pat s then Some O
  else match s with
       | EmptyString => None
       | String _ s' => S <$> str_find pat s'
       end.

Fixpoint str_mem (c : ascii) (chars : string) : bool :=
  match chars with
  | EmptyString => false
  | String d r => Ascii.eqb d c || str_mem c r
  end.

(** [s.find_first_of(chars)] *)
Fixpoint str_find_first_of (chars s : string) : option nat :=
  match s with
  | EmptyString => None
  | String d s' =>
      if str_mem d chars then Some O else S <$> str_find_first_of chars s'
  end.

(** [std::tolower] in the "C" locale, on an [unsigned char] *)
Definition tolower (c : ascii) : ascii :=
  let n := nat_of_ascii c in
  if (65 <=? n) && (n <=? 90) then ascii_of_nat (n + 32) else c.

Fixpoint str_map (f : ascii → ascii) (s : string) : string :=
  match s with
  | EmptyString => EmptyString
  | String c s' => String (f c) (str_map f s')
  end.

(** ** Name::decode *)

Record dstate : Type := mk_dstate {
  d_pos : nat;        (* local reading offset *)
  d_jumped : bool;    (* did we follow a pointer *)
  d_hops : nat;       (* guard against pointer loops *)
  d_name : string;
  d_offset : nat      (* the caller's cursor, passed by reference *)
}.

(** [((uint16_t)(labelLen & 0x3F) << 8) | data[pos + 1]] *)
Definition pointer_target (b0 b1 : byte) : Z :=
  Z.lor (Z.shiftl (Z.land (b2z b0) 0x3F) 8) (b2z b1).

(** the state in which [Name::decode] enters its loop *)
Definition decode_init (offset : nat) : dstate :=
  mk_dstate offset false 0 EmptyString offset.

(** One round of the [while (true)] loop of [Name::decode]. *)
Definition decode_step (data : list byte) (st : dstate)
  : exec (flow dstate (string * nat)) :=
  let len := length data in
  let pos := d_pos st in
  if bool_decide (len ≤ pos) then Unexpected PARSE_TRUNCATED else
  b ← rd data pos;
  let labelLen := b2z b in
  if bool_decide (labelLen = 0%Z) then
    Ret (Break (d_name st, if d_jumped st then d_offset st else pos + 1))
  else if bool_decide (Z.land labelLen Limits.COMPRESSION_MASK
                       = Limits.COMPRESSION_MASK) then
    if bool_decide (len ≤ pos + 1) then Unexpected PARSE_PTR_OOB else
    b1 ← rd data (pos + 1);
    let ptr := pointer_target b b1 in
    if bool_decide (Z.of_nat len ≤ ptr)%Z then Unexpected PARSE_PTR_OOB else
    let offset := if d_jumped st then d_offset st else pos + 2 in
    let hops := S (d_hops st) in
    if bool_decide (20 < hops) then Unexpected PARSE_PTR_LOOP else
    Ret (Continue (mk_dstate (Z.to_nat ptr) true hops (d_name st) offset))
  else if bool_decide (Z.of_nat Limits.MAX_LABEL_LEN < labelLen)%Z then
    Unexpected PARSE_BAD_LABEL
  else
    let n := Z.to_nat labelLen in
    let pos := pos + 1 in
    if bool_decide (len < pos + n) then Unexpected PARSE_TRUNCATED else
    let name := if bool_decide (d_name st = EmptyString) then d_name st
                else (d_name st ++ ".")%string in
    label ← rd_range data pos n;
    let name := (name ++ string_of_bytes label)%string in
    if bool_decide (Limits.MAX_NAME_LEN < String.length name)
    then Unexpected PARSE_NAME_TOO_LONG
    else Ret (Continue (mk_dstate (pos + n) (d_jumped st) (d_hops st) name
                                  (d_offset st))).

Fixpoint decode_loop (fuel : nat) (data : list byte) (st : dstate)
  : exec (string * nat) :=
  match fuel with
  | O => OutOfFuel
  | S fuel' =>
      r ← decode_step data st;
      match r with
      | Continue st' => decode_loop fuel' data st'
      | Break res => Ret res
      end
  end.

(** Rounds that [Name::decode] can need on a datagram of [len] bytes. *)
Definition decode_budget (len : nat) : nat := 22 * (len + 1).

(** [Name::decode(data, len, offset)]: the name and the new [offset]. *)
Definition Name_decode (data : list byte) (offset : nat) : exec (string * nat) :=
  decode_loop (decode_budget (length data)) data (decode_init offset).

(** ** Question and ResourceRecord *)

Record Question : Type := mk_Question {
  qname_ : string;
  qtype_ : Z;
  qclass_ : Z
}.

Record ResourceRecord : Type := mk_ResourceRecord {
  name_ : string;
  type_ : Z;
  rclass_ : Z;
  ttl_ : Z;
  rdlength_ : Z;
  rdata_ : list byte
}.

(** [Question::decode(data, len, offset)] *)
Definition Question_decode (data : list byte) (offset : nat)
  : exec (Question * nat) :=
  '(name, offset) ← Name_decode data offset;
  if bool_decide (length data < offset + 4) then Unexpected PARSE_TRUNCATED else
  t0 ← rd data offset; t1 ← rd data (offset + 1);
  c0 ← rd data (offset + 2); c1 ← rd data (offset + 3);
  let qtype := be16 t0 t1 in
  let qclass := be16 c0 c1 in
  Ret (mk_Question name qtype qclass, offset + 4).

(** [ResourceRecord::decode(data, len, offset)] *)
Definition ResourceRecord_decode (data : list byte) (offset : nat)
  : exec (ResourceRecord * nat) :=
  '(name, offset) ← Name_decode data offset;
  if bool_decide (length data < offset + 10) then Unexpected PARSE_TRUNCATED else
  t0 ← rd data offset; t1 ← rd data (offset + 1);
  c0 ← rd data (offset + 2); c1 ← rd data (offset + 3);
  l3 ← rd data (offset + 4); l2 ← rd data (offset + 5);
  l1 ← rd data (offset + 6); l0 ← rd data (offset + 7);
  r0 ← rd data (offset + 8); r1 ← rd data (offset + 9);
  let type := be16 t0 t1 in
  let rclass := be16 c0 c1 in
  let ttl := be32 l3 l2 l1 l0 in
  let rdlength := be16 r0 r1 in
  if bool_decide (length data < offset + Z.to_nat rdlength)
  then Unexpected PARSE_TRUNCATED else
  let offset := offset + 10 in
  rdata ← rd_range data offset (Z.to_nat rdlength);
  let offset := offset + Z.to_nat rdlength in
  Ret (mk_ResourceRecord name type rclass ttl rdlength rdata, offset).

(** ** Header *)

Record Header : Type := mk_Header {
  id_ : Z;
  qr_ : bool;
  opcode_ : Z;
  aa_ : bool;
  tc_ : bool;
  rd_ : bool;
  ra_ : bool;
  ad_ : bool;
  cd_ : bool;
  rcode_ : Z;
  qdcount_ : Z;
  ancount_ : Z;
  nscount_ : Z;
  arcount_ : Z
}.

(** [static_cast<uint16_t>(b)] for a [bool] *)
Definition b2i (b : bool) : Z := if b then 1%Z else 0%Z.

(** [Header::getRawFlags()] *)
Definition getRawFlags (h : Header) : Z :=
  let flags := 0%Z in
  let flags := Z.lor flags (Z.shiftl (b2i (qr_ h)) 15) in
  let flags := Z.lor flags (Z.shiftl (Z.land (opcode_ h) 0xF) 11) in
  let flags := Z.lor flags (Z.shiftl (b2i (aa_ h)) 10) in
  let flags := Z.lor flags (Z.shiftl (b2i (tc_ h)) 9) in
  let flags := Z.lor flags (Z.shiftl (b2i (rd_ h)) 8) in
  let flags := Z.lor flags (Z.shiftl (b2i (ra_ h)) 7) in
  let flags := Z.lor flags (Z.shiftl (b2i (ad_ h)) 5) in
  let flags := Z.lor flags (Z.shiftl (b2i (cd_ h)) 4) in
  let flags := Z.lor flags (Z.land (rcode_ h) 0xF) in
  flags.

(** [Header::encode()] *)
Definition Header_encode (h : Header) : list byte :=
  write16 (id_ h) ++ write16 (getRawFlags h) ++ write16 (qdcount_ h) ++
  write16 (ancount_ h) ++ write16 (nscount_ h) ++ write16 (arcount_ h).

Definition known_opcode (opcode : Z) : bool :=
  bool_decide (opcode = OpCode.QUERY) || bool_decide (opcode = OpCode.IQUERY) ||
  bool_decide (opcode = OpCode.STATUS) || bool_decide (opcode = OpCode.NOTIFY) ||
  bool_decide (opcode = OpCode.UPDATE) || bool_decide (opcode = OpCode.DSO).

(** [(flags & mask) != 0] *)
Definition flag_set (flags mask : Z) : bool :=
  negb (bool_decide (Z.land flags mask = 0%Z)).

(** [Header::decode(data, len)] *)
Definition Header_decode (data : list byte) : exec Header :=
  if bool_decide (length data < 12) then Unexpected PARSE_TOO_SHORT else
  id ← rd16 data 0;
  flags ← rd16 data 2;
  if flag_set flags Flags.Z_ then Unexpected PARSE_TRUNCATED else
  let qr := flag_set (Z.shiftr flags 15) 1 in
  let opcode := Z.land (Z.shiftr flags 11) 0xF in
  let rcode := Z.land flags 0xF in
  if negb (known_opcode opcode) then Unexpected PARSE_BAD_OPCODE else
  let ra := flag_set flags Flags.RA in
  let aa := flag_set flags Flags.AA in
  if negb qr && (ra || aa) then Unexpected PARSE_TRUNCATED else
  qdcount ← rd16 data 4;
  ancount ← rd16 data 6;
  nscount ← rd16 data 8;
  arcount ← rd16 data 10;
  if negb qr && bool_decide (qdcount = 0%Z) then Unexpected PARSE_BAD_QDCOUNT else
  if bool_decide (1 < qdcount)%Z then Unexpected PARSE_BAD_QDCOUNT else
  if bool_decide (500 < ancount)%Z || bool_decide (500 < nscount)%Z
     || bool_decide (500 < arcount)%Z
  then Unexpected PARSE_TRUNCATED else
  Ret (mk_Header id qr opcode aa (flag_set flags Flags.TC)
         (flag_set flags Flags.RD) ra (flag_set flags Flags.AD)
         (flag_set flags Flags.CD) rcode qdcount ancount nscount arcount).

(** ** Message and MessageParser::parse *)

Record Message : Type := mk_Message {
  header_ : Header;
  questions_ : list Question;
  answers_ : list ResourceRecord;
  authority_ : list ResourceRecord;
  additional_ : list ResourceRecord
}.

(** [for (int i = 0; i < n; i++)] over [Question::decode], sharing [offset] *)
Fixpoint decode_questions (data : list byte) (n offset : nat)
  : exec (list Question * nat) :=
  match n with
  | O => Ret ([], offset)
  | S n' =>
      '(q, offset) ← Question_decode data offset;
      '(qs, offset) ← decode_questions data n' offset;
      Ret (q :: qs, offset)
  end.

(** [for (int i = 0; i < n; i++)] over [ResourceRecord::decode] *)
Fixpoint decode_records (data : list byte) (n offset : nat)
  : exec (list ResourceRecord * nat) :=
  match n with
  | O => Ret ([], offset)
  | S n' =>
      '(rr, offset) ← ResourceRecord_decode data offset;
      '(rrs, offset) ← decode_records data n' offset;
      Ret (rr :: rrs, offset)
  end.

(** [MessageParser::parse(data, len)] *)
Definition parse (data : list byte) : exec Message :=
  if bool_decide (length data < 12) then Unexpected PARSE_TOO_SHORT else
  if bool_decide (Limits.MAX_EDNS_PAYLOAD < length data)
  then Unexpected PARSE_TRUNCATED else
  hdr ← Header_decode data;
  let offset := 12 in
  '(questions, offset) ← decode_questions data (Z.to_nat (qdcount_ hdr)) offset;
  '(answers, offset) ← decode_records data (Z.to_nat (ancount_ hdr)) offset;
  '(authority, offset) ← decode_records data (Z.to_nat (nscount_ hdr)) offset;
  '(additional, offset) ← decode_records data (Z.to_nat (arcount_ hdr)) offset;
  Ret (mk_Message hdr questions answers authority additional).

(** ** Name::encode *)

Record estate : Type := mk_estate {
  e_buf : list byte;
  e_pos : nat;
  e_table : option (gmap string Z)   (* [None] is a null [table] pointer *)
}.

(** the two bytes of a compression pointer to [ptr] *)
Definition pointer_bytes (ptr : Z) : list byte :=
  [z2b (Z.lor 0xC0 (Z.land (Z.shiftr ptr 8) 0x3F)); z2b (Z.land ptr 0xFF)].

(** The part of a round of [Name::encode] after the table was consulted:
    the end of the name (with the length check that follows the loop), or
    one label. *)
Definition encode_label (name : string) (buf : list byte) (pos : nat)
    (table : option (gmap string Z))
  : exec (flow estate (list byte * option (gmap string Z))) :=
  if bool_decide (String.length name ≤ pos) then
    let buf := buf ++ [x00] in
    if bool_decide (Limits.MAX_NAME_LEN < length buf)
    then Unexpected ENCODE_NAME_TOO_LONG
    else Ret (Break (buf, table))
  else
    let dot := str_find_char_from "." name pos in
    let labelEnd := default (String.length name) dot in
    let labelLen := labelEnd - pos in
    if bool_decide (labelLen = 0) || bool_decide (Limits.MAX_LABEL_LEN < labelLen)
    then Unexpected ENCODE_LABEL_TOO_LONG
    else
      let buf := buf ++ [z2b (Z.of_nat labelLen)] in
      let buf := buf ++ bytes_of_string (str_take labelLen (str_drop pos name)) in
      let pos := match dot with
                 | None => String.length name
                 | Some d => d + 1
                 end in
      Ret (Continue (mk_estate buf pos table)).

(** One round of the [while (true)] loop of [Name::encode]. *)
Definition encode_step (name : string) (baseOffset : Z) (st : estate)
  : exec (flow estate (list byte * option (gmap string Z))) :=
  let remaining := str_drop (e_pos st) name in
  match e_table st with
  | Some table =>
      match table !! remaining with
      | Some ptr => Ret (Break (e_buf st ++ pointer_bytes ptr, Some table))
      | None =>
          let table :=
            <[remaining := u16 (baseOffset + Z.of_nat (length (e_buf st)))]> table in
          encode_label name (e_buf st) (e_pos st) (Some table)
      end
  | None => encode_label name (e_buf st) (e_pos st) None
  end.

Fixpoint encode_loop (fuel : nat) (name : string) (baseOffset : Z) (st : estate)
  : exec (list byte * option (gmap string Z)) :=
  match fuel with
  | O => OutOfFuel
  | S fuel' =>
      r ← encode_step name baseOffset st;
      match r with
      | Continue st' => encode_loop fuel' name baseOffset st'
      | Break res => Ret res
      end
  end.

(** [Name::encode(name, table, baseOffset)]: the bytes and the table as the
    call leaves it. *)
Definition Name_encode (name : string) (table : option (gmap string Z))
    (baseOffset : Z) : exec (list byte * option (gmap string Z)) :=
  encode_loop (String.length name + 2) name baseOffset (mk_estate [] 0 table).

(** [Question::encode(table, baseOffset)] *)
Definition Question_encode (q : Question) (table : option (gmap string Z))
    (baseOffset : Z) : exec (list byte * option (gmap string Z)) :=
  '(buf, table) ← Name_encode (qname_ q) table baseOffset;
  Ret (buf ++ write16 (qtype_ q) ++ write16 (qclass_ q), table).

(** [ResourceRecord::encode(table, baseOffset)] *)
Definition ResourceRecord_encode (rr : ResourceRecord)
    (table : option (gmap string Z)) (baseOffset : Z)
  : exec (list byte * option (gmap string Z)) :=
  '(buf, table) ← Name_encode (name_ rr) table baseOffset;
  Ret (buf ++ write16 (type_ rr) ++ write16 (rclass_ rr) ++ write32 (ttl_ rr)
           ++ write16 (u16 (Z.of_nat (length (rdata_ rr)))) ++ rdata_ rr, table).

(** ** MessageParser::encode *)

(** a range-[for] over a section: each record is appended to [buf], the
    compression table is threaded through *)
Fixpoint encode_section {T : Type}
    (enc : T → option (gmap string Z) → Z → exec (list byte * option (gmap string Z)))
    (items : list T) (buf : list byte) (table : option (gmap string Z))
  : exec (list byte * option (gmap string Z)) :=
  match items with
  | [] => Ret (buf, table)
  | x :: items' =>
      '(bytes, table) ← enc x table (u16 (Z.of_nat (length buf)));
      encode_section enc items' (buf ++ bytes) table
  end.

Definition setCounts (h : Header) (qd an ns ar : Z) : Header :=
  mk_Header (id_ h) (qr_ h) (opcode_ h) (aa_ h) (tc_ h) (rd_ h) (ra_ h)
            (ad_ h) (cd_ h) (rcode_ h) qd an ns ar.

(** [MessageParser::encode(msg)] *)
Definition MessageParser_encode (msg : Message) : exec (list byte) :=
  let hdr := setCounts (header_ msg)
               (u16 (Z.of_nat (length (questions_ msg))))
               (u16 (Z.of_nat (length (answers_ msg))))
               (u16 (Z.of_nat (length (authority_ msg))))
               (u16 (Z.of_nat (length (additional_ msg)))) in
  let buf := Header_encode hdr in
  let table : option (gmap string Z) := Some ∅ in
  '(buf, table) ← encode_section Question_encode (questions_ msg) buf table;
  '(buf, table) ← encode_section ResourceRecord_encode (answers_ msg) buf table;
  '(buf, table) ← encode_section ResourceRecord_encode (authority_ msg) buf table;
  '(buf, table) ← encode_section ResourceRecord_encode (additional_ msg) buf table;
  if bool_decide (Limits.MAX_EDNS_PAYLOAD < length buf)
  then Unexpected ENCODE_OVERFLOW
  else Ret buf.

(** ** Listener: denylist search *)

(** [Listener::stripPathAndQuery] *)
Definition stripPathAndQuery (str : string) : string :=
  match str_find_first_of "/?:#" str with
  | Some pos => str_take pos str
  | None => str
  end.

(** [Listener::stripSchema] *)
Definition stripSchema (str : string) : string :=
  match str_find "://" str with
  | Some pos => str_drop (pos + 3) str
  | None => str
  end.

(** the normalisation at the head of [Listener::search] *)
Definition normalize (domain : string) : string :=
  str_map tolower (stripPathAndQuery (stripSchema domain)).

(** the [while (true)] loop of [Listener::search] *)
Fixpoint search_loop (fuel : nat) (blocklist : gset string) (current : string)
  : exec bool :=
  match fuel with
  | O => OutOfFuel
  | S fuel' =>
      if bool_decide (current ∈ blocklist) then Ret true else
      match str_find_char "." current with
      | None => Ret false
      | Some dot => search_loop fuel' blocklist (str_drop (dot + 1) current)
      end
  end.

(** [Listener::search(domain)] *)
Definition search (blocklist : gset string) (domain : string) : exec bool :=
  let current := normalize domain in
  search_loop (String.length current + 1) blocklist current.

(** [Listener::loadBlocklist(files)] on a denylist that holds [blocklist]:
    the denylist afterwards and the returned code. A file is what opening
    and reading it gives: [None] when it cannot be opened, else its lines
    in the order [std::getline] returns them. *)
Fixpoint loadBlocklist (blocklist : gset string)
    (files : list (option (list string))) : gset string * Error :=
  match files with
  | [] => (blocklist, OK)
  | None :: _ => (blocklist, BLOCKER_FILE_NOT_FOUND)
  | Some lines :: files' =>
      loadBlocklist
        (foldl (λ bl line, bl ∪ {[ str_map tolower line ]}) blocklist lines)
        files'
  end.

(** ** Listener::handleQuery *)

(** what [handleQuery] puts on the sockets *)
Inductive action : Type :=
| SendToClient (datagram : list byte)   (* [sendto(socket_, encoded, client)] *)
| Forward (datagram : list byte).       (* [forward(buf, received, client)] *)

Definition setQr (h : Header) (v : bool) : Header :=
  mk_Header (id_ h) v (opcode_ h) (aa_ h) (tc_ h) (rd_ h) (ra_ h)
            (ad_ h) (cd_ h) (rcode_ h) (qdcount_ h) (ancount_ h) (nscount_ h)
            (arcount_ h).

Definition setRa (h : Header) (v : bool) : Header :=
  mk_Header (id_ h) (qr_ h) (opcode_ h) (aa_ h) (tc_ h) (rd_ h) v
            (ad_ h) (cd_ h) (rcode_ h) (qdcount_ h) (ancount_ h) (nscount_ h)
            (arcount_ h).

Definition setAnswers (h : Header) (v : Z) : Header :=
  setCounts h (qdcount_ h) v (nscount_ h) (arcount_ h).

Definition setAuthorities (h : Header) (v : Z) : Header :=
  setCounts h (qdcount_ h) (ancount_ h) v (arcount_ h).

Definition setAdditionals (h : Header) (v : Z) : Header :=
  setCounts h (qdcount_ h) (ancount_ h) (nscount_ h) v.

Definition with_header (msg : Message) (h : Header) : Message :=
  mk_Message h (questions_ msg) (answers_ msg) (authority_ msg) (additional_ msg).

(** [Message::setAnswers] *)
Definition Message_setAnswers (msg : Message) (answers : list ResourceRecord)
  : Message :=
  mk_Message (header_ msg) (questions_ msg) answers (authority_ msg)
             (additional_ msg).

(** Step 5 of [handleQuery]: the parsed message turned into the blocked
    response, in the order of the source's statements. *)
Definition blocked_response (msg : Message) (q : Question) : Message :=
  let msg := with_header msg (setQr (header_ msg) true) in
  let msg := with_header msg (setRa (header_ msg) true) in
  let msg := with_header msg (setAuthorities (header_ msg) 0) in
  let msg := with_header msg (setAdditionals (header_ msg) 0) in
  if bool_decide (qtype_ q = QType.HTTPS) then
    with_header msg (setAnswers (header_ msg) 0)
  else
    let rdlen := if bool_decide (qtype_ q = QType.AAAA) then 16%Z else 4%Z in
    let rr := mk_ResourceRecord (qname_ q) (qtype_ q) (qclass_ q) 0 rdlen
                (replicate (Z.to_nat rdlen) x00) in
    let msg := Message_setAnswers msg [rr] in
    with_header msg (setAnswers (header_ msg) 1).

(** Step 6 of [handleQuery]: encode and send; [sendto] is taken to send the
    whole datagram. *)
Definition send_blocked (msg : Message) : exec (list action * Error) :=
  match MessageParser_encode msg with
  | Ret encoded =>
      if bool_decide (Limits.MAX_EDNS_PAYLOAD < length encoded)
      then Ret ([], SERVER_SEND_FAIL)
      else Ret ([SendToClient encoded], OK)
  | Unexpected e => Ret ([], e)
  | OutOfBounds => OutOfBounds
  | OutOfFuel => OutOfFuel
  end.

(** the [for] loop of [handleQuery] over the parsed questions *)
Fixpoint handle_questions (blocklist : gset string) (buf : list byte)
    (msg : Message) (qs : list Question) : exec (list action * Error) :=
  match qs with
  | [] => Ret ([], OK)
  | q :: qs' =>
      hit ← search blocklist (qname_ q);
      if (hit : bool) then send_blocked (blocked_response msg q)
      else
        '(acts, err) ← handle_questions blocklist buf msg qs';
        Ret (Forward buf :: acts, err)
  end.

(** Steps 2 to 7 of [Listener::handleQuery()] on a datagram that [recvfrom]
    delivered, with the parser given the datagram and nothing else, and
    [sendto] sending all it is given: the socket actions, in order, and the
    returned code. A read past the datagram has no value here;
    [Listener_handleQuery] below is the handler with its sockets and its
    buffer, and does the same whenever the parser stays inside the
    datagram ([Listener_handleQuery_datagram]). *)
Definition handleQuery (blocklist : gset string) (buf : list byte)
  : exec (list action * Error) :=
  if bool_decide (length buf < 13) then Ret ([], PARSE_TOO_SHORT) else
  match parse buf with
  | Ret msg => handle_questions blocklist buf msg (questions_ msg)
  | Unexpected e => Ret ([], e)
  | OutOfBounds => OutOfBounds
  | OutOfFuel => OutOfFuel
  end.

(** ** The decoders inside a buffer

    Every decoder takes a pointer [data] and a length [len]. In the
    definitions above the memory at [data] is the datagram and nothing
    else, so that a read at or after [len] has no value. Here [data]
    points to a buffer [mem] that may be longer than [len], as the receive
    buffer of [Listener::handleQuery] is: the checks are against [len], the
    reads are from [mem], and a read at or after [len] that stays inside
    [mem] yields the byte stored there. *)

(** One round of the loop of [Name::decode(data, len, offset)]. *)
Definition decode_step_in (mem : list byte) (len : nat) (st : dstate)
  : exec (flow dstate (string * nat)) :=
  let pos := d_pos st in
  if bool_decide (len ≤ pos) then Unexpected PARSE_TRUNCATED else
  b ← rd mem pos;
  let labelLen := b2z b in
  if bool_decide (labelLen = 0%Z) then
    Ret (Break (d_name st, if d_jumped st then d_offset st else pos + 1))
  else if bool_decide (Z.land labelLen Limits.COMPRESSION_MASK
                       = Limits.COMPRESSION_MASK) then
    if bool_decide (len ≤ pos + 1) then Unexpected PARSE_PTR_OOB else
    b1 ← rd mem (pos + 1);
    let ptr := pointer_target b b1 in
    if bool_decide (Z.of_nat len ≤ ptr)%Z then Unexpected PARSE_PTR_OOB else
    let offset := if d_jumped st then d_offset st else pos + 2 in
    let hops := S (d_hops st) in
    if bool_decide (20 < hops) then Unexpected PARSE_PTR_LOOP else
    Ret (Continue (mk_dstate (Z.to_nat ptr) true hops (d_name st) offset))
  else if bool_decide (Z.of_nat Limits.MAX_LABEL_LEN < labelLen)%Z then
    Unexpected PARSE_BAD_LABEL
  else
    let n := Z.to_nat labelLen in
    let pos := pos + 1 in
    if bool_decide (len < pos + n) then Unexpected PARSE_TRUNCATED else
    let name := if bool_decide (d_name st = EmptyString) then d_name st
                else (d_name st ++ ".")%string in
    label ← rd_range mem pos n;
    let name := (name ++ string_of_bytes label)%string in
    if bool_decide (Limits.MAX_NAME_LEN < String.length name)
    then Unexpected PARSE_NAME_TOO_LONG
    else Ret (Continue (mk_dstate (pos + n) (d_jumped st) (d_hops st) name
                                  (d_offset st))).

Fixpoint decode_loop_in (fuel : nat) (mem : list byte) (len : nat) (st : dstate)
  : exec (string * nat) :=
  match fuel with
  | O => OutOfFuel
  | S fuel' =>
      r ← decode_step_in mem len st;
      match r with
      | Continue st' => decode_loop_in fuel' mem len st'
      | Break res => Ret res
      end
  end.

(** [Name::decode(data, len, offset)] *)
Definition Name_decode_in (mem : list byte) (len offset : nat)
  : exec (string * nat) :=
  decode_loop_in (decode_budget len) mem len (decode_init offset).

(** [Question::decode(data, len, offset)] *)
Definition Question_decode_in (mem : list byte) (len offset : nat)
  : exec (Question * nat) :=
  '(name, offset) ← Name_decode_in mem len offset;
  if bool_decide (len < offset + 4) then Unexpected PARSE_TRUNCATED else
  t0 ← rd mem offset; t1 ← rd mem (offset + 1);
  c0 ← rd mem (offset + 2); c1 ← rd mem (offset + 3);
  let qtype := be16 t0 t1 in
  let qclass := be16 c0 c1 in
  Ret (mk_Question name qtype qclass, offset + 4).

(** [ResourceRecord::decode(data, len, offset)] *)
Definition ResourceRecord_decode_in (mem : list byte) (len offset : nat)
  : exec (ResourceRecord * nat) :=
  '(name, offset) ← Name_decode_in mem len offset;
  if bool_decide (len < offset + 10) then Unexpected PARSE_TRUNCATED else
  t0 ← rd mem offset; t1 ← rd mem (offset + 1);
  c0 ← rd mem (offset + 2); c1 ← rd mem (offset + 3);
  l3 ← rd mem (offset + 4); l2 ← rd mem (offset + 5);
  l1 ← rd mem (offset + 6); l0 ← rd mem (offset + 7);
  r0 ← rd mem (offset + 8); r1 ← rd mem (offset + 9);
  let type := be16 t0 t1 in
  let rclass := be16 c0 c1 in
  let ttl := be32 l3 l2 l1 l0 in
  let rdlength := be16 r0 r1 in
  if bool_decide (len < offset + Z.to_nat rdlength)
  then Unexpected PARSE_TRUNCATED else
  let offset := offset + 10 in
  rdata ← rd_range mem offset (Z.to_nat rdlength);
  let offset := offset + Z.to_nat rdlength in
  Ret (mk_ResourceRecord name type rclass ttl rdlength rdata, offset).

(** [Header::decode(data, len)] *)
Definition Header_decode_in (mem : list byte) (len : nat) : exec Header :=
  if bool_decide (len < 12) then Unexpected PARSE_TOO_SHORT else
  id ← rd16 mem 0;
  flags ← rd16 mem 2;
  if flag_set flags Flags.Z_ then Unexpected PARSE_TRUNCATED else
  let qr := flag_set (Z.shiftr flags 15) 1 in
  let opcode := Z.land (Z.shiftr flags 11) 0xF in
  let rcode := Z.land flags 0xF in
  if negb (known_opcode opcode) then Unexpected PARSE_BAD_OPCODE else
  let ra := flag_set flags Flags.RA in
  let aa := flag_set flags Flags.AA in
  if negb qr && (ra || aa) then Unexpected PARSE_TRUNCATED else
  qdcount ← rd16 mem 4;
  ancount ← rd16 mem 6;
  nscount ← rd16 mem 8;
  arcount ← rd16 mem 10;
  if negb qr && bool_decide (qdcount = 0%Z) then Unexpected PARSE_BAD_QDCOUNT else
  if bool_decide (1 < qdcount)%Z then Unexpected PARSE_BAD_QDCOUNT else
  if bool_decide (500 < ancount)%Z || bool_decide (500 < nscount)%Z
     || bool_decide (500 < arcount)%Z
  then Unexpected PARSE_TRUNCATED else
  Ret (mk_Header id qr opcode aa (flag_set flags Flags.TC)
         (flag_set flags Flags.RD) ra (flag_set flags Flags.AD)
         (flag_set flags Flags.CD) rcode qdcount ancount nscount arcount).

Fixpoint decode_questions_in (mem : list byte) (len n offset : nat)
  : exec (list Question * nat) :=
  match n with
  | O => Ret ([], offset)
  | S n' =>
      '(q, offset) ← Question_decode_in mem len offset;
      '(qs, offset) ← decode_questions_in mem len n' offset;
      Ret (q :: qs, offset)
  end.

Fixpoint decode_records_in (mem : list byte) (len n offset : nat)
  : exec (list ResourceRecord * nat) :=
  match n with
  | O => Ret ([], offset)
  | S n' =>
      '(rr, offset) ← ResourceRecord_decode_in mem len offset;
      '(rrs, offset) ← decode_records_in mem len n' offset;
      Ret (rr :: rrs, offset)
  end.

(** [MessageParser::parse(data, len)] *)
Definition parse_in (mem : list byte) (len : nat) : exec Message :=
  if bool_decide (len < 12) then Unexpected PARSE_TOO_SHORT else
  if bool_decide (Limits.MAX_EDNS_PAYLOAD < len)
  then Unexpected PARSE_TRUNCATED else
  hdr ← Header_decode_in mem len;
  let offset := 12 in
  '(questions, offset) ←
    decode_questions_in mem len (Z.to_nat (qdcount_ hdr)) offset;
  '(answers, offset) ←
    decode_records_in mem len (Z.to_nat (ancount_ hdr)) offset;
  '(authority, offset) ←
    decode_records_in mem len (Z.to_nat (nscount_ hdr)) offset;
  '(additional, offset) ←
    decode_records_in mem len (Z.to_nat (arcount_ hdr)) offset;
  Ret (mk_Message hdr questions answers authority additional).

(** ** Listener::handleQuery with its sockets

    What the two socket calls of one [handleQuery] give: [recvfrom] fails
    ([SOCKET_ERROR]) or writes a datagram at the start of [buf], at most
    [sizeof(buf)] bytes of it; [sendto] fails or returns the number of
    bytes it sent. The result of [forward] is only printed. *)
Record sockets : Type := mk_sockets {
  recvfrom_ : option (list byte);
  sendto_ : list byte → option nat
}.

(** Step 6: encode and send. *)
Definition send_blocked_io (io : sockets) (msg : Message)
  : exec (list action * Error) :=
  match MessageParser_encode msg with
  | Ret encoded =>
      if bool_decide (Limits.MAX_EDNS_PAYLOAD < length encoded)
      then Ret ([], SERVER_SEND_FAIL)
      else match sendto_ io encoded with
           | None => Ret ([SendToClient encoded], SERVER_SEND_FAIL)
           | Some sent =>
               if bool_decide (sent ≠ length encoded)
               then Ret ([SendToClient encoded], SERVER_SEND_FAIL)
               else Ret ([SendToClient encoded], OK)
           end
  | Unexpected e => Ret ([], e)
  | OutOfBounds => OutOfBounds
  | OutOfFuel => OutOfFuel
  end.

(** the [for] loop over the parsed questions; [forward(buf, received, client)]
    passes on the first [received] bytes of [buf] *)
Fixpoint handle_questions_io (blocklist : gset string) (io : sockets)
    (buf : list byte) (received : nat) (msg : Message) (qs : list Question)
  : exec (list action * Error) :=
  match qs with
  | [] => Ret ([], OK)
  | q :: qs' =>
      hit ← search blocklist (qname_ q);
      if (hit : bool) then send_blocked_io io (blocked_response msg q)
      else
        '(acts, err) ← handle_questions_io blocklist io buf received msg qs';
        Ret (Forward (take received buf) :: acts, err)
  end.

(** [uint8_t buf[Limits::MAX_EDNS_PAYLOAD]{}] once [recvfrom] has written
    [datagram] into it: the datagram, then the zeros that are left *)
Definition receive_buffer (datagram : list byte) : list byte :=
  datagram ++ replicate (Limits.MAX_EDNS_PAYLOAD - length datagram) x00.

(** [Listener::handleQuery()]: the calls it makes on the sockets after
    [recvfrom], in order, and the code it returns. The parser is given
    [buf] and the number of bytes received. *)
Definition Listener_handleQuery (blocklist : gset string) (io : sockets)
  : exec (list action * Error) :=
  match recvfrom_ io with
  | None => Ret ([], SERVER_RECV_FAIL)
  | Some datagram =>
      let buf := receive_buffer datagram in
      let received := length datagram in
      if bool_decide (received < 13) then Ret ([], PARSE_TOO_SHORT) else
      match parse_in buf received with
      | Ret msg =>
          handle_questions_io blocklist io buf received msg (questions_ msg)
      | Unexpected e => Ret ([], e)
      | OutOfBounds => OutOfBounds
      | OutOfFuel => OutOfFuel
      end
  end.

(** the 16-bit word a header stores at byte [i] (0 when the buffer is short) *)
Definition word_at (data : list byte) (i : nat) : Z :=
  match rd16 data i with
  | Ret v => v
  | _ => 0%Z
  end.

(** ** Auxiliary notions used in the statements and proofs *)

(** exhaustive check of a predicate on the [k]-bit values *)
Fixpoint forall_bits (k : nat) (P : Z → bool) : bool :=
  match k with
  | O => P 0%Z
  | S k' => forall_bits k' (λ z, P (2 * z)%Z) && forall_bits k' (λ z, P (2 * z + 1)%Z)
  end.

(** the word [(x << 8) | y] of two byte values *)
Definition w16 (x y : Z) : Z := Z.lor (Z.shiftl x 8) y.

(** the flag word that [getRawFlags] rebuilds from the fields [Header::decode]
    extracts from [flags] *)
Definition reflags (flags : Z) : Z :=
  getRawFlags
    (mk_Header 0 (flag_set (Z.shiftr flags 15) 1)
       (Z.land (Z.shiftr flags 11) 0xF) (flag_set flags Flags.AA)
       (flag_set flags Flags.TC) (flag_set flags Flags.RD)
       (flag_set flags Flags.RA) (flag_set flags Flags.AD)
       (flag_set flags Flags.CD) (Z.land flags 0xF) 0 0 0 0).

(** the call came back: with a value or with an error code *)
Definition returns {A : Type} (r : exec A) : Prop :=
  match r with
  | Ret _ | Unexpected _ => True
  | OutOfBounds | OutOfFuel => False
  end.

(** the states the loop of [Name::decode] passes through *)
Inductive reaches (data : list byte) : dstate → dstate → Prop :=
| reaches_here st : reaches data st st
| reaches_next st st' st'' :
    reaches data st st' →
    decode_step data st' = Ret (Continue st'') →
    reaches data st st''.

(** rounds left to [Name::decode] in state [st], at most *)
Definition decode_measure (len : nat) (st : dstate) : nat :=
  (20 - d_hops st) * (len + 1) + (len - d_pos st).

(** the error codes [Name::decode] can return *)
Definition name_error (e : Error) : Prop :=
  e = PARSE_TRUNCATED ∨ e = PARSE_PTR_OOB ∨ e = PARSE_PTR_LOOP ∨
  e = PARSE_BAD_LABEL ∨ e = PARSE_NAME_TOO_LONG.

(** dotted text of a list of labels *)
Fixpoint join_labels (labels : list string) : string :=
  match labels with
  | [] => EmptyString
  | [l] => l
  | l :: rest => (l ++ "." ++ join_labels rest)%string
  end.

(** what [Name::decode] keeps true of the name it builds: at most 255
    characters of dotted text, made of wire labels of 1 to 63 bytes *)
Definition name_inv (name : string) : Prop :=
  String.length name ≤ 255 ∧
  ∃ labels, name = join_labels labels ∧
            Forall (λ l, 1 ≤ String.length l ≤ 63) labels.

(** what one round of [Name::decode] can do to the state *)
Definition decode_step_post (data : list byte) (st : dstate)
    (r : exec (flow dstate (string * nat))) : Prop :=
  match r with
  | Ret (Continue st') =>
      (d_hops st' = S (d_hops st) ∧ d_hops st' ≤ 20 ∧
       d_pos st' < length data ∧ d_name st' = d_name st ∧
       d_jumped st' = true)
      ∨
      (∃ label : list byte,
         1 ≤ length label ≤ 63 ∧
         d_hops st' = d_hops st ∧ d_jumped st' = d_jumped st ∧
         d_offset st' = d_offset st ∧
         d_pos st' = d_pos st + 1 + length label ∧ d_pos st' ≤ length data ∧
         d_name st' =
           ((if bool_decide (d_name st = EmptyString) then d_name st
             else d_name st ++ ".") ++ string_of_bytes label)%string ∧
         String.length (d_name st') ≤ 255)
  | Ret (Break (name, _)) => name = d_name st
  | Unexpected e => name_error e
  | OutOfBounds | OutOfFuel => False
  end.

(** the error codes the decoders of [parser.cpp] can return *)
Definition decode_error (e : Error) : Prop :=
  name_error e ∨ e = PARSE_TOO_SHORT ∨ e = PARSE_BAD_OPCODE ∨
  e = PARSE_BAD_QDCOUNT.

(** four labels of 63 bytes and the root: 257 bytes of wire *)
Definition long_name_wire : list byte :=
  concat (replicate 4 (x3f :: replicate 63 x61)) ++ [x00].

(** a query [A? a] with ARCOUNT = 1 whose OPT record announces 4 bytes of
    RDATA and ends right after RDLENGTH *)
Definition short_rdata_query : list byte :=
  [x00; x01; x01; x00; x00; x01; x00; x00; x00; x00; x00; x01;
   x01; x61; x00; x00; x01; x00; x01;
   x00; x00; x29; x10; x00; x00; x00; x00; x00; x00; x04].

(** [s] is [t] or what follows one of the dots of [t] *)
Definition label_suffix (s t : string) : Prop :=
  s = t ∨ ∃ pre, t = (pre ++ "." ++ s)%string.

(** the header of scenario S1: id 0x1234, RD, one question *)
Definition s1_header : list byte :=
  [x12; x34; x01; x00; x00; x01; x00; x00; x00; x00; x00; x00].

(** a header with opcode 3 (unassigned) and QDCOUNT = 2 *)
Definition header_opcode3_two_questions : list byte :=
  [x00; x01; x18; x00; x00; x02; x00; x00; x00; x00; x00; x00].

(** a query header with QDCOUNT = 2 and ANCOUNT = 501 *)
Definition header_two_questions_501_answers : list byte :=
  [x00; x01; x01; x00; x00; x02; x01; xf5; x00; x00; x00; x00].

(** a query header with RD and QDCOUNT = 2 *)
Definition header_two_questions : list byte :=
  [x00; x01; x01; x00; x00; x02; x00; x00; x00; x00; x00; x00].

(** [A? sub.ads.com], id 0xABCD, RD, with an EDNS OPT record (UDP size
    4096, no options) in the additional section *)
Definition edns_query : list byte :=
  [xab; xcd; x01; x00; x00; x01; x00; x00; x00; x00; x00; x01;
   x03; x73; x75; x62; x03; x61; x64; x73; x03; x63; x6f; x6d; x00;
   x00; x01; x00; x01;
   x00; x00; x29; x10; x00; x00; x00; x00; x00; x00; x00].

(** what [handleQuery] sends back for [edns_query] *)
Definition edns_reply : list byte :=
  [xab; xcd; x81; x80; x00; x01; x00; x01; x00; x00; x00; x01;
   x03; x73; x75; x62; x03; x61; x64; x73; x03; x63; x6f; x6d; x00;
   x00; x01; x00; x01;
   xc0; x0c; x00; x01; x00; x01; x00; x00; x00; x00; x00; x04;
   x00; x00; x00; x00;
   xc0; x18; x00; x29; x10; x00; x00; x00; x00; x00; x00; x00].

(** [A? sub.ads.com], id 0xABCD, RD, with RCODE bits 3 in the flag word *)
Definition rcode3_query : list byte :=
  [xab; xcd; x01; x03; x00; x01; x00; x00; x00; x00; x00; x00;
   x03; x73; x75; x62; x03; x61; x64; x73; x03; x63; x6f; x6d; x00;
   x00; x01; x00; x01].

(** what [handleQuery] sends back for [rcode3_query] *)
Definition rcode3_reply : list byte :=
  [xab; xcd; x81; x83; x00; x01; x00; x01; x00; x00; x00; x00;
   x03; x73; x75; x62; x03; x61; x64; x73; x03; x63; x6f; x6d; x00;
   x00; x01; x00; x01;
   xc0; x0c; x00; x01; x00; x01; x00; x00; x00; x00; x00; x04;
   x00; x00; x00; x00].

(** the denylist of scenarios S2 to S5 *)
Definition ads_blocklist : gset string := {[ "ads.com"%string ]}.

(** a response [A a.com] answered with a record owned by [b.org] *)
Definition two_names_message : Message :=
  mk_Message (mk_Header 7 true 0 false false false false false false 0 0 0 0 0)
    [mk_Question "a.com" 1 1]
    [mk_ResourceRecord "b.org" 1 1 0 0 [x01; x02; x03; x04]] [] [].

(** the compression table after [a.com] was written at offset 12, and
    after [b.org] was then written at offset 23 *)
Definition table_after_a_com : gmap string Z :=
  <[""%string := 18%Z]> (<["com"%string := 14%Z]> (<["a.com"%string := 12%Z]> ∅)).

Definition table_after_b_org : gmap string Z :=
  <["org"%string := 25%Z]> (<["b.org"%string := 23%Z]> table_after_a_com).

(** ** Further notions: headers and sections *)

(** a header that [Header::decode] takes: 16-bit id and counts, a known
    opcode, a 4-bit response code, no AA or RA in a query, exactly one
    question in a query and at most one in a response, at most 500 records
    per section *)
Definition Header_valid (h : Header) : Prop :=
  (0 ≤ id_ h < 65536)%Z ∧ known_opcode (opcode_ h) = true ∧
  (0 ≤ rcode_ h < 16)%Z ∧
  (qr_ h = false → aa_ h = false ∧ ra_ h = false ∧ qdcount_ h = 1%Z) ∧
  (0 ≤ qdcount_ h ≤ 1)%Z ∧ (0 ≤ ancount_ h ≤ 500)%Z ∧
  (0 ≤ nscount_ h ≤ 500)%Z ∧ (0 ≤ arcount_ h ≤ 500)%Z.

(** exhaustive check of a predicate on the booleans *)
Definition forall_bool (P : bool → bool) : bool := P true && P false.

(** the header with the flag fields given and everything else zero *)
Definition flags_header (qr aa tc rd ra ad cd : bool) (opcode rcode : Z)
  : Header :=
  mk_Header 0 qr opcode aa tc rd ra ad cd rcode 0 0 0 0.

(** the flag word of [flags_header] reads back as its fields, with Z clear *)
Definition flags_read_back (qr aa tc rd ra ad cd : bool) (opcode rcode : Z)
  : bool :=
  let f := getRawFlags (flags_header qr aa tc rd ra ad cd opcode rcode) in
  (0 <=? f)%Z && (f <? 65536)%Z && negb (flag_set f Flags.Z_) &&
  eqb (flag_set (Z.shiftr f 15) 1) qr && (Z.land (Z.shiftr f 11) 0xF =? opcode)%Z &&
  eqb (flag_set f Flags.AA) aa && eqb (flag_set f Flags.TC) tc &&
  eqb (flag_set f Flags.RD) rd && eqb (flag_set f Flags.RA) ra &&
  eqb (flag_set f Flags.AD) ad && eqb (flag_set f Flags.CD) cd &&
  (Z.land f 0xF =? rcode)%Z.

(** where the caller's cursor stands, or will stand, while [Name::decode]
    runs from [offset0]: before the first pointer the read position has not
    moved back; after it the cursor is fixed, past [offset0] and inside the
    datagram *)
Definition cursor_inv (offset0 len : nat) (st : dstate) : Prop :=
  if d_jumped st then offset0 < d_offset st ≤ len else offset0 ≤ d_pos st.

(** ** Further notions: names on the wire *)

(** a label as the wire holds it: the length byte, then the bytes *)
Definition wire_label (l : string) : list byte :=
  z2b (Z.of_nat (String.length l)) :: bytes_of_string l.

(** the uncompressed wire form of the name made of [labels] *)
Definition wire_name (labels : list string) : list byte :=
  concat (map wire_label labels) ++ [x00].

(** a label of a dotted name: 1 to 63 bytes, none of them a dot *)
Definition label_ok (l : string) : Prop :=
  1 ≤ String.length l ≤ 63 ∧ str_find_char "." l = None.

(** no key of the compression table is as short as what remains of the
    name, so no lookup of this name can hit *)
Definition table_fresh (table : option (gmap string Z)) (rem : string) : Prop :=
  match table with
  | None => True
  | Some t => ∀ k, is_Some (t !! k) → String.length rem < String.length k
  end.

(** the name [Name::decode] has after appending [labels] to [name] *)
Definition acc_name (name : string) (labels : list string) : string :=
  foldl (λ n l, ((if bool_decide (n = EmptyString) then n else n ++ ".") ++ l)%string)
        name labels.

(** a string that the normalisation of [Listener::search] leaves alone: none
    of the characters [/ ? : #], no upper-case letter *)
Definition clean (s : string) : Prop :=
  str_find_first_of "/?:#" s = None ∧ str_map tolower s = s.

(** the lines of the files that come before the first one that cannot be
    opened *)
Fixpoint opened_lines (files : list (option (list string))) : list string :=
  match files with
  | Some lines :: files' => lines ++ opened_lines files'
  | _ => []
  end.

(** an outcome of the encoder: a result or one of its three error codes *)
Definition encode_outcome {A : Type} (r : exec A) : Prop :=
  match r with
  | Ret _ => True
  | Unexpected e =>
      e = ENCODE_LABEL_TOO_LONG ∨ e = ENCODE_NAME_TOO_LONG ∨ e = ENCODE_OVERFLOW
  | OutOfBounds | OutOfFuel => False
  end.

(** the header of a query: id 0x1234, RD, one question *)
Definition query_header : Header :=
  mk_Header 0x1234 false 0 false false true false false false 0 1 0 0 0.

(** the labels of [sub.ads.com] *)
Definition sub_ads_com : list string := ["sub"; "ads"; "com"]%string.

(** what [parse] makes of [rcode3_query] *)
Definition rcode3_message : Message :=
  mk_Message
    (mk_Header 0xABCD false 0 false false true false false false 3 1 0 0 0)
    [mk_Question "sub.ads.com" 1 1] [] [] [].

(** a denylist file with one line, in mixed case *)
Definition mixed_case_file : option (list string) :=
  Some ["Ads.Example.COM"%string].

(** ** Further notions: one call of MessageParser::encode, the sockets *)

(** the questions and records of a message, in the order in which
    [MessageParser::encode] writes them *)
Definition emitted (msg : Message) : list (Question + ResourceRecord) :=
  (inl <$> questions_ msg) ++ (inr <$> answers_ msg)
  ++ (inr <$> authority_ msg) ++ (inr <$> additional_ msg).

Definition item_name (it : Question + ResourceRecord) : string :=
  match it with
  | inl q => qname_ q
  | inr rr => name_ rr
  end.

(** what [Question::encode] and [ResourceRecord::encode] write after the
    name *)
Definition item_fields (it : Question + ResourceRecord) : list byte :=
  match it with
  | inl q => write16 (qtype_ q) ++ write16 (qclass_ q)
  | inr rr => write16 (type_ rr) ++ write16 (rclass_ rr) ++ write32 (ttl_ rr)
              ++ write16 (u16 (Z.of_nat (length (rdata_ rr)))) ++ rdata_ rr
  end.

Definition item_encode (it : Question + ResourceRecord)
    (table : option (gmap string Z)) (baseOffset : Z)
  : exec (list byte * option (gmap string Z)) :=
  match it with
  | inl q => Question_encode q table baseOffset
  | inr rr => ResourceRecord_encode rr table baseOffset
  end.

(** the table of one [MessageParser::encode] call once a first name was
    written: the empty suffix stands for the offset [z], and every key is
    the empty suffix or a label suffix of a name written so far *)
Definition table_inv (z : Z) (names : list string) (t : gmap string Z) : Prop :=
  t !! EmptyString = Some z ∧
  ∀ k, is_Some (t !! k) →
       k = EmptyString ∨ ∃ n, n ∈ names ∧ label_suffix k n.

(** the code [handleQuery] returns after [sendto]: it was OK unless a reply
    was handed to [sendto] and [sendto] did not send all of it *)
Definition sent_code (io : sockets) (acts : list action) (e : Error) : Error :=
  match acts with
  | [SendToClient enc] =>
      if bool_decide (sendto_ io enc = Some (length enc)) then e
      else SERVER_SEND_FAIL
  | _ => e
  end.

(** sockets that deliver [datagram] and send whatever they are given *)
Definition working_sockets (datagram : list byte) : sockets :=
  mk_sockets (Some datagram) (λ enc, Some (length enc)).

(** the OPT record that [short_rdata_query] ends with, as the record decoder
    reads it inside a buffer: four bytes of RDATA from after the datagram *)
Definition overread_record : ResourceRecord :=
  mk_ResourceRecord EmptyString 41 4096 0 4 [x00; x00; x00; x00].

(** what [MessageParser::encode] writes for [two_names_message] *)
Definition two_names_wire : list byte :=
  [x00; x07; x80; x00; x00; x01; x00; x01; x00; x00; x00; x00;
   x01; x61; x03; x63; x6f; x6d; x00; x00; x01; x00; x01;
   x01; x62; x03; x6f; x72; x67; xc0; x12; x00; x01; x00; x01;
   x00; x00; x00; x00; x00; x04; x01; x02; x03; x04].

(** * Properties *)

(** ** Bytes and words *)

Lemma forall_bits_spec (k : nat) (P : Z → bool) :
  forall_bits k P = true → ∀ z, (0 ≤ z < 2 ^ Z.of_nat k)%Z → P z = true.
Proof.
  revert P. induction k as [|k IH]; intros P H z Hz; simpl in H.
  - assert (z = 0%Z) as -> by (simpl in Hz; lia). done.
  - apply andb_true_iff in H as [H0 H1].
    rewrite Nat2Z.inj_succ, Z.pow_succ_r in Hz by lia.
    destruct (Z.even z) eqn:E.
    + apply Z.even_spec in E as [h ->].
      apply (IH (λ z, P (2 * z)%Z)); [done|lia].
    + assert (Z.odd z = true) as O by (rewrite <- Z.negb_even, E; done).
      apply Z.odd_spec in O as [h ->].
      apply (IH (λ z, P (2 * z + 1)%Z)); [done|lia].
Qed.

Lemma forall_below (P : Z → bool) (k : nat) :
  forall_bits k P = true → ∀ z, (0 ≤ z < 2 ^ Z.of_nat k)%Z → P z = true.
Proof. apply forall_bits_spec. Qed.

Lemma forall_below2 (P : Z → Z → bool) (k : nat) :
  forall_bits k (λ x, forall_bits k (P x)) = true →
  ∀ x y, (0 ≤ x < 2 ^ Z.of_nat k)%Z → (0 ≤ y < 2 ^ Z.of_nat k)%Z →
         P x y = true.
Proof.
  intros H x y Hx Hy.
  apply (forall_bits_spec k (P x)); [|done].
  by apply (forall_bits_spec k (λ x, forall_bits k (P x))).
Qed.

Lemma b2z_range (b : byte) : (0 ≤ b2z b < 256)%Z.
Proof.
  unfold b2z. pose proof (Byte.to_N_bounded b). lia.
Qed.

Lemma z2b_b2z (b : byte) : z2b (b2z b) = b.
Proof.
  unfold z2b. rewrite Z.mod_small by apply b2z_range.
  unfold b2z. rewrite N2Z.id, Byte.of_to_N. done.
Qed.

Lemma b2z_z2b (v : Z) : (0 ≤ v < 256)%Z → b2z (z2b v) = v.
Proof.
  intros Hv. unfold z2b, b2z. rewrite Z.mod_small by done.
  destruct (Byte.of_N (Z.to_N v)) as [y|] eqn:E.
  - apply Byte.to_of_N in E. simpl. rewrite E. lia.
  - apply Byte.of_N_None_iff in E. lia.
Qed.

Lemma rd_Some (data : list byte) (i : nat) (b : byte) :
  data !! i = Some b → rd data i = Ret b.
Proof. intros H. unfold rd. by rewrite H. Qed.

Lemma rd_in_bounds (data : list byte) (i : nat) :
  i < length data → ∃ b, data !! i = Some b ∧ rd data i = Ret b.
Proof.
  intros H. destruct (lookup_lt_is_Some_2 data i H) as [b Hb].
  exists b. split; [done|]. by apply rd_Some.
Qed.

Lemma rd_range_in_bounds (data : list byte) (n i : nat) :
  i + n ≤ length data →
  ∃ bytes, rd_range data i n = Ret bytes ∧ length bytes = n.
Proof.
  revert i. induction n as [|n IH]; intros i H; simpl.
  - by exists [].
  - destruct (rd_in_bounds data i) as (b & _ & ->); [lia|]. simpl.
    destruct (IH (S i)) as (bytes & -> & Hlen); [lia|]. simpl.
    exists (b :: bytes). split; [done|]. simpl. by rewrite Hlen.
Qed.

Lemma rd_range_out_of_bounds (data : list byte) (n i : nat) :
  i ≤ length data → length data < i + n → rd_range data i n = OutOfBounds.
Proof.
  revert i. induction n as [|n IH]; intros i Hi H; simpl; [lia|].
  unfold rd at 1. destruct (data !! i) as [b|] eqn:E; [|done]. simpl.
  apply lookup_lt_Some in E. rewrite IH by lia. done.
Qed.

Lemma be16_w16 (hi lo : byte) : be16 hi lo = w16 (b2z hi) (b2z lo).
Proof. done. Qed.

Lemma w16_facts (x y : Z) :
  (0 ≤ x < 256)%Z → (0 ≤ y < 256)%Z →
  (0 ≤ w16 x y < 65536)%Z ∧
  Z.land (Z.shiftr (w16 x y) 8) 0xFF = x ∧ Z.land (w16 x y) 0xFF = y.
Proof.
  intros Hx Hy.
  pose (P := λ x y : Z,
    (0 <=? w16 x y)%Z && (w16 x y <? 65536)%Z &&
    (Z.land (Z.shiftr (w16 x y) 8) 0xFF =? x)%Z &&
    (Z.land (w16 x y) 0xFF =? y)%Z).
  assert (P x y = true) as HP.
  { apply (forall_below2 P 8); [by vm_compute|done|done]. }
  unfold P in HP. rewrite !andb_true_iff in HP.
  destruct HP as [[[H1 H2] H3] H4].
  apply Z.leb_le in H1. apply Z.ltb_lt in H2.
  apply Z.eqb_eq in H3. apply Z.eqb_eq in H4. done.
Qed.

Lemma be16_range (hi lo : byte) : (0 ≤ be16 hi lo < 65536)%Z.
Proof.
  rewrite be16_w16. apply w16_facts; apply b2z_range.
Qed.

Lemma write16_be16 (hi lo : byte) : write16 (be16 hi lo) = [hi; lo].
Proof.
  rewrite be16_w16. unfold write16.
  destruct (w16_facts (b2z hi) (b2z lo)) as (_ & -> & ->);
    [apply b2z_range..|].
  by rewrite !z2b_b2z.
Qed.

Lemma be16_write16 (v : Z) :
  (0 ≤ v < 65536)%Z →
  be16 (z2b (Z.land (Z.shiftr v 8) 0xFF)) (z2b (Z.land v 0xFF)) = v.
Proof.
  intros Hv.
  pose (P := λ v : Z,
    (Z.land (Z.shiftr v 8) 0xFF <? 256)%Z && (0 <=? Z.land (Z.shiftr v 8) 0xFF)%Z &&
    (Z.land v 0xFF <? 256)%Z && (0 <=? Z.land v 0xFF)%Z &&
    (w16 (Z.land (Z.shiftr v 8) 0xFF) (Z.land v 0xFF) =? v)%Z).
  assert (P v = true) as HP.
  { apply (forall_below P 16); [by vm_compute|done]. }
  unfold P in HP. rewrite !andb_true_iff in HP.
  destruct HP as [[[[H1 H2] H3] H4] H5].
  apply Z.ltb_lt in H1. apply Z.leb_le in H2. apply Z.ltb_lt in H3.
  apply Z.leb_le in H4. apply Z.eqb_eq in H5.
  rewrite be16_w16, !b2z_z2b by done. done.
Qed.

(** ** The header codec *)

Lemma reflags_id (flags : Z) :
  (0 ≤ flags < 65536)%Z → flag_set flags Flags.Z_ = false → reflags flags = flags.
Proof.
  intros Hr Hz.
  pose (P := λ f : Z, flag_set f Flags.Z_ || (reflags f =? f)%Z).
  assert (P flags = true) as HP.
  { apply (forall_below P 16); [by vm_compute|done]. }
  unfold P in HP. rewrite Hz, orb_false_l in HP.
  by apply Z.eqb_eq in HP.
Qed.

Lemma reflags_unfold (flags : Z) :
  reflags flags =
  getRawFlags
    (mk_Header 0 (flag_set (Z.shiftr flags 15) 1)
       (Z.land (Z.shiftr flags 11) 0xF) (flag_set flags Flags.AA)
       (flag_set flags Flags.TC) (flag_set flags Flags.RD)
       (flag_set flags Flags.RA) (flag_set flags Flags.AD)
       (flag_set flags Flags.CD) (Z.land flags 0xF) 0 0 0 0).
Proof. reflexivity. Qed.

Lemma getRawFlags_flag_fields (h : Header) :
  getRawFlags h =
  getRawFlags (mk_Header 0 (qr_ h) (opcode_ h) (aa_ h) (tc_ h) (rd_ h) (ra_ h)
                 (ad_ h) (cd_ h) (rcode_ h) 0 0 0 0).
Proof.
  destruct h. unfold getRawFlags.
  cbn [qr_ opcode_ aa_ tc_ rd_ ra_ ad_ cd_ rcode_]. reflexivity.
Qed.

(** the flag word of a decoded header is the word it was decoded from *)
Lemma getRawFlags_decoded (flags id qd an ns ar : Z) :
  (0 ≤ flags < 65536)%Z → flag_set flags Flags.Z_ = false →
  getRawFlags
    (mk_Header id (flag_set (Z.shiftr flags 15) 1)
       (Z.land (Z.shiftr flags 11) 0xF) (flag_set flags Flags.AA)
       (flag_set flags Flags.TC) (flag_set flags Flags.RD)
       (flag_set flags Flags.RA) (flag_set flags Flags.AD)
       (flag_set flags Flags.CD) (Z.land flags 0xF) qd an ns ar) = flags.
Proof.
  intros Hr Hz. rewrite getRawFlags_flag_fields.
  cbn [qr_ opcode_ aa_ tc_ rd_ ra_ ad_ cd_ rcode_].
  rewrite <- reflags_unfold. by apply reflags_id.
Qed.


Lemma rd16_word_at (data : list byte) (i : nat) :
  i + 1 < length data → rd16 data i = Ret (word_at data i).
Proof.
  intros H. unfold word_at, rd16.
  destruct (rd_in_bounds data i) as (hi & _ & ->); [lia|].
  destruct (rd_in_bounds data (i + 1)) as (lo & _ & ->); [lia|].
  done.
Qed.

(** [Header::decode] on a buffer of at least 12 bytes, as a function of the
    six words of the header. *)
Lemma Header_decode_words (data : list byte) :
  12 ≤ length data →
  Header_decode data =
    let flags := word_at data 2 in
    if flag_set flags Flags.Z_ then Unexpected PARSE_TRUNCATED else
    let qr := flag_set (Z.shiftr flags 15) 1 in
    let opcode := Z.land (Z.shiftr flags 11) 0xF in
    if negb (known_opcode opcode) then Unexpected PARSE_BAD_OPCODE else
    let ra := flag_set flags Flags.RA in
    let aa := flag_set flags Flags.AA in
    if negb qr && (ra || aa) then Unexpected PARSE_TRUNCATED else
    if negb qr && bool_decide (word_at data 4 = 0%Z)
    then Unexpected PARSE_BAD_QDCOUNT else
    if bool_decide (1 < word_at data 4)%Z then Unexpected PARSE_BAD_QDCOUNT else
    if bool_decide (500 < word_at data 6)%Z || bool_decide (500 < word_at data 8)%Z
       || bool_decide (500 < word_at data 10)%Z
    then Unexpected PARSE_TRUNCATED else
    Ret (mk_Header (word_at data 0) qr opcode aa (flag_set flags Flags.TC)
           (flag_set flags Flags.RD) ra (flag_set flags Flags.AD)
           (flag_set flags Flags.CD) (Z.land flags 0xF) (word_at data 4)
           (word_at data 6) (word_at data 8) (word_at data 10)).
Proof.
  intros Hlen. unfold Header_decode.
  rewrite bool_decide_eq_false_2 by lia.
  rewrite !rd16_word_at by lia.
  cbn [mbind exec_bind].
  repeat (match goal with |- context [if ?c then _ else _] => destruct c end;
          try reflexivity).
Qed.

(** C6. For every 12-byte pattern that [Header::decode] accepts, encoding
    the decoded header gives the same 12 bytes back. *)
Theorem Header_encode_decode (b : list byte) (h : Header) :
  length b = 12 → Header_decode b = Ret h → Header_encode h = b.
Proof.
  intros Hlen Hdec.
  destruct b as [|i0 [|i1 [|f0 [|f1 [|q0 [|q1 [|a0 [|a1 [|n0 [|n1 [|r0 [|r1 [|]]]]]]]]]]]]];
    try done. clear Hlen.
  rewrite Header_decode_words in Hdec by (simpl; lia).
  unfold word_at, rd16, rd in Hdec.
  cbn [lookup list_lookup Nat.add mbind exec_bind] in Hdec.
  cbv zeta in Hdec.
  repeat match type of Hdec with
         | (if ?c then _ else _) = _ => destruct c eqn:?; [done|]
         end.
  injection Hdec as <-. unfold Header_encode.
  cbn [id_ qdcount_ ancount_ nscount_ arcount_].
  rewrite getRawFlags_decoded by (done || apply be16_range).
  rewrite !write16_be16. done.
Qed.

Lemma Header_encode_decode_witness :
  Header_encode
    (mk_Header 0x1234 false 0 false false true false false false 0 1 0 0 0)
  = s1_header.
Proof.
  apply Header_encode_decode; [reflexivity|vm_compute; reflexivity].
Defined.

(** C8 (as stated) fails: a header with QDCOUNT = 2 and an unassigned
    opcode is rejected with [PARSE_BAD_OPCODE], not [PARSE_BAD_QDCOUNT];
    a query header with ANCOUNT = 501 and QDCOUNT = 2 is rejected with
    [PARSE_BAD_QDCOUNT], not [PARSE_TRUNCATED]. *)
Lemma Header_decode_code_depends_on_order :
  (length header_opcode3_two_questions = 12 ∧
   (1 < word_at header_opcode3_two_questions 4)%Z ∧
   Header_decode header_opcode3_two_questions = Unexpected PARSE_BAD_OPCODE) ∧
  (length header_two_questions_501_answers = 12 ∧
   (500 < word_at header_two_questions_501_answers 6)%Z ∧
   Header_decode header_two_questions_501_answers
     = Unexpected PARSE_BAD_QDCOUNT).
Proof. repeat split; vm_compute; reflexivity. Qed.

(** C8 (as amended). A header of at least 12 bytes with a bad QDCOUNT, with
    AA or RA in a query, or with a section count above 500 is always
    rejected. The code is that of the first check that fails, in the order
    of [Header::decode]: a set Z bit gives [PARSE_TRUNCATED]; else an
    unknown opcode gives [PARSE_BAD_OPCODE]; else AA or RA in a query gives
    [PARSE_TRUNCATED]; else a bad QDCOUNT gives [PARSE_BAD_QDCOUNT]; else a
    count above 500 gives [PARSE_TRUNCATED]. *)
Theorem Header_decode_rejects (data : list byte) :
  12 ≤ length data →
  let flags := word_at data 2 in
  let qr := flag_set (Z.shiftr flags 15) 1 in
  let bad_bits :=
    qr = false ∧ (flag_set flags Flags.AA = true ∨ flag_set flags Flags.RA = true) in
  let bad_qd := (qr = false ∧ word_at data 4 = 0%Z) ∨ (1 < word_at data 4)%Z in
  let bad_caps :=
    (500 < word_at data 6)%Z ∨ (500 < word_at data 8)%Z ∨
    (500 < word_at data 10)%Z in
  (bad_bits ∨ bad_qd ∨ bad_caps → ∃ e, Header_decode data = Unexpected e) ∧
  (flag_set flags Flags.Z_ = true →
   Header_decode data = Unexpected PARSE_TRUNCATED) ∧
  (flag_set flags Flags.Z_ = false →
   known_opcode (Z.land (Z.shiftr flags 11) 0xF) = false →
   Header_decode data = Unexpected PARSE_BAD_OPCODE) ∧
  (flag_set flags Flags.Z_ = false →
   known_opcode (Z.land (Z.shiftr flags 11) 0xF) = true →
   (bad_bits → Header_decode data = Unexpected PARSE_TRUNCATED) ∧
   (¬ bad_bits → bad_qd → Header_decode data = Unexpected PARSE_BAD_QDCOUNT) ∧
   (¬ bad_bits → ¬ bad_qd → bad_caps →
    Header_decode data = Unexpected PARSE_TRUNCATED)).
Proof.
  intros Hlen. cbv zeta. rewrite Header_decode_words by done. cbv zeta.
  generalize (flag_set (word_at data 2) Flags.Z_).
  generalize (known_opcode (Z.land (Z.shiftr (word_at data 2) 11) 15)).
  generalize (flag_set (Z.shiftr (word_at data 2) 15) 1).
  generalize (flag_set (word_at data 2) Flags.AA).
  generalize (flag_set (word_at data 2) Flags.RA).
  generalize (flag_set (word_at data 2) Flags.TC).
  generalize (flag_set (word_at data 2) Flags.RD).
  generalize (flag_set (word_at data 2) Flags.AD).
  generalize (flag_set (word_at data 2) Flags.CD).
  generalize (Z.land (word_at data 2) 15).
  generalize (word_at data 0) (word_at data 4) (word_at data 6)
             (word_at data 8) (word_at data 10).
  intros id qd an ns ar rcode cd ad rdf tc ra aa qr op z.
  split; [|split; [|split]].
  - intros H. destruct z, op, qr, ra, aa; simpl; repeat case_bool_decide;
      simpl; eauto; exfalso; intuition (discriminate || lia).
  - by intros ->.
  - by intros -> ->.
  - intros -> ->. destruct qr, ra, aa; simpl; repeat case_bool_decide;
      simpl; intuition (discriminate || lia).
Qed.

Lemma Header_decode_rejects_witness :
  Header_decode header_two_questions = Unexpected PARSE_BAD_QDCOUNT.
Proof.
  destruct (Header_decode_rejects header_two_questions) as (_ & _ & _ & H);
    [simpl; lia|].
  destruct H as (_ & H & _); [reflexivity|reflexivity|].
  apply H.
  - vm_compute. intros [_ [E|E]]; discriminate E.
  - right. vm_compute. reflexivity.
Defined.

(** ** Name::decode *)

Lemma string_of_bytes_length (l : list byte) :
  String.length (string_of_bytes l) = length l.
Proof.
  unfold string_of_bytes. induction l as [|b l IH]; simpl; [done|].
  by rewrite IH.
Qed.

Lemma decode_step_spec (data : list byte) (st : dstate) :
  decode_step_post data st (decode_step data st).
Proof.
  unfold decode_step, name_error. cbv zeta.
  unfold Limits.MAX_LABEL_LEN, Limits.MAX_NAME_LEN, Limits.COMPRESSION_MASK.
  case_bool_decide as Hpos; [simpl; unfold name_error; tauto|].
  destruct (rd_in_bounds data (d_pos st)) as (b & Hb & ->); [lia|].
  cbn [mbind exec_bind].
  pose proof (b2z_range b) as Hbr.
  case_bool_decide as Hzero; [done|].
  case_bool_decide as Hptr.
  - case_bool_decide; [simpl; unfold name_error; tauto|].
    destruct (rd_in_bounds data (d_pos st + 1)) as (b1 & _ & ->); [lia|].
    cbn [mbind exec_bind].
    case_bool_decide; [simpl; unfold name_error; tauto|].
    case_bool_decide; [simpl; unfold name_error; tauto|].
    left. cbn [decode_step_post d_hops d_pos d_name d_jumped].
    repeat split; try done; lia.
  - case_bool_decide; [simpl; unfold name_error; tauto|].
    case_bool_decide; [simpl; unfold name_error; tauto|].
    destruct (rd_range_in_bounds data (Z.to_nat (b2z b)) (d_pos st + 1))
      as (label & -> & Hl); [lia|].
    cbn [mbind exec_bind].
    case_bool_decide; [simpl; unfold name_error; tauto|].
    right. exists label.
    cbn [decode_step_post d_hops d_pos d_name d_jumped d_offset].
    repeat split; try done; lia.
Qed.

Lemma decode_measure_step (data : list byte) (st st' : dstate) :
  decode_step data st = Ret (Continue st') →
  d_hops st ≤ 20 →
  d_hops st' ≤ 20 ∧
  decode_measure (length data) st' < decode_measure (length data) st.
Proof.
  intros Hstep Hh. pose proof (decode_step_spec data st) as Hs.
  rewrite Hstep in Hs. unfold decode_measure.
  destruct Hs as [(Hh' & Hle & Hp & _) | (label & Hl & Hh' & _ & _ & Hp & Hple & _)].
  - split; [done|]. rewrite Hh'.
    replace (20 - d_hops st) with (S (20 - S (d_hops st))) by lia.
    rewrite Nat.mul_succ_l. lia.
  - rewrite Hh'. split; [done|]. lia.
Qed.

(** With the rounds of [decode_measure] in hand the loop comes back, with a
    name or with one of the error codes of [name_error]. *)
Lemma decode_loop_returns (data : list byte) (fuel : nat) (st : dstate) :
  d_hops st ≤ 20 → decode_measure (length data) st < fuel →
  match decode_loop fuel data st with
  | Ret _ => True
  | Unexpected e => name_error e
  | OutOfBounds | OutOfFuel => False
  end.
Proof.
  revert st. induction fuel as [|fuel IH]; intros st Hh Hm; [lia|].
  cbn [decode_loop].
  pose proof (decode_step_spec data st) as Hs.
  destruct (decode_step data st) as [[st'|res]| | |] eqn:Hstep;
    cbn [mbind exec_bind]; try done.
  destruct (decode_measure_step data st st' Hstep Hh) as [Hh' Hm'].
  apply IH; [done|lia].
Qed.

Lemma decode_loop_more_fuel (data : list byte) (fuel fuel' : nat) (st : dstate) :
  fuel ≤ fuel' → decode_loop fuel data st ≠ OutOfFuel →
  decode_loop fuel' data st = decode_loop fuel data st.
Proof.
  revert fuel' st. induction fuel as [|fuel IH]; intros fuel' st Hle Hr; [done|].
  destruct fuel' as [|fuel']; [lia|]. cbn [decode_loop] in *.
  destruct (decode_step data st) as [[st'|res]| | |]; cbn [mbind exec_bind] in *;
    try done.
  apply IH; [lia|done].
Qed.

Lemma decode_init_measure (len offset : nat) :
  decode_measure len (decode_init offset) < decode_budget len.
Proof. unfold decode_measure, decode_budget, decode_init; simpl. lia. Qed.

(** [Name::decode] comes back on every input and never reads outside the
    datagram; its error codes are those of [name_error]. *)
Lemma Name_decode_returns (data : list byte) (offset : nat) :
  match Name_decode data offset with
  | Ret _ => True
  | Unexpected e => name_error e
  | OutOfBounds | OutOfFuel => False
  end.
Proof.
  apply decode_loop_returns; [simpl; lia|apply decode_init_measure].
Qed.

Lemma reaches_hops (data : list byte) (st0 st : dstate) :
  reaches data st0 st → d_hops st0 ≤ 20 → d_hops st ≤ 20.
Proof.
  induction 1 as [|st0 st' st'' _ IH Hstep]; intros H0; [done|].
  by destruct (decode_measure_step data st' st'' Hstep (IH H0)).
Qed.

(** the round at a compression pointer that lies inside the datagram *)
Lemma decode_step_pointer (data : list byte) (st : dstate) (b0 b1 : byte) :
  data !! d_pos st = Some b0 → data !! (d_pos st + 1) = Some b1 →
  Z.land (b2z b0) 0xC0 = 0xC0%Z →
  (pointer_target b0 b1 < Z.of_nat (length data))%Z →
  decode_step data st =
    if bool_decide (20 < S (d_hops st)) then Unexpected PARSE_PTR_LOOP
    else Ret (Continue (mk_dstate (Z.to_nat (pointer_target b0 b1)) true
                          (S (d_hops st)) (d_name st)
                          (if d_jumped st then d_offset st else d_pos st + 2))).
Proof.
  intros H0 H1 Hmask Hin. unfold decode_step. cbv zeta.
  pose proof (lookup_lt_Some _ _ _ H0). pose proof (lookup_lt_Some _ _ _ H1).
  rewrite bool_decide_eq_false_2 by lia.
  rewrite (rd_Some _ _ _ H0). cbn [mbind exec_bind].
  rewrite bool_decide_eq_false_2.
  2: { intros E. rewrite E in Hmask. done. }
  unfold Limits.COMPRESSION_MASK.
  rewrite (bool_decide_eq_true_2 _ Hmask).
  rewrite bool_decide_eq_false_2 by lia.
  rewrite (rd_Some _ _ _ H1). cbn [mbind exec_bind].
  rewrite bool_decide_eq_false_2 by lia.
  done.
Qed.

(** a pointer that targets itself: after [k] hops, [21 - k] more rounds end
    in [PARSE_PTR_LOOP] *)
Lemma self_pointer_rounds (data : list byte) (p : nat) (b0 b1 : byte) :
  data !! p = Some b0 → data !! (p + 1) = Some b1 →
  Z.land (b2z b0) 0xC0 = 0xC0%Z → pointer_target b0 b1 = Z.of_nat p →
  ∀ n k jumped name offset,
    k + n = 20 →
    decode_loop (S n) data (mk_dstate p jumped k name offset)
      = Unexpected PARSE_PTR_LOOP ∧
    decode_loop n data (mk_dstate p jumped k name offset) = OutOfFuel.
Proof.
  intros H0 H1 Hmask Hself.
  pose proof (lookup_lt_Some _ _ _ H0) as Hp.
  induction n as [|n IH]; intros k jumped name offset Hk.
  - split; [|done]. cbn [decode_loop].
    rewrite (decode_step_pointer data _ b0 b1) by (done || simpl; lia).
    cbn [d_hops]. rewrite bool_decide_eq_true_2 by lia. done.
  - assert (∀ fuel, decode_loop (S fuel) data (mk_dstate p jumped k name offset)
              = decode_loop fuel data
                  (mk_dstate p true (S k) name (if jumped then offset else p + 2)))
      as Hround.
    { intros fuel. cbn [decode_loop].
      rewrite (decode_step_pointer data _ b0 b1) by (done || simpl; lia).
      cbn [d_hops d_pos d_name d_jumped d_offset].
      rewrite bool_decide_eq_false_2 by lia. cbn [mbind exec_bind].
      rewrite Hself, Nat2Z.id. done. }
    rewrite !Hround. apply IH. lia.
Qed.

(** C5. [Name::decode] comes back on every input (with a value or an error
    code, and with the same result for any larger round budget); no state
    of its loop has followed more than 20 pointers, and a further in-range
    pointer met after 20 hops ends the call with [PARSE_PTR_LOOP]; a
    pointer that targets itself ends with [PARSE_PTR_LOOP] in exactly 21
    rounds. *)
Theorem Name_decode_terminates (data : list byte) (offset : nat) :
  (returns (Name_decode data offset) ∧
   ∀ fuel, decode_budget (length data) ≤ fuel →
           decode_loop fuel data (decode_init offset) = Name_decode data offset) ∧
  (∀ st, reaches data (decode_init offset) st →
     d_hops st ≤ 20 ∧
     ∀ b0 b1,
       d_hops st = 20 →
       data !! d_pos st = Some b0 → data !! (d_pos st + 1) = Some b1 →
       Z.land (b2z b0) 0xC0 = 0xC0%Z →
       (pointer_target b0 b1 < Z.of_nat (length data))%Z →
       decode_step data st = Unexpected PARSE_PTR_LOOP) ∧
  (∀ b0 b1,
     data !! offset = Some b0 → data !! (offset + 1) = Some b1 →
     Z.land (b2z b0) 0xC0 = 0xC0%Z → pointer_target b0 b1 = Z.of_nat offset →
     Name_decode data offset = Unexpected PARSE_PTR_LOOP ∧
     decode_loop 21 data (decode_init offset) = Unexpected PARSE_PTR_LOOP ∧
     decode_loop 20 data (decode_init offset) = OutOfFuel).
Proof.
  pose proof (Name_decode_returns data offset) as Hret.
  assert (Name_decode data offset ≠ OutOfFuel) as Hnt
    by (intros E; by rewrite E in Hret).
  split; [split|split].
  - by destruct (Name_decode data offset).
  - intros fuel Hfuel. by apply decode_loop_more_fuel.
  - intros st Hreach.
    assert (d_hops st ≤ 20) as Hh by (apply (reaches_hops _ _ _ Hreach); simpl; lia).
    split; [done|]. intros b0 b1 H20 H0 H1 Hmask Hin.
    rewrite (decode_step_pointer data st b0 b1) by done.
    rewrite bool_decide_eq_true_2 by lia. done.
  - intros b0 b1 H0 H1 Hmask Hself.
    destruct (self_pointer_rounds data offset b0 b1 H0 H1 Hmask Hself
                20 0 false EmptyString offset eq_refl) as [H21 H20].
    split; [|done].
    unfold Name_decode. rewrite <- H21. apply decode_loop_more_fuel.
    + pose proof (lookup_lt_Some _ _ _ H1). unfold decode_budget. lia.
    + unfold decode_init. by rewrite H21.
Qed.

Lemma Name_decode_terminates_witness :
  Name_decode [xc0; x00] 0 = Unexpected PARSE_PTR_LOOP.
Proof.
  apply (proj2 (proj2 (Name_decode_terminates [xc0; x00] 0)) xc0 x00);
    reflexivity.
Defined.

(** C4, at the failing input. Four 63-byte labels and the root take 257
    bytes of wire; [Name::decode] consumes all 257 and returns the name,
    255 characters of dotted text, which [Name::encode] itself refuses as
    longer than 255 bytes on the wire. *)
Theorem Name_decode_accepts_257_wire_bytes :
  length long_name_wire = 257 ∧
  ∃ name,
    Name_decode long_name_wire 0 = Ret (name, 257) ∧
    String.length name = 255 ∧
    Name_encode name None 0 = Unexpected ENCODE_NAME_TOO_LONG.
Proof.
  split; [reflexivity|].
  eexists. split; [vm_compute; reflexivity|].
  split; vm_compute; reflexivity.
Qed.

(** ** Question::decode, ResourceRecord::decode, MessageParser::parse *)

Lemma rd_not_unexpected (data : list byte) (i : nat) (e : Error) :
  rd data i ≠ Unexpected e.
Proof. unfold rd. by destruct (data !! i). Qed.

Lemma rd_range_not_unexpected (data : list byte) (n i : nat) (e : Error) :
  rd_range data i n ≠ Unexpected e.
Proof.
  revert i. induction n as [|n IH]; intros i; simpl; [done|].
  unfold rd. destruct (data !! i); [|done]. simpl.
  specialize (IH (S i)). by destruct (rd_range data (S i) n).
Qed.

Lemma Question_decode_errors (data : list byte) (offset : nat) (e : Error) :
  Question_decode data offset = Unexpected e → name_error e.
Proof.
  unfold Question_decode. intros H.
  pose proof (Name_decode_returns data offset) as Hn.
  destruct (Name_decode data offset) as [[name off]|e'| |];
    cbn [mbind exec_bind] in H; try done.
  - case_bool_decide; [injection H as <-; unfold name_error; tauto|].
    unfold rd in H.
    repeat (match type of H with
            | context [data !! ?i] => destruct (data !! i)
            end; cbn [mbind exec_bind] in H; try done).
  - by injection H as <-.
Qed.


Lemma decode_questions_errors (data : list byte) (n offset : nat) (e : Error) :
  decode_questions data n offset = Unexpected e → name_error e.
Proof.
  revert offset. induction n as [|n IH]; intros offset H; [done|].
  cbn [decode_questions] in H.
  destruct (Question_decode data offset) as [[q off]|e'| |] eqn:Hq;
    cbn [mbind exec_bind] in H; try done.
  - destruct (decode_questions data n off) as [[qs off']|e'| |] eqn:Hqs;
      cbn [mbind exec_bind] in H; try done.
    injection H as <-. by apply (IH off).
  - injection H as <-. by apply (Question_decode_errors data offset).
Qed.


Lemma Header_decode_errors (data : list byte) (e : Error) :
  Header_decode data = Unexpected e →
  e = PARSE_TOO_SHORT ∨ e = PARSE_TRUNCATED ∨ e = PARSE_BAD_OPCODE ∨
  e = PARSE_BAD_QDCOUNT.
Proof.
  destruct (decide (12 ≤ length data)) as [Hlen|Hlen].
  - rewrite Header_decode_words by done. cbv zeta. intros H.
    repeat match type of H with
           | (if ?c then _ else _) = _ => destruct c
           end; try done; injection H as <-; tauto.
  - unfold Header_decode. rewrite bool_decide_eq_true_2 by lia.
    intros H. injection H as <-. tauto.
Qed.






(** The RDATA bound of [ResourceRecord::decode] is taken at the cursor
    before the ten fixed bytes: an RDLENGTH that fits there but not after
    them sends the copy of RDATA past the end of the datagram. *)
Lemma ResourceRecord_decode_rdata_overrun (data : list byte) (offset : nat)
    (name : string) (off : nat) :
  Name_decode data offset = Ret (name, off) →
  off + 10 ≤ length data →
  let rdlength := Z.to_nat (word_at data (off + 8)) in
  off + rdlength ≤ length data < off + 10 + rdlength →
  ResourceRecord_decode data offset = OutOfBounds.
Proof.
  intros Hname Hfix rdlength Hlen.
  assert (rd16 data (off + 8) = Ret (word_at data (off + 8))) as Hw
    by (apply rd16_word_at; lia).
  unfold rd16 in Hw. replace (off + 8 + 1) with (off + 9) in Hw by lia.
  unfold ResourceRecord_decode. rewrite Hname.
  cbn [mbind exec_bind]. rewrite bool_decide_eq_false_2 by lia.
  repeat match goal with
         | |- context [rd data ?i] =>
             let b := fresh "b" in let E := fresh "E" in
             destruct (rd_in_bounds data i) as (b & _ & E); [lia|];
             rewrite E in *; clear E; cbn [mbind exec_bind] in *
         end.
  cbv zeta. injection Hw as Hw. subst rdlength. rewrite <- Hw in Hlen.
  rewrite bool_decide_eq_false_2 by lia.
  rewrite rd_range_out_of_bounds by lia. done.
Qed.

(** the reads of a record's fixed part, all inside the datagram *)
Ltac reads_in_bounds :=
  repeat match goal with
         | |- context [rd ?data ?i] =>
             let b := fresh "b" in let E := fresh "E" in
             destruct (rd_in_bounds data i) as (b & _ & E); [lia|];
             rewrite E in *; clear E; cbn [mbind exec_bind] in *
         end.

(** [Header::decode] and [Question::decode] stay inside the datagram. *)
Lemma Header_decode_returns (data : list byte) : returns (Header_decode data).
Proof.
  destruct (decide (12 ≤ length data)) as [Hlen|Hlen].
  - rewrite Header_decode_words by done. cbv zeta.
    repeat match goal with
           | |- context [if ?c then _ else _] => destruct c
           end; done.
  - unfold Header_decode. by rewrite bool_decide_eq_true_2 by lia.
Qed.

Lemma Question_decode_returns (data : list byte) (offset : nat) :
  returns (Question_decode data offset).
Proof.
  unfold Question_decode.
  pose proof (Name_decode_returns data offset) as Hn.
  destruct (Name_decode data offset) as [[name off]|e| |];
    cbn [mbind exec_bind]; try done.
  case_bool_decide; [done|]. reads_in_bounds. done.
Qed.

(** The copy of RDATA is the only read of [ResourceRecord::decode] that can
    leave the datagram, and it does so exactly when RDLENGTH fits before
    the ten fixed bytes but not after them. *)
Lemma ResourceRecord_decode_overrun_only (data : list byte) (offset : nat) :
  ResourceRecord_decode data offset = OutOfBounds →
  ∃ name off,
    Name_decode data offset = Ret (name, off) ∧ off + 10 ≤ length data ∧
    off + Z.to_nat (word_at data (off + 8)) ≤ length data
      < off + 10 + Z.to_nat (word_at data (off + 8)).
Proof.
  unfold ResourceRecord_decode.
  pose proof (Name_decode_returns data offset) as Hn.
  destruct (Name_decode data offset) as [[name off]|e| |];
    cbn [mbind exec_bind]; try done.
  case_bool_decide as Hfix; [done|].
  assert (rd16 data (off + 8) = Ret (word_at data (off + 8))) as Hw
    by (apply rd16_word_at; lia).
  unfold rd16 in Hw. replace (off + 8 + 1) with (off + 9) in Hw by lia.
  reads_in_bounds. cbv zeta. injection Hw as Hw. rewrite Hw.
  case_bool_decide as Hrd; [done|].
  intros Hoob. exists name, off. split; [done|]. split; [lia|]. split; [lia|].
  destruct (decide (off + 10 + Z.to_nat (word_at data (off + 8)) ≤ length data))
    as [Hok|Hko]; [|lia].
  destruct (rd_range_in_bounds data (Z.to_nat (word_at data (off + 8)))
              (off + 10) Hok) as (bytes & E & _).
  rewrite E in Hoob. done.
Qed.

(** C1, at the failing input. The 30-byte query [short_rdata_query] ends
    right after the RDLENGTH of its OPT record, which announces 4 bytes of
    RDATA: the record decoder, the message parser and the query handler
    read past the end of the datagram instead of returning
    [PARSE_TRUNCATED]. *)
Theorem parse_reads_past_datagram_end :
  length short_rdata_query = 30 ∧
  Name_decode short_rdata_query 19 = Ret (EmptyString, 20) ∧
  word_at short_rdata_query 28 = 4%Z ∧
  ResourceRecord_decode short_rdata_query 19 = OutOfBounds ∧
  parse short_rdata_query = OutOfBounds ∧
  handleQuery ∅ short_rdata_query = OutOfBounds.
Proof. repeat split; vm_compute; reflexivity. Qed.

(** ** Strings *)

Lemma str_app_nil (b : string) : (EmptyString ++ b)%string = b.
Proof. reflexivity. Qed.

Lemma str_app_cons (x : ascii) (a b : string) :
  (String x a ++ b)%string = String x (a ++ b).
Proof. reflexivity. Qed.

Ltac str_simpl := rewrite ?str_app_cons, ?str_app_nil.
Ltac str_simpl_in H := rewrite ?str_app_cons, ?str_app_nil in H.

Lemma str_app_assoc (a b c : string) : ((a ++ b) ++ c = a ++ (b ++ c))%string.
Proof. induction a as [|x a IH]; str_simpl; [done|]. by rewrite IH. Qed.

Lemma str_app_length (a b : string) :
  String.length (a ++ b) = String.length a + String.length b.
Proof. induction a as [|x a IH]; str_simpl; simpl; [done|]. by rewrite IH. Qed.

Lemma str_drop_length (n : nat) (s : string) :
  String.length (str_drop n s) = String.length s - n.
Proof.
  revert s. induction n as [|n IH]; intros [|c s]; simpl; try done.
Qed.

Lemma str_drop_all (n : nat) (s : string) :
  String.length s ≤ n → str_drop n s = EmptyString.
Proof.
  intros H. pose proof (str_drop_length n s) as Hl.
  destruct (str_drop n s); [done|]. simpl in Hl. lia.
Qed.

Lemma str_drop_add (a b : nat) (s : string) :
  str_drop (a + b) s = str_drop b (str_drop a s).
Proof.
  revert s. induction a as [|a IH]; intros s; simpl; [done|].
  destruct s as [|c s]; [by destruct b|]. apply IH.
Qed.

Lemma str_length_zero (s : string) : String.length s = 0 → s = EmptyString.
Proof. by destruct s. Qed.

(** [s.find(c) = d]: [s] is a dot-free part of [d] characters, [c], and
    [s.substr(d + 1)] *)
Lemma str_find_char_Some (c : ascii) (s : string) (d : nat) :
  str_find_char c s = Some d →
  d < String.length s ∧
  ∃ pre, str_find_char c pre = None ∧
         s = (pre ++ String c (str_drop (d + 1) s))%string.
Proof.
  revert d. induction s as [|x s IH]; intros d H; simpl in H; [done|].
  destruct (Ascii.eqb x c) eqn:E.
  - injection H as <-. apply Ascii.eqb_eq in E as ->. simpl.
    split; [lia|]. by exists EmptyString.
  - destruct (str_find_char c s) as [d'|] eqn:E'; [|done].
    injection H as <-. destruct (IH d' eq_refl) as (Hd & pre & Hpre & Hs).
    split; [simpl; lia|]. exists (String x pre). simpl.
    rewrite E, Hpre. split; [done|]. str_simpl. by rewrite <- Hs.
Qed.

Lemma str_find_char_None (c : ascii) (pre post : string) :
  str_find_char c (pre ++ String c post) ≠ None.
Proof.
  induction pre as [|x pre IH]; str_simpl; simpl.
  - by rewrite Ascii.eqb_refl.
  - destruct (Ascii.eqb x c); [done|].
    by destruct (str_find_char c (pre ++ String c post)).
Qed.

(** two ways of cutting one string at a dot, the first at its first dot *)
Lemma first_dot_split (pre pre' rest s : string) :
  str_find_char "." pre = None →
  (pre ++ "." ++ rest = pre' ++ "." ++ s)%string →
  s = rest ∨ ∃ mid, rest = (mid ++ "." ++ s)%string.
Proof.
  revert pre'. induction pre as [|x pre IH]; intros pre' Hnd Heq.
  - destruct pre' as [|y pre']; str_simpl_in Heq.
    + injection Heq as <-. by left.
    + injection Heq as <- ->. right. by exists pre'.
  - simpl in Hnd. destruct (Ascii.eqb x ".") eqn:E; [done|].
    destruct (str_find_char "." pre) eqn:E'; [done|].
    destruct pre' as [|y pre']; str_simpl_in Heq.
    + injection Heq as -> _. by rewrite Ascii.eqb_refl in E.
    + injection Heq as _ Heq. apply (IH pre'); [done|]. by str_simpl.
Qed.

Lemma label_suffix_length (s t : string) :
  label_suffix s t → String.length s ≤ String.length t.
Proof.
  intros [-> | (pre & ->)]; [done|].
  rewrite !str_app_length. lia.
Qed.

(** the label suffixes of [cur] are [cur] and those of the part after its
    first dot *)
Lemma label_suffix_dot (cur s : string) (d : nat) :
  str_find_char "." cur = Some d →
  label_suffix s cur ↔ s = cur ∨ label_suffix s (str_drop (d + 1) cur).
Proof.
  intros Hd. destruct (str_find_char_Some _ _ _ Hd) as (_ & pre & Hpre & Hcur).
  set (rest := str_drop (d + 1) cur) in *. split.
  - intros [-> | (pre' & Hs)]; [by left|]. right.
    rewrite Hcur in Hs.
    destruct (first_dot_split pre pre' rest s Hpre Hs) as [-> | (mid & Hmid)].
    + by left.
    + right. by exists mid.
  - intros [-> | [-> | (mid & Hmid)]].
    + by left.
    + right. by exists pre.
    + right. exists (pre ++ "." ++ mid)%string.
      rewrite Hcur, Hmid. by rewrite !str_app_assoc.
Qed.

Lemma label_suffix_no_dot (cur s : string) :
  str_find_char "." cur = None → label_suffix s cur ↔ s = cur.
Proof.
  intros Hd. split; [|by left].
  intros [-> | (pre & ->)]; [done|].
  by destruct (str_find_char_None "." pre s).
Qed.

(** ** Names that [Name::decode] returns *)

Lemma join_labels_nonempty (l : string) (labels : list string) :
  l ≠ EmptyString → join_labels (l :: labels) ≠ EmptyString.
Proof.
  intros Hl. destruct labels as [|y r]; cbn [join_labels]; [done|].
  destruct l; [done|]. by str_simpl.
Qed.

Lemma join_labels_snoc (labels : list string) (l : string) :
  Forall (λ l, 1 ≤ String.length l ≤ 63) labels →
  join_labels (labels ++ [l]) =
    ((if bool_decide (join_labels labels = EmptyString) then join_labels labels
      else join_labels labels ++ ".") ++ l)%string.
Proof.
  induction labels as [|x rest IH]; intros Hall.
  - cbn [app join_labels]. rewrite bool_decide_eq_true_2 by done. by str_simpl.
  - apply Forall_cons in Hall as [Hx Hrest].
    assert (x ≠ EmptyString) as Hxne by (intros ->; simpl in Hx; lia).
    rewrite (bool_decide_eq_false_2 _ (join_labels_nonempty x rest Hxne)).
    destruct rest as [|y r].
    + cbn [app join_labels]. by rewrite str_app_assoc.
    + change ((x :: y :: r) ++ [l]) with (x :: (y :: (r ++ [l]))).
      change (join_labels (x :: y :: r ++ [l]))
        with (x ++ "." ++ join_labels ((y :: r) ++ [l]))%string.
      rewrite (IH Hrest).
      apply Forall_cons in Hrest as [Hy _].
      assert (y ≠ EmptyString) as Hyne by (intros ->; simpl in Hy; lia).
      rewrite (bool_decide_eq_false_2 _ (join_labels_nonempty y r Hyne)).
      change (join_labels (x :: y :: r))
        with (x ++ "." ++ join_labels (y :: r))%string.
      by rewrite !str_app_assoc.
Qed.

Lemma decode_loop_name_inv (data : list byte) (fuel : nat) (st : dstate)
    (name : string) (off : nat) :
  name_inv (d_name st) →
  decode_loop fuel data st = Ret (name, off) → name_inv name.
Proof.
  revert st. induction fuel as [|fuel IH]; intros st Hinv Hrun; [done|].
  cbn [decode_loop] in Hrun.
  pose proof (decode_step_spec data st) as Hs.
  destruct (decode_step data st) as [[st'|[name' off']]| | |];
    cbn [mbind exec_bind] in Hrun; try done.
  - apply (IH st'); [|done].
    destruct Hs as [(_ & _ & _ & -> & _) | (label & Hl & _ & _ & _ & _ & _ & Hn & Hlen)];
      [done|].
    split; [done|]. destruct Hinv as (_ & labels & Hjoin & Hall).
    exists (labels ++ [string_of_bytes label]). split.
    + rewrite Hn, Hjoin. by rewrite join_labels_snoc.
    + apply Forall_app. split; [done|]. apply Forall_singleton.
      by rewrite string_of_bytes_length.
  - injection Hrun as <- <-. cbn [decode_step_post] in Hs. by rewrite Hs.
Qed.

(** What does hold of every name that [Name::decode] returns: its dotted
    text has at most 255 characters and is made of the wire labels, each of
    1 to 63 bytes. *)
Lemma Name_decode_name_inv (data : list byte) (offset : nat) (name : string)
    (off : nat) :
  Name_decode data offset = Ret (name, off) → name_inv name.
Proof.
  apply decode_loop_name_inv. split; [simpl; lia|].
  exists []. by split.
Qed.

(** A wire label may hold the byte of the dot: the label [2E] decodes to the
    name ["."], in which [Name::encode] finds an empty label. *)
Example Name_decode_dot_in_label :
  Name_decode [x01; x2e; x00] 0 = Ret ("."%string, 3) ∧
  Name_encode "." None 0 = Unexpected ENCODE_LABEL_TOO_LONG.
Proof. split; vm_compute; reflexivity. Qed.

(** ** Listener::search *)

Lemma search_loop_spec (blocklist : gset string) (fuel : nat) (current : string) :
  String.length current < fuel →
  ∃ b : bool,
    search_loop fuel blocklist current = Ret b ∧
    (b = true ↔ ∃ s, label_suffix s current ∧ s ∈ blocklist).
Proof.
  revert current. induction fuel as [|fuel IH]; intros current Hlen; [lia|].
  cbn [search_loop]. case_bool_decide as Hin.
  { exists true. split; [done|]. split; [|done].
    intros _. exists current. split; [by left|done]. }
  destruct (str_find_char "." current) as [dot|] eqn:Hdot.
  - destruct (str_find_char_Some _ _ _ Hdot) as (Hd & _).
    destruct (IH (str_drop (dot + 1) current)) as (b & Hb & Hiff).
    { rewrite str_drop_length. lia. }
    exists b. split; [done|]. rewrite Hiff. split.
    + intros (s & Hs & HsD). exists s. split; [|done].
      apply (label_suffix_dot _ _ _ Hdot). by right.
    + intros (s & Hs & HsD). exists s. split; [|done].
      apply (label_suffix_dot _ _ _ Hdot) in Hs as [-> | Hs]; done.
  - exists false. split; [done|]. split; [done|].
    intros (s & Hs & HsD).
    apply (label_suffix_no_dot _ _ Hdot) in Hs as ->. done.
Qed.

(** C7. For every denied set (empty or not) and every name, [search] comes
    back, and with [true] exactly when the normalised name or the part of
    it after one of its dots is in the set. *)
Theorem search_iff_label_suffix (blocklist : gset string) (domain : string) :
  ∃ b : bool,
    search blocklist domain = Ret b ∧
    (b = true ↔ ∃ s, label_suffix s (normalize domain) ∧ s ∈ blocklist).
Proof.
  unfold search. cbv zeta. apply search_loop_spec. lia.
Qed.

(** ** Name::encode *)

(** what the label part of a round of [Name::encode] does when it does not
    fail: the terminating zero at the end of the name, or one label and a
    cursor moved past it *)
Lemma encode_label_cases (name : string) (buf : list byte) (pos : nat)
    (table : option (gmap string Z))
    (r : flow estate (list byte * option (gmap string Z))) :
  encode_label name buf pos table = Ret r →
  (String.length name ≤ pos ∧ r = Break (buf ++ [x00], table) ∧
   length buf < 255)
  ∨
  (pos < String.length name ∧
   ∃ buf' pos',
     r = Continue (mk_estate buf' pos' table) ∧
     pos < pos' ≤ String.length name ∧
     ((str_find_char "." (str_drop pos name) = None ∧
       pos' = String.length name)
      ∨ (∃ i, str_find_char "." (str_drop pos name) = Some i ∧
              pos' = pos + (i + 1)))).
Proof.
  unfold encode_label. cbv zeta.
  unfold Limits.MAX_NAME_LEN, Limits.MAX_LABEL_LEN.
  case_bool_decide as Hend.
  - case_bool_decide as Hlen; [done|]. intros [= <-]. left.
    rewrite length_app in Hlen. simpl in Hlen. repeat split; [done|lia].
  - unfold str_find_char_from.
    destruct (str_find_char "." (str_drop pos name)) as [i|] eqn:Hdot;
      cbn [fmap option_fmap option_map default].
    + destruct (str_find_char_Some _ _ _ Hdot) as (Hi & _).
      rewrite str_drop_length in Hi.
      case_bool_decide as Hzero; [done|].
      case_bool_decide as Hlong; [done|].
      cbn [orb]. intros [= <-]. right. split; [lia|].
      eexists _, _. split; [done|]. split; [lia|].
      right. exists i. split; [done|lia].
    + case_bool_decide as Hzero; [done|].
      case_bool_decide as Hlong; [done|].
      cbn [orb]. intros [= <-]. right. split; [lia|].
      eexists _, _. split; [done|]. split; [lia|]. by left.
Qed.

(** Encoding with a table in which every key is longer than what remains of
    the name: no lookup hits, the name ends with its own zero byte, and the
    table maps the empty suffix to the offset of that byte. *)
Lemma encode_loop_fresh (name : string) (baseOffset : Z) (fuel : nat)
    (st : estate) (t : gmap string Z)
    (buf : list byte) (tbl : option (gmap string Z)) :
  e_table st = Some t →
  (∀ k, is_Some (t !! k) →
        String.length (str_drop (e_pos st) name) < String.length k) →
  encode_loop fuel name baseOffset st = Ret (buf, tbl) →
  ∃ body t',
    buf = body ++ [x00] ∧ length body < 255 ∧ tbl = Some t' ∧
    t' !! EmptyString = Some (u16 (baseOffset + Z.of_nat (length body))).
Proof.
  revert st t. induction fuel as [|fuel IH]; intros st t Ht Hkeys Hrun; [done|].
  cbn [encode_loop] in Hrun. unfold encode_step in Hrun. cbv zeta in Hrun.
  rewrite Ht in Hrun.
  destruct (t !! str_drop (e_pos st) name) as [ptr|] eqn:Hhit.
  { specialize (Hkeys (str_drop (e_pos st) name)). rewrite Hhit in Hkeys.
    specialize (Hkeys (mk_is_Some _ _ eq_refl)). lia. }
  destruct (encode_label name (e_buf st) (e_pos st) _) as [r| | |] eqn:Hlab;
    cbn [mbind exec_bind] in Hrun; try done.
  apply encode_label_cases in Hlab
    as [(Hend & -> & Hlen) | (Hpos & buf' & pos' & -> & Hpos' & _)].
  - injection Hrun as <- <-. eexists _, _. repeat split; try done.
    rewrite (str_drop_all _ _ Hend). apply lookup_insert_eq.
  - refine (IH _ _ _ _ Hrun); [reflexivity|].
    cbn [e_pos]. intros k Hk. rewrite str_drop_length.
    apply lookup_insert_is_Some in Hk as [<- | [_ Hk]].
    + rewrite str_drop_length. lia.
    + specialize (Hkeys k Hk). rewrite str_drop_length in Hkeys. lia.
Qed.

(** Encoding with a table that already holds the empty suffix: the name
    never ends with a zero byte of its own but with a pointer, the entry of
    the empty suffix stays, and when no non-empty label suffix of what
    remains is in the table the pointer is the one stored for the empty
    suffix. *)
Lemma encode_loop_shared (name : string) (baseOffset z : Z) (fuel : nat)
    (st : estate) (t : gmap string Z)
    (buf : list byte) (tbl : option (gmap string Z)) :
  e_table st = Some t →
  t !! EmptyString = Some z →
  encode_loop fuel name baseOffset st = Ret (buf, tbl) →
  ∃ body ptr t',
    buf = body ++ pointer_bytes ptr ∧ tbl = Some t' ∧
    t' !! EmptyString = Some z ∧
    ((∀ s, s ≠ EmptyString → label_suffix s (str_drop (e_pos st) name) →
           t !! s = None) → ptr = z).
Proof.
  revert st t. induction fuel as [|fuel IH]; intros st t Ht Hz Hrun; [done|].
  cbn [encode_loop] in Hrun. unfold encode_step in Hrun. cbv zeta in Hrun.
  rewrite Ht in Hrun.
  set (rem := str_drop (e_pos st) name) in *.
  destruct (t !! rem) as [ptr|] eqn:Hhit.
  { cbn [mbind exec_bind] in Hrun. injection Hrun as <- <-.
    exists (e_buf st), ptr, t. repeat split; try done.
    intros Hfree. destruct (decide (rem = EmptyString)) as [E|E].
    - rewrite E in Hhit. congruence.
    - rewrite (Hfree rem E) in Hhit; [done|by left]. }
  assert (rem ≠ EmptyString) as Hrem by (intros E; rewrite E in Hhit; congruence).
  destruct (encode_label name (e_buf st) (e_pos st) _) as [r| | |] eqn:Hlab;
    cbn [mbind exec_bind] in Hrun; try done.
  apply encode_label_cases in Hlab
    as [(Hend & _) | (Hpos & buf' & pos' & -> & Hpos' & Hnext)].
  { subst rem. by rewrite (str_drop_all _ _ Hend) in Hrem. }
  assert (∃ body ptr t',
            buf = body ++ pointer_bytes ptr ∧ tbl = Some t' ∧
            t' !! EmptyString = Some z ∧
            ((∀ s, s ≠ EmptyString → label_suffix s (str_drop pos' name) →
                   <[rem := u16 (baseOffset + Z.of_nat (length (e_buf st)))]> t
                     !! s = None) → ptr = z))
    as (body & ptr & t' & Hbuf & Htbl & Hz' & Hptr).
  { refine (IH _ _ _ _ Hrun); [reflexivity|].
    by rewrite lookup_insert_ne. }
  exists body, ptr, t'. repeat split; try done.
  intros Hfree. apply Hptr. intros s Hs Hsuf.
  assert (String.length (str_drop pos' name) < String.length rem) as Hshort.
  { subst rem. rewrite !str_drop_length. lia. }
  rewrite lookup_insert_ne.
  2: { intros <-. apply label_suffix_length in Hsuf. lia. }
  apply Hfree; [done|].
  destruct Hnext as [(Hnodot & ->) | (i & Hdot & ->)].
  - rewrite str_drop_all in Hsuf by done.
    apply label_suffix_length in Hsuf. simpl in Hsuf.
    destruct Hs. apply str_length_zero. lia.
  - rewrite str_drop_add in Hsuf.
    apply (label_suffix_dot _ _ _ Hdot). by right.
Qed.

Lemma pointer_bytes_target (z : Z) :
  (0 ≤ z < 0x4000)%Z →
  ∃ b0 b1, pointer_bytes z = [b0; b1] ∧
           Z.land (b2z b0) 0xC0 = 0xC0%Z ∧ pointer_target b0 b1 = z.
Proof.
  intros Hz. eexists _, _. split; [reflexivity|].
  pose (hi := λ z : Z, Z.lor 0xC0 (Z.land (Z.shiftr z 8) 0x3F)).
  pose (lo := λ z : Z, Z.land z 0xFF).
  pose (P := λ z : Z,
    (0 <=? hi z)%Z && (hi z <? 256)%Z && (0 <=? lo z)%Z && (lo z <? 256)%Z &&
    (Z.land (hi z) 0xC0 =? 0xC0)%Z &&
    (Z.lor (Z.shiftl (Z.land (hi z) 0x3F) 8) (lo z) =? z)%Z).
  assert (P z = true) as HP.
  { apply (forall_below P 14); [by vm_compute|done]. }
  unfold P in HP. rewrite !andb_true_iff in HP.
  destruct HP as [[[[[H1 H2] H3] H4] H5] H6].
  apply Z.leb_le in H1. apply Z.ltb_lt in H2. apply Z.leb_le in H3.
  apply Z.ltb_lt in H4. apply Z.eqb_eq in H5. apply Z.eqb_eq in H6.
  unfold pointer_target. fold (hi z) (lo z).
  rewrite !b2z_z2b by done. done.
Qed.

Lemma label_suffix_trans (a b c : string) :
  label_suffix a b → label_suffix b c → label_suffix a c.
Proof.
  intros [-> | (p & ->)]; [done|]. intros [<- | (q & ->)].
  - right. by exists p.
  - right. exists (q ++ "." ++ p)%string. by rewrite !str_app_assoc.
Qed.

(** the keys that a run of the loop of [Name::encode] adds to the table are
    label suffixes of the name, or the empty suffix *)
Lemma encode_loop_keys (name : string) (baseOffset : Z) (fuel : nat)
    (st : estate) (t : gmap string Z)
    (buf : list byte) (tbl : option (gmap string Z)) :
  e_table st = Some t →
  label_suffix (str_drop (e_pos st) name) name ∨ String.length name ≤ e_pos st →
  encode_loop fuel name baseOffset st = Ret (buf, tbl) →
  ∃ t', tbl = Some t' ∧
        ∀ k, is_Some (t' !! k) →
             is_Some (t !! k) ∨ k = EmptyString ∨ label_suffix k name.
Proof.
  revert st t. induction fuel as [|fuel IH]; intros st t Ht Hpos Hrun; [done|].
  cbn [encode_loop] in Hrun. unfold encode_step in Hrun. cbv zeta in Hrun.
  rewrite Ht in Hrun.
  destruct (t !! str_drop (e_pos st) name) as [ptr|] eqn:Hhit.
  { cbn [mbind exec_bind] in Hrun. injection Hrun as <- <-. exists t.
    split; [done|]. by left. }
  destruct (encode_label name (e_buf st) (e_pos st) _) as [r| | |] eqn:Hlab;
    cbn [mbind exec_bind] in Hrun; try done.
  apply encode_label_cases in Hlab
    as [(Hend & -> & Hlen) | (Hlt & buf' & pos' & -> & Hpos' & Hdot)].
  - injection Hrun as <- <-. eexists. split; [done|].
    intros k [<- | [_ Hk]]%lookup_insert_is_Some.
    + right. left. by apply str_drop_all.
    + by left.
  - destruct Hpos as [Hsuf | Hge]; [|lia].
    edestruct IH as (t' & -> & Hkeys); [|shelve|exact Hrun|]; [reflexivity|].
    exists t'. split; [done|]. intros k Hk.
    destruct (Hkeys k Hk) as [[<- | [_ Hk']]%lookup_insert_is_Some | Hk'].
    + right. by right.
    + by left.
    + by right.
    Unshelve.
    cbn [e_pos]. destruct Hdot as [[_ ->] | (i & Hi & ->)]; [by right|].
    left. rewrite str_drop_add.
    eapply label_suffix_trans; [|exact Hsuf].
    apply (label_suffix_dot _ _ i Hi). right. by left.
Qed.

Lemma table_inv_mono (z : Z) (names names' : list string) (t : gmap string Z) :
  names ⊆ names' → table_inv z names t → table_inv z names' t.
Proof.
  intros Hsub [Hz Hkeys]. split; [done|]. intros k Hk.
  destruct (Hkeys k Hk) as [-> | (n & Hn & Hs)]; [by left|].
  right. exists n. split; [by apply Hsub|done].
Qed.

(** the first name of a call: a literal zero byte, whose offset the table
    keeps for the empty suffix *)
Lemma Name_encode_first (name : string) (baseOffset : Z)
    (buf : list byte) (tbl : option (gmap string Z)) :
  Name_encode name (Some ∅) baseOffset = Ret (buf, tbl) →
  ∃ body t,
    buf = body ++ [x00] ∧ length body < 255 ∧ tbl = Some t ∧
    table_inv (u16 (baseOffset + Z.of_nat (length body))) [name] t.
Proof.
  intros Hrun. unfold Name_encode in Hrun.
  destruct (encode_loop_fresh name baseOffset (String.length name + 2)
              (mk_estate [] 0 (Some ∅)) ∅ buf tbl eq_refl)
    as (body & t & -> & Hlen & -> & Hz); [|exact Hrun|].
  { intros k [v Hk]. by rewrite lookup_empty in Hk. }
  destruct (encode_loop_keys name baseOffset (String.length name + 2)
              (mk_estate [] 0 (Some ∅)) ∅ _ _ eq_refl
              (or_introl (or_introl eq_refl)) Hrun)
    as (t' & Heq & Hkeys).
  injection Heq as <-.
  exists body, t. repeat split; try done.
  intros k Hk. destruct (Hkeys k Hk) as [[v Hv] | [-> | Hs]].
  - by rewrite lookup_empty in Hv.
  - by left.
  - right. exists name. split; [by left|done].
Qed.

(** a later name of the call: a pointer at its end, which is the one to the
    first zero byte unless a longer suffix is shared with an earlier name *)
Lemma Name_encode_later (name : string) (baseOffset z : Z)
    (names : list string) (t : gmap string Z)
    (buf : list byte) (tbl : option (gmap string Z)) :
  table_inv z names t →
  Name_encode name (Some t) baseOffset = Ret (buf, tbl) →
  ∃ body ptr t',
    buf = body ++ pointer_bytes ptr ∧ tbl = Some t' ∧
    table_inv z (names ++ [name]) t' ∧
    ((∀ s, s ≠ EmptyString → label_suffix s name →
           ∀ n, n ∈ names → ¬ label_suffix s n) → ptr = z).
Proof.
  intros [Hz Hkeys] Hrun. unfold Name_encode in Hrun.
  destruct (encode_loop_shared name baseOffset z (String.length name + 2)
              (mk_estate [] 0 (Some t)) t buf tbl eq_refl Hz Hrun)
    as (body & ptr & t' & -> & -> & Hz' & Hptr).
  destruct (encode_loop_keys name baseOffset (String.length name + 2)
              (mk_estate [] 0 (Some t)) t _ _ eq_refl
              (or_introl (or_introl eq_refl)) Hrun)
    as (t'' & Heq & Hkeys').
  injection Heq as <-.
  exists body, ptr, t'. repeat split; try done.
  - intros k Hk. destruct (Hkeys' k Hk) as [Hk' | [-> | Hs]].
    + destruct (Hkeys k Hk') as [-> | (n & Hn & Hs)]; [by left|].
      right. exists n. split; [|done]. apply elem_of_app. by left.
    + by left.
    + right. exists name. split; [|done]. apply elem_of_app. right. by left.
  - intros Hfree. apply Hptr. intros s Hne Hs.
    destruct (t !! s) as [v|] eqn:Hv; [|done]. exfalso.
    destruct (Hkeys s (mk_is_Some _ _ Hv)) as [-> | (n & Hn & Hsn)]; [done|].
    by apply (Hfree s Hne Hs n Hn).
Qed.

Lemma item_encode_name (it : Question + ResourceRecord)
    (table : option (gmap string Z)) (baseOffset : Z) :
  item_encode it table baseOffset
  = '(bytes, table') ← Name_encode (item_name it) table baseOffset;
    Ret (bytes ++ item_fields it, table').
Proof. by destruct it. Qed.

Lemma encode_section_prefix {T : Type}
    (enc : T → option (gmap string Z) → Z
           → exec (list byte * option (gmap string Z)))
    (items : list T) (buf : list byte) (table : option (gmap string Z))
    (out : list byte) (table' : option (gmap string Z)) :
  encode_section enc items buf table = Ret (out, table') →
  ∃ more, out = buf ++ more.
Proof.
  revert buf table. induction items as [|x items IH]; intros buf table H;
    cbn [encode_section] in H.
  - injection H as <- _. exists []. by rewrite app_nil_r.
  - destruct (enc x table _) as [[bytes tb]| | |]; cbn [mbind exec_bind] in H;
      try done.
    destruct (IH _ _ H) as (more & ->). exists (bytes ++ more).
    by rewrite app_assoc.
Qed.

Lemma encode_section_app {T : Type}
    (enc : T → option (gmap string Z) → Z
           → exec (list byte * option (gmap string Z)))
    (xs ys : list T) (buf : list byte) (table : option (gmap string Z)) :
  encode_section enc (xs ++ ys) buf table
  = '(buf', table') ← encode_section enc xs buf table;
    encode_section enc ys buf' table'.
Proof.
  revert buf table. induction xs as [|x xs IH]; intros buf table; [done|].
  cbn [app encode_section].
  destruct (enc x table _) as [[bytes tb]| | |]; cbn [mbind exec_bind];
    try done.
  all: apply IH.
Qed.

Lemma encode_section_fmap {T U : Type} (f : T → U)
    (enc : U → option (gmap string Z) → Z
           → exec (list byte * option (gmap string Z)))
    (xs : list T) (buf : list byte) (table : option (gmap string Z)) :
  encode_section enc (f <$> xs) buf table
  = encode_section (λ x, enc (f x)) xs buf table.
Proof.
  revert buf table. induction xs as [|x xs IH]; intros buf table; [done|].
  cbn [fmap list_fmap encode_section].
  destruct (enc (f x) table _) as [[bytes tb]| | |]; cbn [mbind exec_bind];
    try done.
  all: apply IH.
Qed.

(** the four loops of [MessageParser::encode] are one loop over the
    message's questions and records *)
Lemma MessageParser_encode_emitted (msg : Message) (out : list byte) :
  MessageParser_encode msg = Ret out →
  ∃ hdr table,
    length hdr = 12 ∧
    encode_section item_encode (emitted msg) hdr (Some ∅) = Ret (out, table).
Proof.
  unfold MessageParser_encode, emitted. cbv zeta.
  set (hdr := Header_encode _). intros H. exists hdr.
  change (λ x, item_encode (inl x)) with Question_encode.
  rewrite encode_section_app, encode_section_fmap.
  change (λ x, item_encode (inl x)) with Question_encode.
  destruct (encode_section Question_encode _ _ _) as [[b1 t1]| | |];
    cbn [mbind exec_bind] in *; try done.
  rewrite encode_section_app, encode_section_fmap.
  change (λ x, item_encode (inr x)) with ResourceRecord_encode.
  destruct (encode_section ResourceRecord_encode (answers_ msg) _ _)
    as [[b2 t2]| | |]; cbn [mbind exec_bind] in *; try done.
  rewrite encode_section_app, encode_section_fmap.
  change (λ x, item_encode (inr x)) with ResourceRecord_encode.
  destruct (encode_section ResourceRecord_encode (authority_ msg) _ _)
    as [[b3 t3]| | |]; cbn [mbind exec_bind] in *; try done.
  rewrite encode_section_fmap.
  change (λ x, item_encode (inr x)) with ResourceRecord_encode.
  destruct (encode_section ResourceRecord_encode (additional_ msg) _ _)
    as [[b4 t4]| | |]; cbn [mbind exec_bind] in *; try done.
  case_bool_decide; [done|]. injection H as <-. exists t4. done.
Qed.

(** every name after the first, in one run over the questions and records *)
Lemma encode_section_later (z : Z) (before : list (Question + ResourceRecord)) :
  ∀ (names : list string) (t : gmap string Z) (buf : list byte)
    (it : Question + ResourceRecord) (after : list (Question + ResourceRecord))
    (out : list byte) (tbl : option (gmap string Z)),
    table_inv z names t →
    encode_section item_encode (before ++ it :: after) buf (Some t)
      = Ret (out, tbl) →
    ∃ pre t1 nbody ptr tbl' post,
      encode_section item_encode before buf (Some t) = Ret (pre, Some t1) ∧
      Name_encode (item_name it) (Some t1) (u16 (Z.of_nat (length pre)))
        = Ret (nbody ++ pointer_bytes ptr, tbl') ∧
      out = pre ++ nbody ++ pointer_bytes ptr ++ item_fields it ++ post ∧
      ((∀ s, s ≠ EmptyString → label_suffix s (item_name it) →
             ∀ n, n ∈ names ++ (item_name <$> before) → ¬ label_suffix s n) →
       ptr = z).
Proof.
  induction before as [|b before IH];
    intros names t buf it after out tbl Hinv Hrun.
  - cbn [app encode_section] in Hrun. rewrite item_encode_name in Hrun.
    destruct (Name_encode (item_name it) (Some t) _) as [[nb t']| | |] eqn:Hn;
      cbn [mbind exec_bind] in Hrun; try done.
    destruct (Name_encode_later _ _ _ _ _ _ _ Hinv Hn)
      as (body & ptr & t2 & -> & -> & _ & Hptr).
    destruct (encode_section_prefix _ _ _ _ _ _ Hrun) as (post & ->).
    exists buf, t, body, ptr, (Some t2), post. split; [done|]. split; [done|].
    split; [by rewrite <- !app_assoc|].
    cbn [fmap list_fmap]. rewrite app_nil_r. exact Hptr.
  - cbn [app encode_section] in Hrun. rewrite item_encode_name in Hrun.
    destruct (Name_encode (item_name b) (Some t) _) as [[nb t']| | |] eqn:Hn;
      cbn [mbind exec_bind] in Hrun; try done.
    destruct (Name_encode_later _ _ _ _ _ _ _ Hinv Hn)
      as (body & ptr & t2 & -> & -> & Hinv' & _).
    destruct (IH _ _ _ _ _ _ _ Hinv' Hrun)
      as (pre & t1 & nbody & ptr' & tbl' & post & Hpre & Hname & -> & Hptr).
    exists pre, t1, nbody, ptr', tbl', post. split.
    { cbn [encode_section]. rewrite item_encode_name, Hn.
      cbn [mbind exec_bind]. exact Hpre. }
    split; [done|]. split; [done|].
    intros Hfree. apply Hptr. intros s Hne Hs n Hin.
    apply (Hfree s Hne Hs n). cbn [fmap list_fmap].
    rewrite <- app_assoc in Hin. exact Hin.
Qed.

(** the first name and the later names of one [MessageParser::encode] call *)
Lemma MessageParser_encode_shares_terminator (msg : Message) (out : list byte)
    (first : Question + ResourceRecord)
    (others : list (Question + ResourceRecord)) :
  MessageParser_encode msg = Ret out →
  emitted msg = first :: others →
  ∃ hdr body,
    length hdr = 12 ∧ length body < 255 ∧
    (∃ tbl, Name_encode (item_name first) (Some ∅) 12
            = Ret (body ++ [x00], tbl)) ∧
    (∃ post, out = hdr ++ body ++ [x00] ++ item_fields first ++ post) ∧
    ∀ before it after, others = before ++ it :: after →
      ∃ pre tbl nbody ptr tbl' post,
        encode_section item_encode (first :: before) hdr (Some ∅)
          = Ret (pre, tbl) ∧
        Name_encode (item_name it) tbl (u16 (Z.of_nat (length pre)))
          = Ret (nbody ++ pointer_bytes ptr, tbl') ∧
        out = pre ++ nbody ++ pointer_bytes ptr ++ item_fields it ++ post ∧
        ((∀ s, s ≠ EmptyString → label_suffix s (item_name it) →
               ∀ it', it' ∈ first :: before →
                      ¬ label_suffix s (item_name it')) →
         ptr = Z.of_nat (12 + length body)).
Proof.
  intros Henc Hitems.
  destruct (MessageParser_encode_emitted msg out Henc) as (hdr & table & Hhdr & Hrun).
  rewrite Hitems in Hrun. cbn [encode_section] in Hrun.
  rewrite item_encode_name, Hhdr in Hrun.
  destruct (Name_encode (item_name first) (Some ∅) _) as [[nb t']| | |] eqn:Hn;
    cbn [mbind exec_bind] in Hrun; try done.
  destruct (Name_encode_first _ _ _ _ Hn) as (body & t & -> & Hlen & -> & Hinv).
  assert (u16 (u16 (Z.of_nat 12) + Z.of_nat (length body))
          = Z.of_nat (12 + length body)) as Hz.
  { assert (u16 (Z.of_nat 12) = 12%Z) as -> by reflexivity.
    unfold u16. rewrite Z.mod_small by lia. lia. }
  rewrite Hz in Hinv.
  exists hdr, body. split; [done|]. split; [done|]. split.
  { exists (Some t). reflexivity. }
  split.
  { destruct (encode_section_prefix _ _ _ _ _ _ Hrun) as (post & ->).
    exists post. by rewrite <- !app_assoc. }
  intros before it after ->.
  destruct (encode_section_later _ _ _ _ _ _ _ _ _ Hinv Hrun)
    as (pre & t1 & nbody & ptr & tbl' & post & Hpre & Hname & -> & Hptr).
  exists pre, (Some t1), nbody, ptr, tbl', post. split.
  { cbn [encode_section]. rewrite item_encode_name, Hhdr, Hn.
    cbn [mbind exec_bind]. exact Hpre. }
  split; [done|]. split; [done|].
  intros Hfree. apply Hptr. intros s Hne Hs n Hin.
  change (n ∈ item_name <$> (first :: before)) in Hin.
  apply list_elem_of_fmap in Hin as (it' & -> & Hin).
  by apply (Hfree s Hne Hs it').
Qed.

(** C9. With a compression table [Name::encode] registers the empty suffix
    like any other. Started on the empty table of a
    [MessageParser::encode] call, a name ends with a literal zero byte
    whose offset the table then holds for the empty suffix. Every later
    name, encoded with a table that holds that entry, ends with a two-byte
    pointer and no zero byte of its own, leaves the entry as it is, and,
    when none of its non-empty label suffixes is in the table, the pointer
    is the one to that first zero byte. In one [MessageParser::encode]
    call: the first name written ends with a zero byte, at offset
    [12 + length body] of the output; the name of every later question or
    record is written by [Name::encode], with the table as the earlier ones
    left it, as labels and a pointer, and the pointer is the one to that
    zero byte unless a non-empty label suffix of the name is a label suffix
    of a name written before. *)
Theorem Name_encode_shares_terminator :
  (∀ name baseOffset buf tbl,
     Name_encode name (Some ∅) baseOffset = Ret (buf, tbl) →
     ∃ body t,
       buf = body ++ [x00] ∧ length body < 255 ∧ tbl = Some t ∧
       t !! EmptyString = Some (u16 (baseOffset + Z.of_nat (length body)))) ∧
  (∀ (t : gmap string Z) z name baseOffset buf tbl,
     t !! EmptyString = Some z →
     Name_encode name (Some t) baseOffset = Ret (buf, tbl) →
     ∃ body ptr t',
       buf = body ++ pointer_bytes ptr ∧ tbl = Some t' ∧
       t' !! EmptyString = Some z ∧
       ((∀ s, s ≠ EmptyString → label_suffix s name → t !! s = None) →
        ptr = z)) ∧
  (∀ z, (0 ≤ z < 0x4000)%Z →
     ∃ b0 b1, pointer_bytes z = [b0; b1] ∧
              Z.land (b2z b0) 0xC0 = 0xC0%Z ∧ pointer_target b0 b1 = z) ∧
  (∀ msg out first others,
     MessageParser_encode msg = Ret out →
     emitted msg = first :: others →
     ∃ hdr body,
       length hdr = 12 ∧ length body < 255 ∧
       (∃ tbl, Name_encode (item_name first) (Some ∅) 12
               = Ret (body ++ [x00], tbl)) ∧
       (∃ post, out = hdr ++ body ++ [x00] ++ item_fields first ++ post) ∧
       ∀ before it after, others = before ++ it :: after →
         ∃ pre tbl nbody ptr tbl' post,
           encode_section item_encode (first :: before) hdr (Some ∅)
             = Ret (pre, tbl) ∧
           Name_encode (item_name it) tbl (u16 (Z.of_nat (length pre)))
             = Ret (nbody ++ pointer_bytes ptr, tbl') ∧
           out = pre ++ nbody ++ pointer_bytes ptr ++ item_fields it ++ post ∧
           ((∀ s, s ≠ EmptyString → label_suffix s (item_name it) →
                  ∀ it', it' ∈ first :: before →
                         ¬ label_suffix s (item_name it')) →
            ptr = Z.of_nat (12 + length body))).
Proof.
  split; [|split; [|split]].
  - intros name baseOffset buf tbl Hrun.
    refine (encode_loop_fresh name baseOffset _ _ ∅ buf tbl _ _ Hrun);
      [reflexivity|].
    intros k [v Hk]. by rewrite lookup_empty in Hk.
  - intros t z name baseOffset buf tbl Hz Hrun.
    refine (encode_loop_shared name baseOffset z _ _ t buf tbl _ Hz Hrun).
    reflexivity.
  - apply pointer_bytes_target.
  - apply MessageParser_encode_shares_terminator.
Qed.

Lemma Name_encode_shares_terminator_witness :
  (∃ body t,
     [x01; x61; x03; x63; x6f; x6d; x00] = body ++ [x00] ∧
     length body < 255 ∧ Some table_after_a_com = Some t ∧
     t !! EmptyString = Some (u16 (12 + Z.of_nat (length body)))) ∧
  (∃ body ptr t',
     [x01; x62; x03; x6f; x72; x67; xc0; x12] = body ++ pointer_bytes ptr ∧
     Some table_after_b_org = Some t' ∧
     t' !! EmptyString = Some 18%Z ∧
     ((∀ s, s ≠ EmptyString → label_suffix s "b.org" →
            table_after_a_com !! s = None) → ptr = 18%Z)) ∧
  (∃ hdr body,
     length hdr = 12 ∧ length body < 255 ∧
     (∃ tbl, Name_encode (item_name (inl (mk_Question "a.com" 1 1))) (Some ∅) 12
             = Ret (body ++ [x00], tbl)) ∧
     (∃ post,
        two_names_wire
        = hdr ++ body ++ [x00]
          ++ item_fields (inl (mk_Question "a.com" 1 1)) ++ post) ∧
     ∀ before it after,
       [inr (mk_ResourceRecord "b.org" 1 1 0 0 [x01; x02; x03; x04])]
       = before ++ it :: after →
       ∃ pre tbl nbody ptr tbl' post,
         encode_section item_encode
           (inl (mk_Question "a.com" 1 1) :: before) hdr (Some ∅)
           = Ret (pre, tbl) ∧
         Name_encode (item_name it) tbl (u16 (Z.of_nat (length pre)))
           = Ret (nbody ++ pointer_bytes ptr, tbl') ∧
         two_names_wire
         = pre ++ nbody ++ pointer_bytes ptr ++ item_fields it ++ post ∧
         ((∀ s, s ≠ EmptyString → label_suffix s (item_name it) →
                ∀ it', it' ∈ inl (mk_Question "a.com" 1 1) :: before →
                       ¬ label_suffix s (item_name it')) →
          ptr = Z.of_nat (12 + length body))).
Proof.
  split; [|split].
  3: { apply (proj2 (proj2 (proj2 Name_encode_shares_terminator))
                two_names_message).
       - vm_compute. reflexivity.
       - reflexivity. }
  - apply (proj1 Name_encode_shares_terminator "a.com" 12%Z).
    vm_compute. reflexivity.
  - apply (proj1 (proj2 Name_encode_shares_terminator)
             table_after_a_com 18%Z "b.org" 23%Z).
    + vm_compute. reflexivity.
    + vm_compute. reflexivity.
Defined.

(** In one [MessageParser::encode] call: the question name [a.com] ends
    with the zero byte at offset 18, and the owner name [b.org] of the
    answer ends with the pointer [C0 12] to it. *)
Example two_names_encoded :
  MessageParser_encode two_names_message =
  Ret [x00; x07; x80; x00; x00; x01; x00; x01; x00; x00; x00; x00;
       x01; x61; x03; x63; x6f; x6d; x00; x00; x01; x00; x01;
       x01; x62; x03; x6f; x72; x67; xc0; x12; x00; x01; x00; x01;
       x00; x00; x00; x00; x00; x04; x01; x02; x03; x04].
Proof. vm_compute. reflexivity. Qed.

(** ** Listener::handleQuery *)

(** what the synthesis of a blocked response does to the header and to the
    sections: QR and RA are set, the header counts of the authority and
    additional sections are zeroed, and nothing else of the header flags,
    nor the two section vectors, is touched *)
Lemma blocked_response_fields (msg : Message) (q : Question) :
  let h := header_ msg in
  let msg' := blocked_response msg q in
  let h' := header_ msg' in
  qr_ h' = true ∧ ra_ h' = true ∧ id_ h' = id_ h ∧ rd_ h' = rd_ h ∧
  aa_ h' = aa_ h ∧ rcode_ h' = rcode_ h ∧
  nscount_ h' = 0%Z ∧ arcount_ h' = 0%Z ∧
  authority_ msg' = authority_ msg ∧ additional_ msg' = additional_ msg.
Proof.
  unfold blocked_response. cbv zeta. by case_bool_decide.
Qed.

(** the counts [MessageParser::encode] writes are the lengths of the
    sections, whatever the header of the message says *)
Lemma MessageParser_encode_counts (msg : Message) (out : list byte) :
  MessageParser_encode msg = Ret out →
  (Z.of_nat (length (authority_ msg)) < 65536)%Z →
  (Z.of_nat (length (additional_ msg)) < 65536)%Z →
  word_at out 8 = Z.of_nat (length (authority_ msg)) ∧
  word_at out 10 = Z.of_nat (length (additional_ msg)).
Proof.
  unfold MessageParser_encode. cbv zeta.
  set (hdr := setCounts _ _ _ _ _).
  assert (∀ T enc (items : list T) buf table buf' table',
            encode_section enc items buf table = Ret (buf', table') →
            ∃ more, buf' = buf ++ more) as Hsec.
  { intros T enc items. induction items as [|x items IH];
      intros buf table buf' table' H; cbn [encode_section] in H.
    - injection H as <- _. exists []. by rewrite app_nil_r.
    - destruct (enc x table _) as [[bytes tb]| | |];
        cbn [mbind exec_bind] in H; try done.
      destruct (IH _ _ _ _ H) as [more ->].
      exists (bytes ++ more). by rewrite app_assoc. }
  intros H Hns Har.
  repeat match type of H with
         | context [encode_section ?e ?i ?b ?t] =>
             let E := fresh "E" in
             destruct (encode_section e i b t) as [[? ?]| | |] eqn:E;
             cbn [mbind exec_bind] in H; try done;
             apply Hsec in E as [? ->]
         end.
  case_bool_decide; [done|]. injection H as <-.
  unfold Header_encode, hdr, setCounts, write16.
  cbn [id_ qdcount_ ancount_ nscount_ arcount_].
  unfold word_at, rd16, rd.
  cbn [app lookup list_lookup Nat.add mbind exec_bind].
  unfold u16. rewrite !Z.mod_small by lia.
  rewrite !be16_write16 by lia. done.
Qed.

(** C2, at the failing input. For the denylisted query [edns_query], whose
    additional section carries an OPT record, the reply that is sent has
    ARCOUNT = 1 and ends with that record: the counts that [handleQuery]
    zeroes are written over by [MessageParser::encode] from the section
    vectors, which [handleQuery] does not clear. *)
Theorem blocked_reply_keeps_additional_records :
  (∃ msg, parse edns_query = Ret msg ∧
          search ads_blocklist "sub.ads.com" = Ret true ∧
          length (additional_ msg) = 1 ∧
          arcount_ (header_ (blocked_response msg
                               (mk_Question "sub.ads.com" 1 1))) = 0%Z) ∧
  handleQuery ads_blocklist edns_query = Ret ([SendToClient edns_reply], OK) ∧
  word_at edns_reply 10 = 1%Z ∧
  drop 45 edns_reply =
    [xc0; x18; x00; x29; x10; x00; x00; x00; x00; x00; x00; x00].
Proof.
  split; [eexists; repeat split; vm_compute; reflexivity|].
  repeat split; vm_compute; reflexivity.
Qed.

(** C3, at the failing input. For the denylisted query [rcode3_query], a
    query (QR = 0) whose flag word carries RCODE bits 3, the reply that is
    sent has QR = 1 and RA = 1 and RCODE = 3 (NXDOMAIN), not NOERROR:
    [handleQuery] never writes the RCODE field. *)
Theorem blocked_reply_keeps_query_rcode :
  flag_set (word_at rcode3_query 2) Flags.QR = false ∧
  handleQuery ads_blocklist rcode3_query
    = Ret ([SendToClient rcode3_reply], OK) ∧
  flag_set (word_at rcode3_reply 2) Flags.QR = true ∧
  flag_set (word_at rcode3_reply 2) Flags.RA = true ∧
  Z.land (word_at rcode3_reply 2) 0xF = 3%Z.
Proof. repeat split; vm_compute; reflexivity. Qed.

(** * Further properties *)

(** ** The flag word *)

Lemma forall_bool_spec (P : bool → bool) :
  forall_bool P = true → ∀ b, P b = true.
Proof.
  unfold forall_bool. intros H b. apply andb_true_iff in H as [Ht Hf].
  by destruct b.
Qed.

Lemma land_15_range (x : Z) : (0 ≤ Z.land x 15 < 16)%Z.
Proof.
  change 15%Z with (Z.ones 4). rewrite Z.land_ones by lia.
  apply Z.mod_pos_bound. lia.
Qed.

Lemma flags_read_back_all (qr aa tc rd ra ad cd : bool) (opcode rcode : Z) :
  (0 ≤ opcode < 16)%Z → (0 ≤ rcode < 16)%Z →
  flags_read_back qr aa tc rd ra ad cd opcode rcode = true.
Proof.
  intros Ho Hr.
  pose (P := λ o r : Z,
    forall_bool (λ qr, forall_bool (λ aa, forall_bool (λ tc,
    forall_bool (λ rd, forall_bool (λ ra, forall_bool (λ ad,
    forall_bool (λ cd, flags_read_back qr aa tc rd ra ad cd o r)))))))).
  assert (P opcode rcode = true) as HP.
  { apply (forall_below2 P 4); [by vm_compute|done|done]. }
  unfold P in HP.
  apply forall_bool_spec with (b := qr) in HP. cbv beta in HP.
  apply forall_bool_spec with (b := aa) in HP. cbv beta in HP.
  apply forall_bool_spec with (b := tc) in HP. cbv beta in HP.
  apply forall_bool_spec with (b := rd) in HP. cbv beta in HP.
  apply forall_bool_spec with (b := ra) in HP. cbv beta in HP.
  apply forall_bool_spec with (b := ad) in HP. cbv beta in HP.
  by apply forall_bool_spec with (b := cd) in HP.
Qed.

(** the flag word [getRawFlags] packs: 16 bits, Z clear, and every field
    readable back from its bit positions (opcode and response code modulo
    16) *)
Lemma getRawFlags_bits (h : Header) :
  let f := getRawFlags h in
  (0 ≤ f < 65536)%Z ∧ flag_set f Flags.Z_ = false ∧
  flag_set (Z.shiftr f 15) 1 = qr_ h ∧
  Z.land (Z.shiftr f 11) 0xF = Z.land (opcode_ h) 0xF ∧
  flag_set f Flags.AA = aa_ h ∧ flag_set f Flags.TC = tc_ h ∧
  flag_set f Flags.RD = rd_ h ∧ flag_set f Flags.RA = ra_ h ∧
  flag_set f Flags.AD = ad_ h ∧ flag_set f Flags.CD = cd_ h ∧
  Z.land f 0xF = Z.land (rcode_ h) 0xF.
Proof.
  destruct h as [id qr op aa tc rd ra ad cd rc qd an ns ar].
  cbv zeta. cbn [qr_ opcode_ aa_ tc_ rd_ ra_ ad_ cd_ rcode_].
  pose proof (land_15_range op) as Ho. pose proof (land_15_range rc) as Hr.
  assert (getRawFlags (mk_Header id qr op aa tc rd ra ad cd rc qd an ns ar)
          = getRawFlags (flags_header qr aa tc rd ra ad cd (Z.land op 15)
                           (Z.land rc 15))) as ->.
  { rewrite getRawFlags_flag_fields. unfold flags_header, getRawFlags.
    cbn [qr_ opcode_ aa_ tc_ rd_ ra_ ad_ cd_ rcode_].
    assert (∀ x, Z.land (Z.land x 15) 15 = Z.land x 15) as Hidem.
    { intros x. change 15%Z with (Z.ones 4). rewrite !Z.land_ones by lia.
      apply Z.mod_mod. lia. }
    by rewrite !Hidem. }
  pose proof (flags_read_back_all qr aa tc rd ra ad cd _ _ Ho Hr) as H.
  unfold flags_read_back in H. cbv zeta in H.
  rewrite !andb_true_iff in H.
  destruct H as [[[[[[[[[[[H1 H2] H3] H4] H5] H6] H7] H8] H9] H10] H11] H12].
  apply Z.leb_le in H1. apply Z.ltb_lt in H2. apply negb_true_iff in H3.
  apply eqb_prop in H4. apply Z.eqb_eq in H5. apply eqb_prop in H6.
  apply eqb_prop in H7. apply eqb_prop in H8. apply eqb_prop in H9.
  apply eqb_prop in H10. apply eqb_prop in H11. apply Z.eqb_eq in H12.
  done.
Qed.

(** ** Header::encode, then Header::decode *)

Lemma Header_encode_length (h : Header) : length (Header_encode h) = 12.
Proof. reflexivity. Qed.

(** the six words of an encoded header *)
Lemma Header_encode_words (h : Header) (rest : list byte) :
  ((0 ≤ id_ h < 65536)%Z → word_at (Header_encode h ++ rest) 0 = id_ h) ∧
  word_at (Header_encode h ++ rest) 2 = getRawFlags h ∧
  ((0 ≤ qdcount_ h < 65536)%Z →
   word_at (Header_encode h ++ rest) 4 = qdcount_ h) ∧
  ((0 ≤ ancount_ h < 65536)%Z →
   word_at (Header_encode h ++ rest) 6 = ancount_ h) ∧
  ((0 ≤ nscount_ h < 65536)%Z →
   word_at (Header_encode h ++ rest) 8 = nscount_ h) ∧
  ((0 ≤ arcount_ h < 65536)%Z →
   word_at (Header_encode h ++ rest) 10 = arcount_ h).
Proof.
  destruct (getRawFlags_bits h) as (Hf & _).
  unfold Header_encode, write16, word_at, rd16, rd.
  cbn [app lookup list_lookup Nat.add mbind exec_bind].
  repeat split; intros; by rewrite be16_write16.
Qed.

Lemma known_opcode_small (opcode : Z) :
  known_opcode opcode = true → Z.land opcode 0xF = opcode.
Proof.
  unfold known_opcode, OpCode.QUERY, OpCode.IQUERY, OpCode.STATUS,
    OpCode.NOTIFY, OpCode.UPDATE, OpCode.DSO.
  rewrite !orb_true_iff, !bool_decide_eq_true.
  intros [[[[[-> | ->] | ->] | ->] | ->] | ->]; reflexivity.
Qed.

(** decoding what [Header::encode] wrote *)
Lemma Header_decode_after_encode (h : Header) (rest : list byte) :
  Header_valid h → Header_decode (Header_encode h ++ rest) = Ret h.
Proof.
  intros (Hid & Hop & Hrc & Hq & Hqd & Han & Hns & Har).
  rewrite Header_decode_words
    by (rewrite length_app, Header_encode_length; lia).
  cbv zeta.
  destruct (Header_encode_words h rest) as (H0 & -> & H4 & H6 & H8 & H10).
  rewrite H0, H4, H6, H8, H10 by lia. clear H0 H4 H6 H8 H10.
  destruct (getRawFlags_bits h)
    as (_ & -> & -> & -> & -> & -> & -> & -> & -> & -> & ->).
  cbv zeta. rewrite (known_opcode_small _ Hop), Hop.
  assert (Z.land (rcode_ h) 15 = rcode_ h) as ->.
  { change 15%Z with (Z.ones 4). rewrite Z.land_ones by lia.
    apply Z.mod_small. lia. }
  cbn [negb].
  destruct h as [id qr op aa tc rd ra ad cd rc qd an ns ar].
  cbn [id_ qr_ opcode_ aa_ tc_ rd_ ra_ ad_ cd_ rcode_ qdcount_ ancount_
       nscount_ arcount_] in *.
  destruct qr.
  - cbn [negb andb].
    rewrite (bool_decide_eq_false_2 (1 < qd)%Z) by lia.
    rewrite (bool_decide_eq_false_2 (500 < an)%Z) by lia.
    rewrite (bool_decide_eq_false_2 (500 < ns)%Z) by lia.
    rewrite (bool_decide_eq_false_2 (500 < ar)%Z) by lia.
    done.
  - destruct (Hq eq_refl) as (-> & -> & ->). cbn [negb andb orb].
    rewrite (bool_decide_eq_false_2 (1 = 0)%Z) by lia.
    rewrite (bool_decide_eq_false_2 (1 < 1)%Z) by lia.
    rewrite (bool_decide_eq_false_2 (500 < an)%Z) by lia.
    rewrite (bool_decide_eq_false_2 (500 < ns)%Z) by lia.
    rewrite (bool_decide_eq_false_2 (500 < ar)%Z) by lia.
    done.
Qed.

(** X1. A valid header survives the wire: decoding the twelve bytes that
    [Header::encode] writes (whatever follows them) gives the header back. *)
Theorem Header_decode_encode (h : Header) (rest : list byte) :
  Header_valid h → Header_decode (Header_encode h ++ rest) = Ret h.
Proof.
  exact (Header_decode_after_encode h rest).
Qed.

Lemma Header_decode_encode_witness :
  Header_decode (Header_encode query_header ++ [x00]) = Ret query_header.
Proof.
  apply Header_decode_encode. unfold Header_valid; cbn.
  repeat split; (done || lia).
Defined.

(** ** What the decoders accept *)

Lemma word_at_range (data : list byte) (i : nat) :
  (0 ≤ word_at data i < 65536)%Z.
Proof.
  unfold word_at, rd16, rd.
  destruct (data !! i) as [hi|]; cbn [mbind exec_bind]; [|lia].
  destruct (data !! (i + 1)) as [lo|]; cbn [mbind exec_bind]; [|lia].
  apply be16_range.
Qed.

(** what an accepted header satisfies *)
Lemma Header_decode_ok (data : list byte) (h : Header) :
  Header_decode data = Ret h →
  12 ≤ length data ∧ Header_valid h ∧
  id_ h = word_at data 0 ∧ qdcount_ h = word_at data 4 ∧
  ancount_ h = word_at data 6 ∧ nscount_ h = word_at data 8 ∧
  arcount_ h = word_at data 10.
Proof.
  destruct (decide (12 ≤ length data)) as [Hlen|Hlen].
  2: { unfold Header_decode. by rewrite bool_decide_eq_true_2 by lia. }
  rewrite Header_decode_words by done. cbv zeta. intros H.
  pose proof (word_at_range data 0). pose proof (word_at_range data 4).
  pose proof (word_at_range data 6). pose proof (word_at_range data 8).
  pose proof (word_at_range data 10).
  pose proof (land_15_range (word_at data 2)).
  repeat match type of H with
         | (if ?c then _ else _) = _ => destruct c eqn:?; [done|]
         end.
  injection H as <-. split; [done|]. unfold Header_valid.
  cbn [id_ qr_ opcode_ aa_ tc_ rd_ ra_ ad_ cd_ rcode_ qdcount_ ancount_
       nscount_ arcount_].
  repeat match goal with
         | H : negb _ = false |- _ => apply negb_false_iff in H
         | H : orb _ _ = false |- _ => apply orb_false_iff in H as [? ?]
         | H : bool_decide _ = false |- _ => apply bool_decide_eq_false in H
         end.
  repeat split; try done; try lia;
    match goal with Hq : flag_set _ 1 = false |- _ => rewrite Hq in * end;
    cbn [negb andb] in *;
    repeat match goal with
           | H : orb _ _ = false |- _ => apply orb_false_iff in H as [? ?]
           | H : bool_decide _ = false |- _ => apply bool_decide_eq_false in H
           end; try done; lia.
Qed.

(** X2. Every header that [Header::decode] accepts is valid in the sense of
    [Header_valid], comes from a buffer of at least 12 bytes, and carries
    the id and the four counts stored in the buffer. *)
Theorem Header_decode_accepts (data : list byte) (h : Header) :
  Header_decode data = Ret h →
  12 ≤ length data ∧ Header_valid h ∧
  id_ h = word_at data 0 ∧ qdcount_ h = word_at data 4 ∧
  ancount_ h = word_at data 6 ∧ nscount_ h = word_at data 8 ∧
  arcount_ h = word_at data 10.
Proof.
  exact (Header_decode_ok data h).
Qed.

Lemma Header_decode_accepts_witness :
  12 ≤ length s1_header ∧ Header_valid query_header ∧
  id_ query_header = word_at s1_header 0 ∧
  qdcount_ query_header = word_at s1_header 4 ∧
  ancount_ query_header = word_at s1_header 6 ∧
  nscount_ query_header = word_at s1_header 8 ∧
  arcount_ query_header = word_at s1_header 10.
Proof.
  apply Header_decode_accepts. vm_compute. reflexivity.
Defined.

Lemma decode_questions_length (data : list byte) (n offset : nat)
    (qs : list Question) (off : nat) :
  decode_questions data n offset = Ret (qs, off) → length qs = n.
Proof.
  revert offset qs off. induction n as [|n IH]; intros offset qs off H;
    cbn [decode_questions] in H.
  - by injection H as <- _.
  - destruct (Question_decode data offset) as [[q o]| | |];
      cbn [mbind exec_bind] in H; try done.
    destruct (decode_questions data n o) as [[qs' o']| | |] eqn:E;
      cbn [mbind exec_bind] in H; try done.
    injection H as <- _. simpl. by rewrite (IH _ _ _ E).
Qed.

Lemma decode_records_length (data : list byte) (n offset : nat)
    (rrs : list ResourceRecord) (off : nat) :
  decode_records data n offset = Ret (rrs, off) → length rrs = n.
Proof.
  revert offset rrs off. induction n as [|n IH]; intros offset rrs off H;
    cbn [decode_records] in H.
  - by injection H as <- _.
  - destruct (ResourceRecord_decode data offset) as [[rr o]| | |];
      cbn [mbind exec_bind] in H; try done.
    destruct (decode_records data n o) as [[rrs' o']| | |] eqn:E;
      cbn [mbind exec_bind] in H; try done.
    injection H as <- _. simpl. by rewrite (IH _ _ _ E).
Qed.

(** what a parsed message satisfies *)
Lemma parse_ok (data : list byte) (msg : Message) :
  parse data = Ret msg →
  12 ≤ length data ≤ 4096 ∧
  Header_decode data = Ret (header_ msg) ∧ Header_valid (header_ msg) ∧
  Z.of_nat (length (questions_ msg)) = qdcount_ (header_ msg) ∧
  Z.of_nat (length (answers_ msg)) = ancount_ (header_ msg) ∧
  Z.of_nat (length (authority_ msg)) = nscount_ (header_ msg) ∧
  Z.of_nat (length (additional_ msg)) = arcount_ (header_ msg) ∧
  length (questions_ msg) ≤ 1 ∧ length (answers_ msg) ≤ 500 ∧
  length (authority_ msg) ≤ 500 ∧ length (additional_ msg) ≤ 500.
Proof.
  unfold parse, Limits.MAX_EDNS_PAYLOAD. intros H.
  case_bool_decide as Hshort; [done|]. case_bool_decide as Hlong; [done|].
  destruct (Header_decode data) as [hdr| | |] eqn:Hh;
    cbn [mbind exec_bind] in H; try done.
  destruct (Header_decode_ok data hdr Hh) as (_ & Hv & _).
  destruct (decode_questions data _ 12) as [[qs o1]| | |] eqn:E1;
    cbn [mbind exec_bind] in H; try done.
  destruct (decode_records data _ o1) as [[an o2]| | |] eqn:E2;
    cbn [mbind exec_bind] in H; try done.
  destruct (decode_records data _ o2) as [[ns o3]| | |] eqn:E3;
    cbn [mbind exec_bind] in H; try done.
  destruct (decode_records data _ o3) as [[ar o4]| | |] eqn:E4;
    cbn [mbind exec_bind] in H; try done.
  injection H as <-. cbn [header_ questions_ answers_ authority_ additional_].
  apply decode_questions_length in E1. apply decode_records_length in E2.
  apply decode_records_length in E3. apply decode_records_length in E4.
  pose proof Hv as (_ & _ & _ & _ & Hqd & Han & Hns & Har).
  split; [lia|]. split; [done|]. split; [done|].
  repeat split; lia.
Qed.

(** X3. A message that [MessageParser::parse] returns comes from a datagram
    of 12 to 4096 bytes, its header is the decoded (hence valid) header of
    the datagram, and each of its four sections has exactly as many entries
    as the header counts say: at most one question and at most 500 records
    per section. *)
Theorem parse_accepts (data : list byte) (msg : Message) :
  parse data = Ret msg →
  12 ≤ length data ≤ 4096 ∧
  Header_decode data = Ret (header_ msg) ∧ Header_valid (header_ msg) ∧
  Z.of_nat (length (questions_ msg)) = qdcount_ (header_ msg) ∧
  Z.of_nat (length (answers_ msg)) = ancount_ (header_ msg) ∧
  Z.of_nat (length (authority_ msg)) = nscount_ (header_ msg) ∧
  Z.of_nat (length (additional_ msg)) = arcount_ (header_ msg) ∧
  length (questions_ msg) ≤ 1 ∧ length (answers_ msg) ≤ 500 ∧
  length (authority_ msg) ≤ 500 ∧ length (additional_ msg) ≤ 500.
Proof.
  exact (parse_ok data msg).
Qed.

Lemma parse_accepts_witness :
  12 ≤ length rcode3_query ≤ 4096 ∧
  Header_decode rcode3_query = Ret (header_ rcode3_message) ∧
  Header_valid (header_ rcode3_message) ∧
  Z.of_nat (length (questions_ rcode3_message))
    = qdcount_ (header_ rcode3_message) ∧
  Z.of_nat (length (answers_ rcode3_message))
    = ancount_ (header_ rcode3_message) ∧
  Z.of_nat (length (authority_ rcode3_message))
    = nscount_ (header_ rcode3_message) ∧
  Z.of_nat (length (additional_ rcode3_message))
    = arcount_ (header_ rcode3_message) ∧
  length (questions_ rcode3_message) ≤ 1 ∧
  length (answers_ rcode3_message) ≤ 500 ∧
  length (authority_ rcode3_message) ≤ 500 ∧
  length (additional_ rcode3_message) ≤ 500.
Proof.
  apply parse_accepts. vm_compute. reflexivity.
Defined.

(** ** The cursor *)

Lemma decode_step_cursor (data : list byte) (offset0 : nat) (st : dstate) :
  cursor_inv offset0 (length data) st →
  match decode_step data st with
  | Ret (Continue st') => cursor_inv offset0 (length data) st'
  | Ret (Break (_, off)) => offset0 < off ≤ length data
  | _ => True
  end.
Proof.
  unfold cursor_inv, decode_step. cbv zeta. intros Hinv.
  case_bool_decide as Hpos; [done|].
  destruct (rd_in_bounds data (d_pos st)) as (b & Hb & ->); [lia|].
  cbn [mbind exec_bind].
  case_bool_decide as Hzero.
  { destruct (d_jumped st); lia. }
  case_bool_decide as Hptr.
  - case_bool_decide; [done|].
    destruct (rd_in_bounds data (d_pos st + 1)) as (b1 & _ & ->); [lia|].
    cbn [mbind exec_bind].
    case_bool_decide; [done|]. case_bool_decide; [done|].
    cbn [d_jumped d_offset]. destruct (d_jumped st); lia.
  - case_bool_decide; [done|]. case_bool_decide; [done|].
    match goal with
    | |- context [rd_range ?d ?i ?n] => destruct (rd_range d i n)
    end; cbn [mbind exec_bind]; try done.
    case_bool_decide; [done|].
    cbn [d_jumped d_offset d_pos]. destruct (d_jumped st); lia.
Qed.

Lemma decode_loop_cursor (data : list byte) (offset0 fuel : nat) (st : dstate)
    (name : string) (off : nat) :
  cursor_inv offset0 (length data) st →
  decode_loop fuel data st = Ret (name, off) → offset0 < off ≤ length data.
Proof.
  revert st. induction fuel as [|fuel IH]; intros st Hinv Hrun; [done|].
  cbn [decode_loop] in Hrun.
  pose proof (decode_step_cursor data offset0 st Hinv) as Hs.
  destruct (decode_step data st) as [[st'|[name' off']]| | |];
    cbn [mbind exec_bind] in Hrun; try done.
  - by apply (IH st').
  - by injection Hrun as <- <-.
Qed.

(** on a buffer that holds the datagram and nothing else: a decoder that
    returns has moved the cursor forward and not past the end *)
Lemma decoders_cursor_datagram (data : list byte) (offset : nat) :
  (∀ name off,
     Name_decode data offset = Ret (name, off) →
     offset < off ≤ length data) ∧
  (∀ q off,
     Question_decode data offset = Ret (q, off) →
     offset + 4 < off ≤ length data) ∧
  (∀ rr off,
     ResourceRecord_decode data offset = Ret (rr, off) →
     offset + 10 + length (rdata_ rr) < off ≤ length data ∧
     Z.of_nat (length (rdata_ rr)) = rdlength_ rr).
Proof.
  assert (∀ name off, Name_decode data offset = Ret (name, off) →
                      offset < off ≤ length data) as Hname.
  { intros name off. apply decode_loop_cursor. unfold cursor_inv. simpl. lia. }
  split; [done|]. split.
  - intros q off. unfold Question_decode.
    destruct (Name_decode data offset) as [[name o]| | |] eqn:E;
      cbn [mbind exec_bind]; try done.
    specialize (Hname _ _ eq_refl).
    case_bool_decide; [done|]. reads_in_bounds.
    intros [= <- <-]. lia.
  - intros rr off. unfold ResourceRecord_decode.
    destruct (Name_decode data offset) as [[name o]| | |] eqn:E;
      cbn [mbind exec_bind]; try done.
    specialize (Hname _ _ eq_refl).
    case_bool_decide; [done|]. reads_in_bounds. cbv zeta.
    case_bool_decide; [done|].
    match goal with
    | |- context [rd_range ?d ?i ?n] =>
        destruct (decide (i + n ≤ length d)) as [Hok|Hko];
        [destruct (rd_range_in_bounds d n i Hok) as (bytes & -> & Hlen)
        |rewrite (rd_range_out_of_bounds d n i) by lia]
    end; cbn [mbind exec_bind]; [|done].
    intros [= <- <-]. cbn [rdata_ rdlength_].
    match goal with
    | |- context [be16 ?hi ?lo] => pose proof (be16_range hi lo)
    end. lia.
Qed.

(** ** Names: Name::encode, then Name::decode *)

Lemma bytes_of_string_length (s : string) :
  length (bytes_of_string s) = String.length s.
Proof.
  unfold bytes_of_string. induction s as [|c s IH]; simpl; [done|].
  by rewrite IH.
Qed.

Lemma string_of_bytes_of_string (s : string) :
  string_of_bytes (bytes_of_string s) = s.
Proof.
  unfold string_of_bytes, bytes_of_string.
  induction s as [|c s IH]; simpl; [done|].
  by rewrite ascii_of_byte_of_ascii, IH.
Qed.

Lemma str_take_app (l s : string) : str_take (String.length l) (l ++ s) = l.
Proof.
  induction l as [|c l IH]; str_simpl; simpl; [done|]. by rewrite IH.
Qed.

Lemma str_take_all (l : string) : str_take (String.length l) l = l.
Proof. induction l as [|c l IH]; simpl; [done|]. by rewrite IH. Qed.

Lemma str_drop_app (l s : string) : str_drop (String.length l) (l ++ s) = s.
Proof. induction l as [|c l IH]; str_simpl; simpl; done. Qed.

Lemma str_find_char_app (c : ascii) (l s : string) :
  str_find_char c l = None →
  str_find_char c (l ++ String c s) = Some (String.length l).
Proof.
  induction l as [|x l IH]; str_simpl; simpl.
  - by rewrite Ascii.eqb_refl.
  - destruct (Ascii.eqb x c); [done|].
    destruct (str_find_char c l); [done|]. intros _. by rewrite IH.
Qed.

Lemma wire_name_cons (l : string) (labels : list string) :
  wire_name (l :: labels) = wire_label l ++ wire_name labels.
Proof. unfold wire_name. simpl. by rewrite <- app_assoc. Qed.

Lemma wire_label_length (l : string) :
  length (wire_label l) = S (String.length l).
Proof. unfold wire_label. simpl. by rewrite bytes_of_string_length. Qed.

Lemma join_labels_cons2 (l y : string) (r : list string) :
  join_labels (l :: y :: r) = (l ++ "." ++ join_labels (y :: r))%string.
Proof. reflexivity. Qed.

Lemma label_ok_nonempty (l : string) : label_ok l → l ≠ EmptyString.
Proof. intros [Hl _] ->. simpl in Hl. lia. Qed.

(** one round of [Name::encode] on a label that is followed by the rest of
    the name, when the table (if any) cannot hit *)
Lemma encode_step_label (name : string) (baseOffset : Z) (buf : list byte)
    (pos : nat) (table : option (gmap string Z)) (l tail : string) :
  str_drop pos name = (l ++ tail)%string →
  label_ok l → tail = EmptyString ∨ (∃ s, tail = String "." s) →
  table_fresh table (str_drop pos name) →
  ∃ table',
    encode_step name baseOffset (mk_estate buf pos table)
      = Ret (Continue (mk_estate (buf ++ wire_label l)
                         (pos + String.length l
                          + (if bool_decide (tail = EmptyString) then 0 else 1))
                         table')) ∧
    (table = None → table' = None) ∧
    ∀ rem', String.length rem' < String.length (str_drop pos name) →
            table_fresh table' rem'.
Proof.
  intros Hrem [Hlen Hdot] Htail Hfresh.
  assert (String.length (str_drop pos name)
          = String.length l + String.length tail) as Hrl
    by (by rewrite Hrem, str_app_length).
  pose proof (str_drop_length pos name) as Hdl.
  assert (∀ table0 : option (gmap string Z),
    encode_label name buf pos table0
      = Ret (Continue (mk_estate (buf ++ wire_label l)
               (pos + String.length l
                + (if bool_decide (tail = EmptyString) then 0 else 1))
               table0))) as Hlabel.
  { intros table0. unfold encode_label. cbv zeta.
    rewrite bool_decide_eq_false_2 by lia.
    unfold str_find_char_from. rewrite Hrem.
    unfold Limits.MAX_LABEL_LEN.
    destruct Htail as [-> | (s & ->)].
    - assert ((l ++ "")%string = l) as El.
      { clear. induction l as [|c l IH]; str_simpl; [done|]. by rewrite IH. }
      rewrite El in *. rewrite Hdot.
      cbn [fmap option_fmap option_map default].
      assert (String.length name - pos = String.length l) as ->
        by (simpl in Hrl; lia).
      rewrite bool_decide_eq_false_2 by lia.
      rewrite bool_decide_eq_false_2 by lia.
      cbn [orb]. rewrite str_take_all.
      rewrite bool_decide_eq_true_2 by done.
      unfold wire_label. rewrite <- app_assoc. cbn [app].
      do 3 f_equal. f_equal. simpl in Hrl. lia.
    - rewrite (str_find_char_app _ _ _ Hdot).
      cbn [fmap option_fmap option_map default]. unfold id.
      assert (pos + String.length l - pos = String.length l) as -> by lia.
      rewrite bool_decide_eq_false_2 by lia.
      rewrite bool_decide_eq_false_2 by lia.
      cbn [orb]. rewrite str_take_app.
      rewrite bool_decide_eq_false_2 by done.
      unfold wire_label. rewrite <- app_assoc. cbn [app]. done. }
  unfold encode_step. cbn [e_table e_pos e_buf]. cbv zeta.
  destruct table as [t|].
  - destruct (t !! str_drop pos name) as [ptr|] eqn:Hhit.
    { specialize (Hfresh _ (mk_is_Some _ _ Hhit)). lia. }
    eexists. split; [apply Hlabel|]. split; [done|].
    intros rem' Hshort k Hk.
    apply lookup_insert_is_Some in Hk as [<- | [_ Hk]]; [done|].
    specialize (Hfresh k Hk). lia.
  - exists None. split; [apply Hlabel|]. done.
Qed.

(** the loop of [Name::encode] over the labels that remain: all of them are
    written, then the zero byte, unless the whole exceeds 255 bytes *)
Lemma encode_loop_labels (name : string) (baseOffset : Z)
    (rest : list string) :
  Forall label_ok rest →
  ∀ (fuel : nat) (buf : list byte) (pos : nat) (table : option (gmap string Z)),
    str_drop pos name = join_labels rest →
    table_fresh table (str_drop pos name) →
    length rest < fuel →
    if bool_decide (255 < length (buf ++ wire_name rest)) then
      encode_loop fuel name baseOffset (mk_estate buf pos table)
        = Unexpected ENCODE_NAME_TOO_LONG
    else
      ∃ table',
        encode_loop fuel name baseOffset (mk_estate buf pos table)
          = Ret (buf ++ wire_name rest, table') ∧
        (table = None → table' = None).
Proof.
  induction rest as [|l rest IH]; intros Hall fuel buf pos table Hrem Hfresh Hfuel.
  - destruct fuel as [|fuel]; [simpl in Hfuel; lia|].
    cbn [encode_loop].
    assert (String.length name ≤ pos) as Hend.
    { pose proof (str_drop_length pos name) as Hl. rewrite Hrem in Hl.
      simpl in Hl. lia. }
    assert (∀ table0 : option (gmap string Z),
      encode_label name buf pos table0
        = if bool_decide (255 < length (buf ++ wire_name []))
          then Unexpected ENCODE_NAME_TOO_LONG
          else Ret (Break (buf ++ wire_name [], table0))) as Hlabel.
    { intros table0. unfold encode_label, Limits.MAX_NAME_LEN. cbv zeta.
      by rewrite bool_decide_eq_true_2 by done. }
    unfold encode_step. cbn [e_table e_pos e_buf]. cbv zeta.
    destruct table as [t|].
    + destruct (t !! str_drop pos name) as [ptr|] eqn:Hhit.
      { specialize (Hfresh _ (mk_is_Some _ _ Hhit)). lia. }
      rewrite Hlabel. case_bool_decide; [done|].
      cbn [mbind exec_bind]. eexists. split; [done|]. done.
    + rewrite Hlabel. case_bool_decide; [done|].
      cbn [mbind exec_bind]. by exists None.
  - apply Forall_cons in Hall as [Hl Hall].
    destruct fuel as [|fuel]; [simpl in Hfuel; lia|]. simpl in Hfuel.
    cbn [encode_loop].
    set (tail := match rest with
                 | [] => EmptyString
                 | _ => String "." (join_labels rest)
                 end).
    assert (str_drop pos name = (l ++ tail)%string) as Hlt.
    { rewrite Hrem. subst tail. destruct rest as [|y r]; cbn [join_labels].
      - clear. induction l as [|c l IH]; str_simpl; [done|]. by rewrite <- IH.
      - done. }
    assert (tail = EmptyString ∨ ∃ s, tail = String "." s) as Htail.
    { subst tail. destruct rest; [by left|right; eauto]. }
    destruct (encode_step_label name baseOffset buf pos table l tail
                Hlt Hl Htail Hfresh) as (table' & -> & Hnone & Hfresh').
    cbn [mbind exec_bind].
    set (pos' := pos + String.length l
                 + (if bool_decide (tail = EmptyString) then 0 else 1)).
    assert (str_drop pos' name = join_labels rest) as Hrem'.
    { subst pos'. rewrite <- Nat.add_assoc, str_drop_add, Hlt.
      subst tail. destruct rest as [|y r].
      - rewrite bool_decide_eq_true_2 by done.
        rewrite Nat.add_0_r. rewrite str_drop_app. done.
      - rewrite bool_decide_eq_false_2 by done.
        rewrite str_drop_add, str_drop_app. done. }
    assert (String.length (str_drop pos' name)
            < String.length (str_drop pos name)) as Hshort.
    { rewrite Hrem', Hrem. destruct Hl as [Hl _].
      destruct rest as [|y r]; [simpl; lia|].
      rewrite join_labels_cons2, !str_app_length. simpl. lia. }
    specialize (IH Hall fuel (buf ++ wire_label l) pos' table' Hrem'
                  (Hfresh' _ Hshort) ltac:(lia)).
    rewrite wire_name_cons, app_assoc.
    case_bool_decide; [done|].
    destruct IH as (table'' & -> & Hnone'). exists table''.
    split; [done|]. intros E. apply Hnone'. by apply Hnone.
Qed.

Lemma join_labels_length (labels : list string) :
  labels ≠ [] →
  String.length (join_labels labels) + 2 = length (wire_name labels).
Proof.
  induction labels as [|l rest IH]; intros Hne; [done|].
  rewrite wire_name_cons, length_app, wire_label_length.
  destruct rest as [|y r].
  - simpl. lia.
  - rewrite join_labels_cons2, !str_app_length.
    specialize (IH ltac:(done)). simpl. simpl in IH. lia.
Qed.

Lemma label_count_le_length (labels : list string) :
  Forall label_ok labels → length labels ≤ String.length (join_labels labels).
Proof.
  induction labels as [|l rest IH]; intros Hall; [done|].
  apply Forall_cons in Hall as [[Hl _] Hall]. specialize (IH Hall).
  destruct rest as [|y r]; [simpl; lia|].
  rewrite join_labels_cons2, !str_app_length. simpl. simpl in IH. lia.
Qed.

(** [Name::encode] on the dotted text of valid labels, without a table or
    with one that cannot hit *)
Lemma Name_encode_labels (labels : list string) (baseOffset : Z)
    (table : option (gmap string Z)) :
  Forall label_ok labels →
  table_fresh table (join_labels labels) →
  if bool_decide (255 < length (wire_name labels)) then
    Name_encode (join_labels labels) table baseOffset
      = Unexpected ENCODE_NAME_TOO_LONG
  else
    ∃ table',
      Name_encode (join_labels labels) table baseOffset
        = Ret (wire_name labels, table') ∧
      (table = None → table' = None).
Proof.
  intros Hall Hfresh.
  pose proof (label_count_le_length labels Hall).
  apply (encode_loop_labels (join_labels labels) baseOffset labels Hall
           (String.length (join_labels labels) + 2) [] 0 table);
    [done|done|lia].
Qed.

Lemma rd_range_app (front bytes post : list byte) :
  rd_range (front ++ bytes ++ post) (length front) (length bytes) = Ret bytes.
Proof.
  revert front. induction bytes as [|b bytes IH]; intros front; [done|].
  cbn [length rd_range].
  change ((b :: bytes) ++ post) with (b :: (bytes ++ post)).
  rewrite (rd_Some _ _ b) by (by apply list_lookup_middle).
  cbn [mbind exec_bind].
  specialize (IH (front ++ [b])).
  rewrite <- app_assoc, length_app in IH. cbn [app length] in IH.
  rewrite Nat.add_1_r in IH. by rewrite IH.
Qed.

(** the length byte of a label of 1 to 63 bytes: not zero, not a pointer *)
Lemma label_length_byte (n : nat) :
  1 ≤ n ≤ 63 →
  b2z (z2b (Z.of_nat n)) = Z.of_nat n ∧
  Z.land (Z.of_nat n) 0xC0 ≠ 0xC0%Z.
Proof.
  intros Hn. split; [apply b2z_z2b; lia|].
  pose (P := λ z : Z, negb (Z.land z 0xC0 =? 0xC0)%Z).
  assert (P (Z.of_nat n) = true) as HP.
  { apply (forall_below P 6); [by vm_compute|]. simpl. lia. }
  unfold P in HP. apply negb_true_iff in HP. by apply Z.eqb_neq in HP.
Qed.

(** the round of [Name::decode] at the zero byte that ends a name *)
Lemma decode_step_end (data : list byte) (st : dstate) :
  data !! d_pos st = Some x00 →
  decode_step data st
    = Ret (Break (d_name st,
                  if d_jumped st then d_offset st else d_pos st + 1)).
Proof.
  intros H0. pose proof (lookup_lt_Some _ _ _ H0).
  unfold decode_step. cbv zeta.
  rewrite bool_decide_eq_false_2 by lia.
  rewrite (rd_Some _ _ _ H0). cbn [mbind exec_bind].
  change (b2z x00) with 0%Z. by rewrite bool_decide_eq_true_2 by done.
Qed.

(** the round of [Name::decode] at a label that lies inside the datagram *)
Lemma decode_step_label (data front post : list byte) (st : dstate)
    (l : string) :
  data = front ++ wire_label l ++ post → d_pos st = length front →
  1 ≤ String.length l ≤ 63 →
  let name := ((if bool_decide (d_name st = EmptyString) then d_name st
                else d_name st ++ ".") ++ l)%string in
  String.length name ≤ 255 →
  decode_step data st
    = Ret (Continue (mk_dstate (length front + length (wire_label l))
                       (d_jumped st) (d_hops st) name (d_offset st))).
Proof.
  intros Hdata Hpos Hl name Hname.
  destruct (label_length_byte _ Hl) as [Hb Hmask].
  assert (length data
          = length front + S (String.length l) + length post) as Hlen.
  { rewrite Hdata, !length_app, wire_label_length. lia. }
  unfold decode_step. cbv zeta. rewrite Hpos.
  rewrite bool_decide_eq_false_2 by lia.
  rewrite (rd_Some data (length front) (z2b (Z.of_nat (String.length l)))).
  2: { rewrite Hdata. unfold wire_label. cbn [app].
       by apply list_lookup_middle. }
  cbn [mbind exec_bind]. rewrite Hb.
  rewrite bool_decide_eq_false_2 by lia.
  unfold Limits.COMPRESSION_MASK.
  rewrite bool_decide_eq_false_2 by done.
  unfold Limits.MAX_LABEL_LEN.
  rewrite bool_decide_eq_false_2 by lia.
  rewrite Nat2Z.id.
  rewrite bool_decide_eq_false_2 by lia.
  assert (rd_range data (length front + 1) (String.length l)
          = Ret (bytes_of_string l)) as ->.
  { pose proof (rd_range_app (front ++ [z2b (Z.of_nat (String.length l))])
                  (bytes_of_string l) post) as Hrd.
    rewrite length_app, bytes_of_string_length in Hrd. cbn [length] in Hrd.
    rewrite <- Hrd. f_equal. rewrite Hdata. unfold wire_label.
    by rewrite <- !app_assoc. }
  cbn [mbind exec_bind]. rewrite string_of_bytes_of_string.
  fold name. unfold Limits.MAX_NAME_LEN.
  rewrite bool_decide_eq_false_2 by lia.
  rewrite wire_label_length. do 3 f_equal. lia.
Qed.

Lemma acc_name_length (name : string) (labels : list string) :
  String.length name ≤ String.length (acc_name name labels).
Proof.
  revert name. induction labels as [|l rest IH]; intros name; [done|].
  unfold acc_name in *. cbn [foldl].
  etrans; [|apply IH]. rewrite str_app_length.
  case_bool_decide; [lia|]. rewrite str_app_length. lia.
Qed.

Lemma acc_name_join (done rest : list string) :
  Forall (λ l, 1 ≤ String.length l ≤ 63) (done ++ rest) →
  acc_name (join_labels done) rest = join_labels (done ++ rest).
Proof.
  revert done. induction rest as [|l rest IH]; intros done Hall.
  - by rewrite app_nil_r.
  - unfold acc_name. cbn [foldl].
    rewrite cons_middle, app_assoc in Hall |- *.
    pose proof Hall as Hdone. apply Forall_app in Hdone as [Hdone _].
    rewrite <- (join_labels_snoc done l).
    2: { apply Forall_app in Hdone. tauto. }
    apply (IH (done ++ [l]) Hall).
Qed.

(** the loop of [Name::decode] over an uncompressed run of labels that ends
    with the zero byte *)
Lemma decode_loop_labels (data post : list byte) (rest : list string) :
  Forall (λ l, 1 ≤ String.length l ≤ 63) rest →
  ∀ (front : list byte) (fuel : nat) (jumped : bool) (hops : nat)
    (name : string) (offset : nat),
    data = front ++ wire_name rest ++ post →
    String.length (acc_name name rest) ≤ 255 →
    length rest < fuel →
    decode_loop fuel data (mk_dstate (length front) jumped hops name offset)
      = Ret (acc_name name rest,
             if jumped then offset
             else length front + length (wire_name rest)).
Proof.
  induction rest as [|l rest IH];
    intros Hall front fuel jumped hops name offset Hdata Hname Hfuel.
  - destruct fuel as [|fuel]; [simpl in Hfuel; lia|]. cbn [decode_loop].
    rewrite decode_step_end.
    2: { rewrite Hdata. cbn [d_pos wire_name map concat app].
         by apply list_lookup_middle. }
    cbn [mbind exec_bind d_name d_jumped d_offset d_pos acc_name foldl].
    unfold acc_name. cbn [foldl wire_name map concat app length].
    by rewrite Nat.add_1_r.
  - apply Forall_cons in Hall as [Hl Hall].
    destruct fuel as [|fuel]; [simpl in Hfuel; lia|]. simpl in Hfuel.
    cbn [decode_loop].
    rewrite wire_name_cons, <- app_assoc in Hdata.
    unfold acc_name in Hname. cbn [foldl] in Hname.
    match type of Hname with
    | String.length (foldl _ ?n _) ≤ _ =>
        change (String.length (acc_name n rest) ≤ 255) in Hname;
        pose proof (acc_name_length n rest) as Hmono
    end.
    rewrite (decode_step_label data front (wire_name rest ++ post) _ l)
      by (done || cbn [d_name]; lia).
    cbn [mbind exec_bind d_name d_jumped d_hops d_offset].
    rewrite <- length_app.
    rewrite (IH Hall (front ++ wire_label l) fuel jumped hops _ offset);
      [| by rewrite <- app_assoc | done | lia].
    unfold acc_name at 2. cbn [foldl].
    rewrite wire_name_cons, !length_app. do 2 f_equal.
    destruct jumped; [done|lia].
Qed.

(** a name of valid labels, encoded and decoded *)
Lemma Name_round_trip (labels : list string) (baseOffset : Z)
    (pre post : list byte) :
  Forall label_ok labels →
  (length (wire_name labels) ≤ 255 →
   Name_encode (join_labels labels) None baseOffset
     = Ret (wire_name labels, None) ∧
   Name_decode (pre ++ wire_name labels ++ post) (length pre)
     = Ret (join_labels labels, length pre + length (wire_name labels))) ∧
  (255 < length (wire_name labels) →
   Name_encode (join_labels labels) None baseOffset
     = Unexpected ENCODE_NAME_TOO_LONG).
Proof.
  intros Hall.
  pose proof (Name_encode_labels labels baseOffset None Hall I) as Henc.
  assert (Forall (λ l, 1 ≤ String.length l ≤ 63) labels) as Hlen.
  { eapply Forall_impl; [exact Hall|]. by intros l [? _]. }
  split; intros Hfit.
  - rewrite bool_decide_eq_false_2 in Henc by lia.
    destruct Henc as (table' & Henc & Hnone). rewrite (Hnone eq_refl) in Henc.
    split; [done|].
    pose proof (acc_name_join [] labels Hlen) as Hacc.
    cbn [join_labels app] in Hacc.
    unfold Name_decode, decode_init.
    rewrite (decode_loop_labels _ post labels Hlen pre _ false 0 EmptyString
               (length pre) eq_refl).
    + by rewrite Hacc.
    + rewrite Hacc. destruct labels as [|l rest]; [simpl; lia|].
      pose proof (join_labels_length (l :: rest) ltac:(done)). lia.
    + unfold decode_budget. rewrite !length_app.
      assert (length labels < length (wire_name labels)); [|lia].
      clear. induction labels as [|l rest IH]; [simpl; lia|].
      rewrite wire_name_cons, length_app, wire_label_length. simpl. lia.
  - by rewrite bool_decide_eq_true_2 in Henc by lia.
Qed.

(** X5. A name made of valid labels (1 to 63 bytes each, no dot inside)
    whose wire form fits 255 bytes is encoded, without a table, as exactly
    that wire form: each label behind its length byte, then a zero byte.
    Decoding those bytes wherever they stand in a datagram gives the name
    back and moves the cursor just past them. A longer wire form is
    refused with [ENCODE_NAME_TOO_LONG]. *)
Theorem Name_decode_encode (labels : list string) (baseOffset : Z)
    (pre post : list byte) :
  Forall label_ok labels →
  (length (wire_name labels) ≤ 255 →
   Name_encode (join_labels labels) None baseOffset
     = Ret (wire_name labels, None) ∧
   Name_decode (pre ++ wire_name labels ++ post) (length pre)
     = Ret (join_labels labels, length pre + length (wire_name labels))) ∧
  (255 < length (wire_name labels) →
   Name_encode (join_labels labels) None baseOffset
     = Unexpected ENCODE_NAME_TOO_LONG).
Proof.
  exact (Name_round_trip labels baseOffset pre post).
Qed.

Lemma Name_decode_encode_witness :
  Name_encode (join_labels sub_ads_com) None 0
    = Ret (wire_name sub_ads_com, None) ∧
  Name_decode ([x00] ++ wire_name sub_ads_com ++ [x00; x01]) (length [x00])
    = Ret (join_labels sub_ads_com,
           length [x00] + length (wire_name sub_ads_com)).
Proof.
  apply (Name_decode_encode sub_ads_com 0 [x00] [x00; x01]).
  - repeat constructor; simpl; lia.
  - simpl. lia.
Defined.

(** a pointer to an uncompressed name *)
Lemma Name_decode_via_pointer (data front post : list byte)
    (labels : list string) (offset : nat) (b0 b1 : byte) :
  data = front ++ wire_name labels ++ post →
  Forall (λ l, 1 ≤ String.length l ≤ 63) labels →
  String.length (join_labels labels) ≤ 255 →
  data !! offset = Some b0 → data !! (offset + 1) = Some b1 →
  Z.land (b2z b0) 0xC0 = 0xC0%Z →
  pointer_target b0 b1 = Z.of_nat (length front) →
  Name_decode data offset = Ret (join_labels labels, offset + 2).
Proof.
  intros Hdata Hall Hlen H0 H1 Hmask Htarget.
  pose proof (lookup_lt_Some _ _ _ H1) as Hin.
  assert (length front < length data) as Hfront.
  { rewrite Hdata, !length_app. unfold wire_name. rewrite length_app.
    simpl. lia. }
  pose proof (acc_name_join [] labels Hall) as Hacc.
  cbn [join_labels app] in Hacc.
  unfold Name_decode, decode_budget.
  destruct (22 * (length data + 1)) as [|fuel] eqn:Hfuel; [lia|].
  cbn [decode_loop].
  rewrite (decode_step_pointer data _ b0 b1) by (done || rewrite Htarget; lia).
  cbn [decode_init d_hops d_pos d_name d_jumped d_offset].
  rewrite bool_decide_eq_false_2 by lia. cbn [mbind exec_bind].
  rewrite Htarget, Nat2Z.id.
  rewrite (decode_loop_labels data post labels Hall front fuel true 1
             EmptyString (offset + 2) Hdata).
  - by rewrite Hacc.
  - by rewrite Hacc.
  - assert (length labels < length (wire_name labels)) as Hcount.
    { clear. induction labels as [|l rest IH]; [simpl; lia|].
      rewrite wire_name_cons, length_app, wire_label_length. simpl. lia. }
    rewrite Hdata, !length_app in Hfuel. lia.
Qed.

(** X6. A compression pointer is followed: when the two bytes at the cursor
    are a pointer to an uncompressed name that stands elsewhere in the
    datagram, [Name::decode] returns that name and moves the cursor past
    the two bytes of the pointer only. *)
Theorem Name_decode_pointer (data front post : list byte)
    (labels : list string) (offset : nat) (b0 b1 : byte) :
  data = front ++ wire_name labels ++ post →
  Forall (λ l, 1 ≤ String.length l ≤ 63) labels →
  String.length (join_labels labels) ≤ 255 →
  data !! offset = Some b0 → data !! (offset + 1) = Some b1 →
  Z.land (b2z b0) 0xC0 = 0xC0%Z →
  pointer_target b0 b1 = Z.of_nat (length front) →
  Name_decode data offset = Ret (join_labels labels, offset + 2).
Proof.
  exact (Name_decode_via_pointer data front post labels offset b0 b1).
Qed.

Lemma Name_decode_pointer_witness :
  Name_decode rcode3_reply 29 = Ret (join_labels sub_ads_com, 29 + 2).
Proof.
  apply (Name_decode_pointer rcode3_reply (take 12 rcode3_reply)
           (drop 25 rcode3_reply) sub_ads_com 29 xc0 x0c).
  - reflexivity.
  - repeat constructor; simpl; lia.
  - simpl. lia.
  - reflexivity.
  - reflexivity.
  - reflexivity.
  - reflexivity.
Defined.

(** ** Questions and records: encode, then decode *)

Lemma split_word32 (v : Z) :
  Z.lor (Z.shiftl (Z.shiftr v 16) 16) (Z.land v 0xFFFF) = v.
Proof.
  apply Z.bits_inj'. intros n Hn.
  rewrite Z.lor_spec, Z.land_spec.
  change 0xFFFF%Z with (Z.ones 16).
  destruct (decide (n < 16)%Z) as [Hlo|Hhi].
  - rewrite Z.shiftl_spec_low by lia.
    rewrite Z.ones_spec_low by lia. by rewrite andb_true_r.
  - rewrite Z.shiftl_spec_high by lia.
    rewrite Z.shiftr_spec by lia.
    rewrite Z.ones_spec_high by lia.
    rewrite andb_false_r, orb_false_r. f_equal. lia.
Qed.

Lemma be32_write32 (v : Z) :
  (0 ≤ v < 4294967296)%Z →
  match write32 v with
  | [b3; b2; b1; b0] => be32 b3 b2 b1 b0 = v
  | _ => False
  end.
Proof.
  intros Hv. unfold write32.
  set (hi := Z.shiftr v 16). set (lo := Z.land v 0xFFFF).
  assert (0 ≤ hi < 65536)%Z as Hhi.
  { subst hi. rewrite Z.shiftr_div_pow2 by lia.
    change (2 ^ 16)%Z with 65536%Z. split.
    - apply Z.div_pos; lia.
    - apply Z.div_lt_upper_bound; lia. }
  assert (0 ≤ lo < 65536)%Z as Hlo.
  { subst lo. change 0xFFFF%Z with (Z.ones 16). rewrite Z.land_ones by lia.
    apply Z.mod_pos_bound. lia. }
  assert (Z.land (Z.shiftr v 24) 0xFF = Z.land (Z.shiftr hi 8) 0xFF) as ->.
  { subst hi. rewrite Z.shiftr_shiftr by lia. done. }
  assert (Z.land (Z.shiftr v 8) 0xFF = Z.land (Z.shiftr lo 8) 0xFF) as ->.
  { subst lo. rewrite Z.shiftr_land, <- Z.land_assoc. done. }
  assert (Z.land v 0xFF = Z.land lo 0xFF) as ->.
  { subst lo. rewrite <- Z.land_assoc. done. }
  assert (∀ b3 b2 b1 b0,
            be32 b3 b2 b1 b0 = Z.lor (Z.shiftl (be16 b3 b2) 16) (be16 b1 b0))
    as ->.
  { intros b3 b2 b1 b0. unfold be32, be16.
    rewrite Z.shiftl_lor, Z.shiftl_shiftl by lia.
    by rewrite !Z.lor_assoc. }
  rewrite !be16_write16 by done. apply split_word32.
Qed.

Lemma rd_app_r (front rest : list byte) (k : nat) :
  rd (front ++ rest) (length front + k) = rd rest k.
Proof.
  unfold rd. rewrite lookup_app_r by lia.
  by replace (length front + k - length front) with k by lia.
Qed.

Lemma rd_app_0 (front rest : list byte) :
  rd (front ++ rest) (length front) = rd rest 0.
Proof. by rewrite <- (rd_app_r front rest 0), Nat.add_0_r. Qed.

Lemma rd_range_app_r (front rest : list byte) (k n : nat) :
  rd_range (front ++ rest) (length front + k) n = rd_range rest k n.
Proof.
  revert k. induction n as [|n IH]; intros k; [done|].
  cbn [rd_range]. rewrite rd_app_r.
  by rewrite <- Nat.add_succ_r, IH.
Qed.

(** a question, encoded and decoded *)
Lemma Question_round_trip (labels : list string) (qtype qclass : Z)
    (baseOffset : Z) (pre post : list byte) :
  Forall label_ok labels → length (wire_name labels) ≤ 255 →
  (0 ≤ qtype < 65536)%Z → (0 ≤ qclass < 65536)%Z →
  let q := mk_Question (join_labels labels) qtype qclass in
  let wire := wire_name labels ++ write16 qtype ++ write16 qclass in
  Question_encode q None baseOffset = Ret (wire, None) ∧
  Question_decode (pre ++ wire ++ post) (length pre)
    = Ret (q, length pre + length wire).
Proof.
  intros Hall Hfit Ht Hc q wire.
  destruct (Name_round_trip labels baseOffset pre
              (write16 qtype ++ write16 qclass ++ post) Hall)
    as [Hok _].
  destruct (Hok Hfit) as [Henc Hdec]. split.
  - unfold Question_encode, q. cbn [qname_ qtype_ qclass_].
    by rewrite Henc.
  - set (front := pre ++ wire_name labels).
    set (tail := write16 qtype ++ write16 qclass ++ post).
    assert (pre ++ wire ++ post = front ++ tail) as ->.
    { unfold wire, front, tail. by rewrite <- !app_assoc. }
    assert (pre ++ wire_name labels ++ write16 qtype ++ write16 qclass ++ post
            = front ++ tail) as Hd by (unfold front; by rewrite <- app_assoc).
    rewrite Hd, <- length_app in Hdec. fold front in Hdec.
    unfold Question_decode. rewrite Hdec. cbn [mbind exec_bind].
    assert (length wire = length (wire_name labels) + 4) as Hw.
    { unfold wire. by rewrite !length_app. }
    assert (length front = length pre + length (wire_name labels)) as Hf
      by (unfold front; by rewrite length_app).
    rewrite bool_decide_eq_false_2.
    2: { rewrite length_app. unfold tail. rewrite !length_app.
         cbn [length write16]. lia. }
    rewrite rd_app_0, !rd_app_r. unfold tail, rd, write16.
    cbn [app lookup list_lookup Nat.add mbind exec_bind].
    rewrite !be16_write16 by done. do 2 f_equal. lia.
Qed.

(** X7. A question whose name is made of valid labels and whose type and
    class are 16-bit values is encoded, without a table, as the wire name
    followed by the two words; decoding those bytes wherever they stand in
    a datagram gives the question back and moves the cursor just past
    them. *)
Theorem Question_decode_encode (labels : list string) (qtype qclass : Z)
    (baseOffset : Z) (pre post : list byte) :
  Forall label_ok labels → length (wire_name labels) ≤ 255 →
  (0 ≤ qtype < 65536)%Z → (0 ≤ qclass < 65536)%Z →
  let q := mk_Question (join_labels labels) qtype qclass in
  let wire := wire_name labels ++ write16 qtype ++ write16 qclass in
  Question_encode q None baseOffset = Ret (wire, None) ∧
  Question_decode (pre ++ wire ++ post) (length pre)
    = Ret (q, length pre + length wire).
Proof.
  exact (Question_round_trip labels qtype qclass baseOffset pre post).
Qed.

Lemma Question_decode_encode_witness :
  Question_encode (mk_Question (join_labels sub_ads_com) 1 1) None 12
    = Ret (wire_name sub_ads_com ++ write16 1 ++ write16 1, None) ∧
  Question_decode
    (s1_header ++ (wire_name sub_ads_com ++ write16 1 ++ write16 1) ++ [])
    (length s1_header)
    = Ret (mk_Question (join_labels sub_ads_com) 1 1,
           length s1_header
           + length (wire_name sub_ads_com ++ write16 1 ++ write16 1)).
Proof.
  apply (Question_decode_encode sub_ads_com 1 1 12 s1_header []).
  - repeat constructor; simpl; lia.
  - simpl. lia.
  - lia.
  - lia.
Defined.

(** X8. A record whose owner name is made of valid labels, with 16-bit type
    and class, a 32-bit TTL and fewer than 65536 bytes of RDATA, is decoded
    from its encoding (made without a table, wherever it stands in a
    datagram) as the same record with RDLENGTH set to the length of the
    RDATA: the stored RDLENGTH field plays no part. *)
Theorem ResourceRecord_decode_encode (labels : list string)
    (type rclass ttl rdlength : Z) (rdata : list byte)
    (baseOffset : Z) (pre post : list byte) :
  Forall label_ok labels → length (wire_name labels) ≤ 255 →
  (0 ≤ type < 65536)%Z → (0 ≤ rclass < 65536)%Z →
  (0 ≤ ttl < 4294967296)%Z → (Z.of_nat (length rdata) < 65536)%Z →
  let rr := mk_ResourceRecord (join_labels labels) type rclass ttl rdlength
              rdata in
  ∃ wire,
    ResourceRecord_encode rr None baseOffset = Ret (wire, None) ∧
    length wire = length (wire_name labels) + 10 + length rdata ∧
    ResourceRecord_decode (pre ++ wire ++ post) (length pre)
      = Ret (mk_ResourceRecord (join_labels labels) type rclass ttl
               (Z.of_nat (length rdata)) rdata,
             length pre + length wire).
Proof.
  intros Hall Hfit Ht Hc Httl Hrd rr.
  set (fixed := write16 type ++ write16 rclass ++ write32 ttl
                ++ write16 (u16 (Z.of_nat (length rdata)))).
  destruct (Name_round_trip labels baseOffset pre
              (fixed ++ rdata ++ post) Hall) as [Hok _].
  destruct (Hok Hfit) as [Henc Hdec].
  exists (wire_name labels ++ fixed ++ rdata).
  assert (length fixed = 10) as Hfixed by done.
  split; [|split].
  - unfold ResourceRecord_encode, rr, fixed.
    cbn [name_ type_ rclass_ ttl_ rdata_]. rewrite Henc.
    cbn [mbind exec_bind]. by rewrite <- !app_assoc.
  - rewrite !length_app, Hfixed. lia.
  - set (front := pre ++ wire_name labels).
    set (tail := fixed ++ rdata ++ post).
    assert (pre ++ (wire_name labels ++ fixed ++ rdata) ++ post
            = front ++ tail) as ->.
    { unfold front, tail. by rewrite <- !app_assoc. }
    assert (pre ++ wire_name labels ++ fixed ++ rdata ++ post
            = front ++ tail) as Hd by (unfold front; by rewrite <- app_assoc).
    rewrite Hd, <- length_app in Hdec. fold front in Hdec.
    unfold ResourceRecord_decode. rewrite Hdec. cbn [mbind exec_bind].
    assert (length front = length pre + length (wire_name labels)) as Hf
      by (unfold front; by rewrite length_app).
    assert (length tail = 10 + length rdata + length post) as Htail.
    { unfold tail. rewrite !length_app, Hfixed. lia. }
    rewrite bool_decide_eq_false_2 by (rewrite length_app; lia).
    pose proof (be32_write32 ttl Httl) as Hbe32.
    rewrite rd_app_0, !rd_app_r.
    unfold tail, fixed, rd, write16 in *. unfold write32 in *.
    cbn [app lookup list_lookup Nat.add mbind exec_bind].
    cbv zeta. unfold u16. rewrite (Z.mod_small (Z.of_nat (length rdata))) by lia.
    rewrite (be16_write16 type), (be16_write16 rclass) by done.
    rewrite (be16_write16 (Z.of_nat (length rdata))) by lia.
    rewrite Hbe32, Nat2Z.id.
    rewrite bool_decide_eq_false_2.
    2: { rewrite length_app. cbn [length app]. rewrite length_app. lia. }
    rewrite rd_range_app_r.
    match goal with
    | |- context [rd_range (?a :: ?b :: ?c :: ?d :: ?e :: ?f :: ?g :: ?h
                            :: ?i :: ?j :: rdata ++ post) 10 _] =>
        rewrite (rd_range_app [a; b; c; d; e; f; g; h; i; j] rdata post
                 : rd_range (a :: b :: c :: d :: e :: f :: g :: h :: i :: j
                             :: rdata ++ post) 10 (length rdata) = Ret rdata)
    end.
    cbn [mbind exec_bind].
    do 2 f_equal. rewrite ?length_app. cbn [length]. rewrite ?length_app.
    cbn [length]. lia.
Qed.

Lemma ResourceRecord_decode_encode_witness :
  ∃ wire,
    ResourceRecord_encode
      (mk_ResourceRecord (join_labels sub_ads_com) 1 1 60 99
         [x7f; x00; x00; x01]) None 0
      = Ret (wire, None) ∧
    length wire = length (wire_name sub_ads_com) + 10
                  + length [x7f; x00; x00; x01] ∧
    ResourceRecord_decode (s1_header ++ wire ++ []) (length s1_header)
      = Ret (mk_ResourceRecord (join_labels sub_ads_com) 1 1 60
               (Z.of_nat (length [x7f; x00; x00; x01]))
               [x7f; x00; x00; x01],
             length s1_header + length wire).
Proof.
  apply (ResourceRecord_decode_encode sub_ads_com 1 1 60 99
           [x7f; x00; x00; x01] 0 s1_header []).
  - repeat constructor; simpl; lia.
  - simpl. lia.
  - lia.
  - lia.
  - lia.
  - simpl. lia.
Defined.

(** ** Messages: MessageParser::encode, then MessageParser::parse *)

(** a one-question message, encoded and parsed *)
Lemma parse_question_only (h : Header) (labels : list string)
    (qtype qclass : Z) :
  Header_valid (setCounts h 1 0 0 0) →
  Forall label_ok labels → length (wire_name labels) ≤ 255 →
  (0 ≤ qtype < 65536)%Z → (0 ≤ qclass < 65536)%Z →
  let q := mk_Question (join_labels labels) qtype qclass in
  let out := Header_encode (setCounts h 1 0 0 0)
             ++ wire_name labels ++ write16 qtype ++ write16 qclass in
  MessageParser_encode (mk_Message h [q] [] [] []) = Ret out ∧
  parse out = Ret (mk_Message (setCounts h 1 0 0 0) [q] [] [] []).
Proof.
  intros Hv Hall Hfit Ht Hc q out.
  assert (length out = 12 + (length (wire_name labels) + 4)) as Hlen.
  { unfold out. rewrite !length_app, Header_encode_length. done. }
  unfold out in *. clear out.
  set (h1 := setCounts h 1 0 0 0) in *.
  split.
  - unfold MessageParser_encode.
    cbn [header_ questions_ answers_ authority_ additional_ length].
    assert (u16 (Z.of_nat 1) = 1%Z) as -> by reflexivity.
    assert (u16 (Z.of_nat 0) = 0%Z) as -> by reflexivity.
    cbv zeta. fold h1. cbn [encode_section].
    unfold Question_encode, q. cbn [qname_ qtype_ qclass_].
    pose proof (Name_encode_labels labels
                  (u16 (Z.of_nat (length (Header_encode h1))))
                  (Some ∅) Hall) as Henc.
    rewrite bool_decide_eq_false_2 in Henc by lia.
    destruct Henc as (table' & -> & _).
    { intros k [v Hk]. by rewrite lookup_empty in Hk. }
    cbn [mbind exec_bind].
    unfold Limits.MAX_EDNS_PAYLOAD.
    by rewrite bool_decide_eq_false_2 by lia.
  - unfold parse, Limits.MAX_EDNS_PAYLOAD.
    rewrite bool_decide_eq_false_2 by lia.
    rewrite bool_decide_eq_false_2 by lia.
    rewrite (Header_decode_after_encode h1
               (wire_name labels ++ write16 qtype ++ write16 qclass) Hv).
    cbn [mbind exec_bind].
    assert (qdcount_ h1 = 1%Z ∧ ancount_ h1 = 0%Z ∧ nscount_ h1 = 0%Z
            ∧ arcount_ h1 = 0%Z) as (-> & -> & -> & ->) by done.
    assert (Z.to_nat 1 = 1) as -> by reflexivity.
    assert (Z.to_nat 0 = 0) as -> by reflexivity.
    cbn [decode_questions decode_records].
    destruct (Question_round_trip labels qtype qclass 0
                (Header_encode h1) [] Hall Hfit Ht Hc)
      as [_ Hdec].
    cbv zeta in Hdec. rewrite app_nil_r, Header_encode_length in Hdec.
    rewrite Hdec. done.
Qed.



(** ** The header that MessageParser::encode writes *)

Lemma encode_section_grows {T : Type}
    (enc : T → option (gmap string Z) → Z
           → exec (list byte * option (gmap string Z)))
    (items : list T) :
  (∀ x t b bytes t', enc x t b = Ret (bytes, t') → 4 ≤ length bytes) →
  ∀ buf table buf' table',
    encode_section enc items buf table = Ret (buf', table') →
    ∃ more, buf' = buf ++ more ∧ 4 * length items ≤ length more.
Proof.
  intros Henc. induction items as [|x items IH];
    intros buf table buf' table' H; cbn [encode_section] in H.
  - injection H as <- _. exists []. by rewrite app_nil_r.
  - destruct (enc x table _) as [[bytes tb]| | |] eqn:E;
      cbn [mbind exec_bind] in H; try done.
    apply Henc in E. destruct (IH _ _ _ _ H) as (more & -> & Hlen).
    exists (bytes ++ more). rewrite app_assoc, length_app.
    split; [done|]. simpl. lia.
Qed.

Lemma Question_encode_length (q : Question) (t : option (gmap string Z))
    (b : Z) (bytes : list byte) (t' : option (gmap string Z)) :
  Question_encode q t b = Ret (bytes, t') → 4 ≤ length bytes.
Proof.
  unfold Question_encode.
  destruct (Name_encode _ _ _) as [[nb tb]| | |]; cbn [mbind exec_bind];
    try done.
  intros [= <- _]. rewrite !length_app. simpl. lia.
Qed.

Lemma ResourceRecord_encode_length (rr : ResourceRecord)
    (t : option (gmap string Z)) (b : Z) (bytes : list byte)
    (t' : option (gmap string Z)) :
  ResourceRecord_encode rr t b = Ret (bytes, t') → 4 ≤ length bytes.
Proof.
  unfold ResourceRecord_encode.
  destruct (Name_encode _ _ _) as [[nb tb]| | |]; cbn [mbind exec_bind];
    try done.
  intros [= <- _]. rewrite !length_app. simpl. lia.
Qed.

Lemma getRawFlags_setCounts (h : Header) (qd an ns ar : Z) :
  getRawFlags (setCounts h qd an ns ar) = getRawFlags h.
Proof.
  rewrite (getRawFlags_flag_fields h),
    (getRawFlags_flag_fields (setCounts h qd an ns ar)).
  reflexivity.
Qed.

(** the words of a header whose counts were overwritten with section
    lengths *)
Lemma Header_encode_setCounts_words (h : Header) (nq na nn nr : nat)
    (more : list byte) :
  nq ≤ 1024 → na ≤ 1024 → nn ≤ 1024 → nr ≤ 1024 →
  let out := Header_encode (setCounts h (u16 (Z.of_nat nq)) (u16 (Z.of_nat na))
                              (u16 (Z.of_nat nn)) (u16 (Z.of_nat nr)))
             ++ more in
  ((0 ≤ id_ h < 65536)%Z → word_at out 0 = id_ h) ∧
  word_at out 2 = getRawFlags h ∧
  flag_set (word_at out 2) Flags.Z_ = false ∧
  word_at out 4 = Z.of_nat nq ∧ word_at out 6 = Z.of_nat na ∧
  word_at out 8 = Z.of_nat nn ∧ word_at out 10 = Z.of_nat nr.
Proof.
  intros Hq Ha Hn Hr.
  assert (∀ n : nat, n ≤ 1024 → u16 (Z.of_nat n) = Z.of_nat n) as Hu16.
  { intros n Hle. unfold u16. apply Z.mod_small. lia. }
  rewrite !Hu16 by done. cbv zeta.
  generalize (Z.of_nat nq), (Z.of_nat na), (Z.of_nat nn), (Z.of_nat nr),
    (Nat2Z.is_nonneg nq), (Nat2Z.is_nonneg na), (Nat2Z.is_nonneg nn),
    (Nat2Z.is_nonneg nr), (inj_le _ _ Hq), (inj_le _ _ Ha), (inj_le _ _ Hn),
    (inj_le _ _ Hr).
  intros q a n r Hq0 Ha0 Hn0 Hr0 Hq1 Ha1 Hn1 Hr1.
  destruct (Header_encode_words (setCounts h q a n r) more)
    as (Hid & Hf & Hqd & Han & Hns & Har).
  destruct (getRawFlags_bits h) as (_ & Hz & _).
  rewrite Hf, getRawFlags_setCounts, Hz.
  split; [exact Hid|]. split; [done|]. split; [done|].
  split; [apply Hqd; unfold setCounts; cbn [qdcount_]; lia|].
  split; [apply Han; unfold setCounts; cbn [ancount_]; lia|].
  split; [apply Hns; unfold setCounts; cbn [nscount_]; lia|].
  apply Har. unfold setCounts. cbn [arcount_]. lia.
Qed.

(** the header words of an encoded message *)
Lemma MessageParser_encode_ok (msg : Message) (out : list byte) :
  MessageParser_encode msg = Ret out →
  12 ≤ length out ≤ 4096 ∧
  ((0 ≤ id_ (header_ msg) < 65536)%Z → word_at out 0 = id_ (header_ msg)) ∧
  word_at out 2 = getRawFlags (header_ msg) ∧
  flag_set (word_at out 2) Flags.Z_ = false ∧
  word_at out 4 = Z.of_nat (length (questions_ msg)) ∧
  word_at out 6 = Z.of_nat (length (answers_ msg)) ∧
  word_at out 8 = Z.of_nat (length (authority_ msg)) ∧
  word_at out 10 = Z.of_nat (length (additional_ msg)).
Proof.
  unfold MessageParser_encode. cbv zeta. intros H.
  destruct (encode_section Question_encode _ _ _) as [[b1 t1]| | |] eqn:E1;
    cbn [mbind exec_bind] in H; try done.
  destruct (encode_section ResourceRecord_encode (answers_ msg) _ _)
    as [[b2 t2]| | |] eqn:E2; cbn [mbind exec_bind] in H; try done.
  destruct (encode_section ResourceRecord_encode (authority_ msg) _ _)
    as [[b3 t3]| | |] eqn:E3; cbn [mbind exec_bind] in H; try done.
  destruct (encode_section ResourceRecord_encode (additional_ msg) _ _)
    as [[b4 t4]| | |] eqn:E4; cbn [mbind exec_bind] in H; try done.
  case_bool_decide as Hfit; [done|]. injection H as <-.
  unfold Limits.MAX_EDNS_PAYLOAD in Hfit.
  apply (encode_section_grows _ _ Question_encode_length) in E1
    as (m1 & -> & Hm1).
  apply (encode_section_grows _ _ ResourceRecord_encode_length) in E2
    as (m2 & -> & Hm2).
  apply (encode_section_grows _ _ ResourceRecord_encode_length) in E3
    as (m3 & -> & Hm3).
  apply (encode_section_grows _ _ ResourceRecord_encode_length) in E4
    as (m4 & -> & Hm4).
  rewrite !length_app, Header_encode_length in Hfit.
  rewrite <- !app_assoc.
  split.
  { rewrite !length_app, Header_encode_length. lia. }
  apply Header_encode_setCounts_words; lia.
Qed.

(** X10. Whatever [MessageParser::encode] returns has 12 to 4096 bytes; its
    four count words are the lengths of the four section vectors of the
    message (not the counts stored in its header); its flag word is the
    one packed from the header's flag fields, with the reserved Z bit
    clear; its first word is the id of the header when that is a 16-bit
    value. *)
Theorem MessageParser_encode_header (msg : Message) (out : list byte) :
  MessageParser_encode msg = Ret out →
  12 ≤ length out ≤ 4096 ∧
  ((0 ≤ id_ (header_ msg) < 65536)%Z → word_at out 0 = id_ (header_ msg)) ∧
  word_at out 2 = getRawFlags (header_ msg) ∧
  flag_set (word_at out 2) Flags.Z_ = false ∧
  word_at out 4 = Z.of_nat (length (questions_ msg)) ∧
  word_at out 6 = Z.of_nat (length (answers_ msg)) ∧
  word_at out 8 = Z.of_nat (length (authority_ msg)) ∧
  word_at out 10 = Z.of_nat (length (additional_ msg)).
Proof.
  exact (MessageParser_encode_ok msg out).
Qed.

Lemma MessageParser_encode_header_witness :
  12 ≤ length rcode3_query ≤ 4096 ∧
  ((0 ≤ id_ (header_ rcode3_message) < 65536)%Z →
   word_at rcode3_query 0 = id_ (header_ rcode3_message)) ∧
  word_at rcode3_query 2 = getRawFlags (header_ rcode3_message) ∧
  flag_set (word_at rcode3_query 2) Flags.Z_ = false ∧
  word_at rcode3_query 4 = Z.of_nat (length (questions_ rcode3_message)) ∧
  word_at rcode3_query 6 = Z.of_nat (length (answers_ rcode3_message)) ∧
  word_at rcode3_query 8 = Z.of_nat (length (authority_ rcode3_message)) ∧
  word_at rcode3_query 10 = Z.of_nat (length (additional_ rcode3_message)).
Proof.
  apply MessageParser_encode_header. vm_compute. reflexivity.
Defined.

(** ** The header of a blocked response *)

Lemma Header_decode_flags (data : list byte) (h : Header) :
  Header_decode data = Ret h → getRawFlags h = word_at data 2.
Proof.
  destruct (decide (12 ≤ length data)) as [Hlen|Hlen].
  2: { unfold Header_decode. by rewrite bool_decide_eq_true_2 by lia. }
  rewrite Header_decode_words by done. cbv zeta. intros H.
  repeat match type of H with
         | (if ?c then _ else _) = _ => destruct c eqn:?; [done|]
         end.
  injection H as <-. apply getRawFlags_decoded; [apply word_at_range|done].
Qed.

(** the synthesis of a blocked response changes no flag field but QR and
    RA, and keeps the id *)
Lemma blocked_response_flag_fields (msg : Message) (q : Question) :
  let h := header_ msg in
  let h' := header_ (blocked_response msg q) in
  id_ h' = id_ h ∧ qr_ h' = true ∧ ra_ h' = true ∧
  opcode_ h' = opcode_ h ∧ aa_ h' = aa_ h ∧ tc_ h' = tc_ h ∧
  rd_ h' = rd_ h ∧ ad_ h' = ad_ h ∧ cd_ h' = cd_ h ∧ rcode_ h' = rcode_ h.
Proof.
  unfold blocked_response. cbv zeta. by case_bool_decide.
Qed.

(** ** Name::encode on any name *)

Lemma encode_label_outcome (name : string) (buf : list byte) (pos : nat)
    (table : option (gmap string Z)) :
  match encode_label name buf pos table with
  | Ret _ => True
  | Unexpected e => e = ENCODE_LABEL_TOO_LONG ∨ e = ENCODE_NAME_TOO_LONG
  | OutOfBounds | OutOfFuel => False
  end.
Proof.
  unfold encode_label. cbv zeta.
  case_bool_decide.
  - case_bool_decide; [by right|done].
  - destruct (_ || _); [by left|done].
Qed.

(** the loop of [Name::encode] ends within one round per character left
    and one more, with a result or one of the two encode errors *)
Lemma encode_loop_outcome (name : string) (baseOffset : Z) (fuel : nat)
    (st : estate) :
  String.length name - e_pos st < fuel →
  match encode_loop fuel name baseOffset st with
  | Ret (buf, table') =>
      1 ≤ length buf ∧
      (is_Some (e_table st) ↔ is_Some table') ∧
      (e_table st = None → length buf ≤ 255 ∧ last buf = Some x00)
  | Unexpected e => e = ENCODE_LABEL_TOO_LONG ∨ e = ENCODE_NAME_TOO_LONG
  | OutOfBounds | OutOfFuel => False
  end.
Proof.
  revert st. induction fuel as [|fuel IH]; intros st Hfuel; [lia|].
  cbn [encode_loop]. unfold encode_step. cbv zeta.
  assert (∀ tbl : option (gmap string Z),
    (is_Some (e_table st) ↔ is_Some tbl) → (e_table st = None → tbl = None) →
    match
      r ← encode_label name (e_buf st) (e_pos st) tbl;
      match r with
      | Continue st' => encode_loop fuel name baseOffset st'
      | Break res => Ret res
      end
    with
    | Ret (buf, table') =>
        1 ≤ length buf ∧
        (is_Some (e_table st) ↔ is_Some table') ∧
        (e_table st = None → length buf ≤ 255 ∧ last buf = Some x00)
    | Unexpected e => e = ENCODE_LABEL_TOO_LONG ∨ e = ENCODE_NAME_TOO_LONG
    | OutOfBounds | OutOfFuel => False
    end) as Hlabel.
  { intros tbl Hsome Hnone.
    pose proof (encode_label_outcome name (e_buf st) (e_pos st) tbl) as Hout.
    destruct (encode_label name (e_buf st) (e_pos st) tbl) as [r|e| |] eqn:Hlab;
      cbn [mbind exec_bind]; try done.
    apply encode_label_cases in Hlab
      as [(Hend & -> & Hlen) | (Hpos & buf' & pos' & -> & Hpos' & _)].
    - rewrite length_app. cbn [length]. split; [lia|]. split; [done|].
      intros _. split; [lia|]. apply last_snoc.
    - specialize (IH (mk_estate buf' pos' tbl)). cbn [e_pos e_table] in IH.
      specialize (IH ltac:(lia)).
      destruct (encode_loop fuel name baseOffset _) as [[buf tb]|e| |];
        try done.
      destruct IH as (H1 & H2 & H3). split; [done|]. split.
      + by rewrite Hsome.
      + intros Hn. apply H3. by apply Hnone. }
  destruct (e_table st) as [t|] eqn:Ht.
  - destruct (t !! str_drop (e_pos st) name) as [ptr|].
    + cbn [mbind exec_bind]. rewrite length_app. cbn [pointer_bytes length].
      split; [lia|]. split; [done|]. done.
    + apply Hlabel; [|done]. split; intros _; by eexists.
  - by apply Hlabel.
Qed.

(** X13. [Name::encode] always returns: a result of at least one byte, or
    [ENCODE_LABEL_TOO_LONG] or [ENCODE_NAME_TOO_LONG]. It hands back a table
    exactly when it was given one. Without a table the result has at most
    255 bytes and ends with the zero byte of the root. *)
Theorem Name_encode_outcomes (name : string) (table : option (gmap string Z))
    (baseOffset : Z) :
  match Name_encode name table baseOffset with
  | Ret (buf, table') =>
      1 ≤ length buf ∧ (is_Some table ↔ is_Some table') ∧
      (table = None → length buf ≤ 255 ∧ last buf = Some x00)
  | Unexpected e => e = ENCODE_LABEL_TOO_LONG ∨ e = ENCODE_NAME_TOO_LONG
  | OutOfBounds | OutOfFuel => False
  end.
Proof.
  unfold Name_encode.
  apply (encode_loop_outcome name baseOffset _ (mk_estate [] 0 table)).
  cbn [e_pos]. lia.
Qed.

(** ** Compression across the records of a message *)

(** a run of the loop leaves alone the table entries whose keys are longer
    than what remained of the name *)
Lemma encode_loop_table_keeps (name : string) (baseOffset : Z) (fuel : nat)
    (st : estate) (t : gmap string Z)
    (buf : list byte) (tbl : option (gmap string Z)) :
  e_table st = Some t →
  encode_loop fuel name baseOffset st = Ret (buf, tbl) →
  ∃ t', tbl = Some t' ∧
        ∀ k, String.length (str_drop (e_pos st) name) < String.length k →
             t' !! k = t !! k.
Proof.
  revert st t. induction fuel as [|fuel IH]; intros st t Ht Hrun; [done|].
  cbn [encode_loop] in Hrun. unfold encode_step in Hrun. cbv zeta in Hrun.
  rewrite Ht in Hrun.
  destruct (t !! str_drop (e_pos st) name) as [ptr|] eqn:Hhit.
  { cbn [mbind exec_bind] in Hrun. injection Hrun as <- <-. by exists t. }
  destruct (encode_label name (e_buf st) (e_pos st) _) as [r| | |] eqn:Hlab;
    cbn [mbind exec_bind] in Hrun; try done.
  apply encode_label_cases in Hlab
    as [(Hend & -> & Hlen) | (Hpos & buf' & pos' & -> & Hpos' & _)].
  - injection Hrun as <- <-. eexists. split; [done|].
    intros k Hk. apply lookup_insert_ne. intros <-. lia.
  - edestruct IH as (t' & -> & Hkeep); [|exact Hrun|]; [reflexivity|].
    exists t'. split; [done|]. intros k Hk. cbn [e_pos] in Hkeep.
    rewrite Hkeep by (rewrite str_drop_length in *; lia).
    apply lookup_insert_ne. intros <-. lia.
Qed.

(** a name that the table does not hold is registered at the offset where
    its encoding starts *)
Lemma Name_encode_registers (name : string) (baseOffset : Z)
    (t : gmap string Z) (buf : list byte) (tbl : option (gmap string Z)) :
  t !! name = None →
  Name_encode name (Some t) baseOffset = Ret (buf, tbl) →
  ∃ t', tbl = Some t' ∧ t' !! name = Some (u16 baseOffset).
Proof.
  intros Hmiss. unfold Name_encode.
  replace (String.length name + 2) with (S (String.length name + 1)) by lia.
  cbn [encode_loop]. unfold encode_step. cbv zeta.
  cbn [e_table e_pos e_buf str_drop length]. rewrite Hmiss.
  rewrite Z.add_0_r.
  destruct (encode_label name [] 0 _) as [r| | |] eqn:Hlab;
    cbn [mbind exec_bind]; try done.
  apply encode_label_cases in Hlab
    as [(Hend & -> & Hlen) | (Hpos & buf' & pos' & -> & Hpos' & _)].
  - intros [= <- <-]. eexists. split; [done|]. apply lookup_insert_eq.
  - intros Hrun.
    edestruct encode_loop_table_keeps as (t' & -> & Hkeep);
      [|exact Hrun|]; [reflexivity|].
    exists t'. split; [done|]. cbn [e_pos] in Hkeep.
    rewrite Hkeep by (rewrite str_drop_length; lia).
    apply lookup_insert_eq.
Qed.

(** a name that the table holds is encoded as a pointer, and nothing else *)
Lemma Name_encode_hit (name : string) (baseOffset ptr : Z)
    (t : gmap string Z) :
  t !! name = Some ptr →
  Name_encode name (Some t) baseOffset = Ret (pointer_bytes ptr, Some t).
Proof.
  intros Hhit. unfold Name_encode.
  replace (String.length name + 2) with (S (String.length name + 1)) by lia.
  cbn [encode_loop]. unfold encode_step. cbv zeta.
  cbn [e_table e_pos e_buf str_drop]. by rewrite Hhit.
Qed.

(** ** A blocked query, from the datagram received to the datagram sent *)

(** the reply to a well-formed query for a listed name, with the parser
    given the datagram and nothing else *)
Lemma blocked_query_reply_datagram (blocklist : gset string) (h : Header)
    (labels : list string) (qtype qclass : Z) :
  Header_valid (setCounts h 1 0 0 0) →
  Forall label_ok labels → length (wire_name labels) ≤ 255 →
  (0 ≤ qtype < 65536)%Z → (0 ≤ qclass < 65536)%Z →
  search blocklist (join_labels labels) = Ret true →
  let question := wire_name labels ++ write16 qtype ++ write16 qclass in
  let query := Header_encode (setCounts h 1 0 0 0) ++ question in
  let rdlen := if bool_decide (qtype = QType.AAAA) then 16%Z else 4%Z in
  let answer :=
    if bool_decide (qtype = QType.HTTPS) then []
    else [xc0; x0c] ++ write16 qtype ++ write16 qclass ++ write32 0
         ++ write16 rdlen ++ replicate (Z.to_nat rdlen) x00 in
  let reply_header :=
    setCounts (setRa (setQr h true) true)
              1 (if bool_decide (qtype = QType.HTTPS) then 0 else 1) 0 0 in
  handleQuery blocklist query
    = Ret ([SendToClient (Header_encode reply_header ++ question ++ answer)],
           OK).
Proof.
  intros Hv Hall Hfit Ht Hc Hhit question query rdlen answer reply_header.
  assert (length question = length (wire_name labels) + 4) as Hqlen.
  { unfold question. rewrite !length_app. done. }
  assert (length query = 12 + length question) as Hlen.
  { unfold query. by rewrite length_app, Header_encode_length. }
  destruct (parse_question_only h labels qtype qclass Hv Hall Hfit Ht Hc)
    as [_ Hparse].
  cbv zeta in Hparse. fold question query in Hparse.
  unfold handleQuery. rewrite bool_decide_eq_false_2 by lia.
  rewrite Hparse. cbn [questions_ handle_questions qname_].
  rewrite Hhit. cbn [mbind exec_bind].
  assert (Header_valid (setCounts (setRa (setQr h true) true) 1 0 0 0)) as Hv'.
  { destruct Hv as ([? ?] & ? & [? ?] & ? & ? & ? & ? & ?).
    repeat split; done. }
  unfold send_blocked, blocked_response. cbv zeta.
  cbn [header_ with_header qtype_ qname_ qclass_].
  unfold answer, reply_header. case_bool_decide as Hhttps.
  - destruct (parse_question_only (setRa (setQr h true) true)
                labels qtype qclass Hv' Hall Hfit Ht Hc) as [Henc _].
    cbv zeta in Henc. fold question in Henc.
    unfold with_header.
    cbn [header_ questions_ answers_ authority_ additional_].
    match goal with |- context [MessageParser_encode ?m] =>
      assert (MessageParser_encode m
              = Ret (Header_encode (setCounts (setRa (setQr h true) true) 1 0 0 0)
                     ++ question)) as ->
    end.
    { exact Henc. }
    rewrite app_nil_r.
    rewrite bool_decide_eq_false_2; [done|].
    rewrite length_app, Header_encode_length.
    unfold Limits.MAX_EDNS_PAYLOAD. lia.
  - fold rdlen.
    assert (length (replicate (Z.to_nat rdlen) x00) ≤ 16) as Hrd.
    { rewrite length_replicate. unfold rdlen. case_bool_decide; simpl; lia. }
    assert (u16 (Z.of_nat (length (replicate (Z.to_nat rdlen) x00))) = rdlen)
      as Hrdlen.
    { unfold rdlen. by case_bool_decide. }
    unfold MessageParser_encode, with_header, Message_setAnswers.
    cbn [header_ questions_ answers_ authority_ additional_ length].
    assert (u16 (Z.of_nat 1) = 1%Z) as -> by reflexivity.
    assert (u16 (Z.of_nat 0) = 0%Z) as -> by reflexivity.
    cbv zeta.
    match goal with |- context [Header_encode ?hh] =>
      change hh with (setCounts (setRa (setQr h true) true) 1 1 0 0)
    end.
    set (hr := setCounts (setRa (setQr h true) true) 1 1 0 0).
    cbn [encode_section].
    unfold Question_encode. cbn [qname_ qtype_ qclass_].
    rewrite Header_encode_length.
    assert (u16 (Z.of_nat 12) = 12%Z) as -> by reflexivity.
    pose proof (Name_encode_labels labels 12 (Some ∅) Hall) as Henc.
    rewrite bool_decide_eq_false_2 in Henc by lia.
    destruct Henc as (table' & Henc & _).
    { intros k [v Hk]. by rewrite lookup_empty in Hk. }
    rewrite Henc.
    destruct (Name_encode_registers _ _ _ _ _ (lookup_empty _) Henc)
      as (t' & -> & Hreg).
    cbn [mbind exec_bind].
    unfold ResourceRecord_encode.
    cbn [name_ type_ rclass_ ttl_ rdata_].
    rewrite (Name_encode_hit _ _ _ _ Hreg).
    cbn [mbind exec_bind]. rewrite Hrdlen.
    assert (pointer_bytes (u16 12) = [xc0; x0c]) as -> by reflexivity.
    fold question.
    rewrite bool_decide_eq_false_2.
    2: { rewrite !length_app, Header_encode_length, Hqlen.
         unfold Limits.MAX_EDNS_PAYLOAD, write16, write32. cbn [length].
         lia. }
    rewrite bool_decide_eq_false_2.
    2: { rewrite !length_app, Header_encode_length, Hqlen.
         unfold Limits.MAX_EDNS_PAYLOAD, write16, write32. cbn [length].
         lia. }
    by rewrite <- !app_assoc.
Qed.

(** the fixed fields and the RDATA of a record, read after its owner name
    however that was decoded *)
Lemma ResourceRecord_decode_fields (data front post : list byte)
    (offset offset' : nat) (name : string) (type rclass ttl : Z)
    (rdata : list byte) :
  Name_decode data offset = Ret (name, offset') →
  data = front ++ (write16 type ++ write16 rclass ++ write32 ttl
                   ++ write16 (u16 (Z.of_nat (length rdata))))
               ++ rdata ++ post →
  length front = offset' →
  (0 ≤ type < 65536)%Z → (0 ≤ rclass < 65536)%Z →
  (0 ≤ ttl < 4294967296)%Z → (Z.of_nat (length rdata) < 65536)%Z →
  ResourceRecord_decode data offset
    = Ret (mk_ResourceRecord name type rclass ttl (Z.of_nat (length rdata))
             rdata,
           offset' + 10 + length rdata).
Proof.
  intros Hdec -> <- Ht Hc Httl Hrd.
  set (fixed := write16 type ++ write16 rclass ++ write32 ttl
                ++ write16 (u16 (Z.of_nat (length rdata)))) in *.
  assert (length fixed = 10) as Hfixed by done.
  set (tail := fixed ++ rdata ++ post).
  assert (front ++ fixed ++ rdata ++ post = front ++ tail) as Hd by done.
  rewrite Hd in *.
  unfold ResourceRecord_decode. rewrite Hdec. cbn [mbind exec_bind].
  assert (length tail = 10 + length rdata + length post) as Htail.
  { unfold tail. rewrite !length_app, Hfixed. lia. }
  rewrite bool_decide_eq_false_2 by (rewrite length_app; lia).
  pose proof (be32_write32 ttl Httl) as Hbe32.
  rewrite rd_app_0, !rd_app_r.
  unfold tail, fixed, rd, write16 in *. unfold write32 in *.
  cbn [app lookup list_lookup Nat.add mbind exec_bind].
  cbv zeta. unfold u16. rewrite (Z.mod_small (Z.of_nat (length rdata))) by lia.
  rewrite (be16_write16 type), (be16_write16 rclass) by done.
  rewrite (be16_write16 (Z.of_nat (length rdata))) by lia.
  rewrite Hbe32, Nat2Z.id.
  rewrite bool_decide_eq_false_2.
  2: { rewrite length_app. cbn [length app]. rewrite length_app. lia. }
  rewrite rd_range_app_r.
  match goal with
  | |- context [rd_range (?a :: ?b :: ?c :: ?d :: ?e :: ?f :: ?g :: ?h
                          :: ?i :: ?j :: rdata ++ post) 10 _] =>
      rewrite (rd_range_app [a; b; c; d; e; f; g; h; i; j] rdata post
               : rd_range (a :: b :: c :: d :: e :: f :: g :: h :: i :: j
                           :: rdata ++ post) 10 (length rdata) = Ret rdata)
  end.
  cbn [mbind exec_bind]. done.
Qed.

(** the bytes of that reply, parsed *)
Lemma blocked_reply_bytes_parse (h : Header) (labels : list string)
    (qtype qclass : Z) :
  Header_valid (setCounts h 1 0 0 0) →
  Forall label_ok labels → length (wire_name labels) ≤ 255 →
  (0 ≤ qtype < 65536)%Z → (0 ≤ qclass < 65536)%Z →
  qtype ≠ QType.HTTPS →
  let name := join_labels labels in
  let rdlen := if bool_decide (qtype = QType.AAAA) then 16 else 4 in
  let reply :=
    Header_encode (setCounts (setRa (setQr h true) true) 1 1 0 0)
    ++ (wire_name labels ++ write16 qtype ++ write16 qclass)
    ++ [xc0; x0c] ++ write16 qtype ++ write16 qclass ++ write32 0
    ++ write16 (Z.of_nat rdlen) ++ replicate rdlen x00 in
  parse reply
    = Ret (mk_Message (setCounts (setRa (setQr h true) true) 1 1 0 0)
             [mk_Question name qtype qclass]
             [mk_ResourceRecord name qtype qclass 0 (Z.of_nat rdlen)
                (replicate rdlen x00)]
             [] []).
Proof.
  intros Hv Hall Hfit Ht Hc Hhttps name rdlen reply.
  set (hr := setCounts (setRa (setQr h true) true) 1 1 0 0) in *.
  set (question := wire_name labels ++ write16 qtype ++ write16 qclass) in *.
  set (fields := write16 qtype ++ write16 qclass ++ write32 0
                 ++ write16 (Z.of_nat rdlen)).
  set (rdata := replicate rdlen x00) in *.
  assert (length rdata = rdlen) as Hrdata by apply length_replicate.
  assert (rdlen ≤ 16) as Hrdlen by (unfold rdlen; case_bool_decide; lia).
  assert (length question = length (wire_name labels) + 4) as Hqlen.
  { unfold question. rewrite !length_app. done. }
  assert (reply = Header_encode hr ++ question ++ [xc0; x0c] ++ fields ++ rdata)
    as Hreply.
  { unfold reply, fields. by rewrite <- !app_assoc. }
  assert (length fields = 10) as Hfields by done.
  assert (length reply = 12 + length question + 2 + 10 + rdlen) as Hlen.
  { rewrite Hreply, !length_app, Header_encode_length, Hfields, Hrdata.
    cbn [length]. lia. }
  assert (Header_valid hr) as Hv'.
  { destruct Hv as ([? ?] & ? & [? ?] & ? & ? & ? & ? & ?).
    repeat split; done. }
  clearbody reply. subst reply.
  unfold parse.
  rewrite bool_decide_eq_false_2 by lia.
  rewrite bool_decide_eq_false_2 by (unfold Limits.MAX_EDNS_PAYLOAD; lia).
  rewrite (Header_decode_after_encode hr _ Hv').
  cbn [mbind exec_bind].
  assert (qdcount_ hr = 1%Z ∧ ancount_ hr = 1%Z ∧ nscount_ hr = 0%Z
          ∧ arcount_ hr = 0%Z) as (-> & -> & -> & ->) by done.
  assert (Z.to_nat 1 = 1) as -> by reflexivity.
  assert (Z.to_nat 0 = 0) as -> by reflexivity.
  cbn [decode_questions decode_records].
  destruct (Question_round_trip labels qtype qclass 0
              (Header_encode hr) ([xc0; x0c] ++ fields ++ rdata)
              Hall Hfit Ht Hc) as [_ Hdec].
  cbv zeta in Hdec. fold question in Hdec.
  rewrite Header_encode_length in Hdec.
  rewrite Hdec. cbn [mbind exec_bind].
  rewrite (ResourceRecord_decode_fields _
             (Header_encode hr ++ question ++ [xc0; x0c]) []
             (12 + length question) (12 + length question + 2)
             name qtype qclass 0 rdata).
  - cbn [mbind exec_bind]. by rewrite Hrdata.
  - assert (Forall (λ l, 1 ≤ String.length l ≤ 63) labels) as Hall'.
    { eapply Forall_impl; [exact Hall|]. by intros l [? _]. }
    assert (String.length (join_labels labels) ≤ 255) as Hname.
    { destruct labels as [|l rest]; [simpl; lia|].
      pose proof (join_labels_length (l :: rest) ltac:(done)). lia. }
    apply (Name_decode_via_pointer _ (Header_encode hr)
             (write16 qtype ++ write16 qclass ++ [xc0; x0c] ++ fields ++ rdata)
             labels _ xc0 x0c); try done.
    + unfold question. by rewrite <- !app_assoc.
    + rewrite lookup_app_r by (rewrite Header_encode_length; lia).
      rewrite Header_encode_length.
      replace (12 + length question - 12) with (length question + 0) by lia.
      by rewrite lookup_app_r, Nat.add_0_r, Nat.sub_diag by lia.
    + rewrite lookup_app_r by (rewrite Header_encode_length; lia).
      rewrite Header_encode_length.
      replace (12 + length question + 1 - 12) with (length question + 1) by lia.
      rewrite lookup_app_r by lia.
      by replace (length question + 1 - length question) with 1 by lia.
  - rewrite Hrdata, app_nil_r. unfold fields, u16.
    rewrite Z.mod_small by lia. by rewrite <- !app_assoc.
  - rewrite !length_app, Header_encode_length. cbn [length]. lia.
  - done.
  - done.
  - lia.
  - rewrite Hrdata. lia.
Qed.

(** ** The denylist: Listener::search and Listener::loadBlocklist *)

Lemma tolower_idemp (c : ascii) : tolower (tolower c) = tolower c.
Proof. by destruct c as [[] [] [] [] [] [] [] []]. Qed.

Lemma tolower_url_char (c : ascii) :
  str_mem (tolower c) "/?:#" = str_mem c "/?:#".
Proof. by destruct c as [[] [] [] [] [] [] [] []]. Qed.

Lemma str_map_tolower_idemp (s : string) :
  str_map tolower (str_map tolower s) = str_map tolower s.
Proof.
  induction s as [|c s IH]; [done|]. cbn [str_map].
  by rewrite tolower_idemp, IH.
Qed.

Lemma str_map_app (f : ascii → ascii) (s t : string) :
  str_map f (s ++ t) = (str_map f s ++ str_map f t)%string.
Proof.
  induction s as [|c s IH]; [done|]. str_simpl. cbn [str_map]. str_simpl.
  by rewrite IH.
Qed.

Lemma find_first_of_tolower (s : string) :
  str_find_first_of "/?:#" (str_map tolower s) = str_find_first_of "/?:#" s.
Proof.
  induction s as [|c s IH]; [done|]. cbn [str_map str_find_first_of].
  by rewrite tolower_url_char, IH.
Qed.

Lemma find_first_of_take (chars s : string) (pos : nat) :
  str_find_first_of chars s = Some pos →
  str_find_first_of chars (str_take pos s) = None.
Proof.
  revert pos. induction s as [|c s IH]; intros pos H; [done|].
  cbn [str_find_first_of] in H. destruct (str_mem c chars) eqn:E.
  - by injection H as <-.
  - destruct (str_find_first_of chars s) as [i|]; [|done].
    injection H as <-. cbn [str_take str_find_first_of]. rewrite E.
    by rewrite (IH i).
Qed.

Lemma find_first_of_app (chars s t : string) :
  str_find_first_of chars (s ++ t) = None →
  str_find_first_of chars s = None ∧ str_find_first_of chars t = None.
Proof.
  induction s as [|c s IH]; [done|]. str_simpl. cbn [str_find_first_of].
  destruct (str_mem c chars); [done|].
  destruct (str_find_first_of chars (s ++ t)) as [i|]; [done|].
  intros _. destruct IH as [-> ->]; done.
Qed.

Lemma str_map_app_fixed (f : ascii → ascii) (s t : string) :
  str_map f (s ++ t) = (s ++ t)%string → str_map f t = t.
Proof.
  induction s as [|c s IH]; [done|]. str_simpl. cbn [str_map].
  intros [= _ H]. by apply IH.
Qed.

(** a string without [:] holds no [://] *)
Lemma no_url_char_no_schema (s : string) :
  str_find_first_of "/?:#" s = None → str_find "://" s = None.
Proof.
  induction s as [|c s IH]; [done|]. cbn [str_find_first_of].
  destruct (str_mem c "/?:#") eqn:E; [done|].
  destruct (str_find_first_of "/?:#" s) as [i|]; [done|]. intros _.
  cbn [str_find String.prefix].
  destruct (ascii_dec ":" c) as [<-|_]; [done|].
  by rewrite IH.
Qed.

Lemma normalize_clean (domain : string) : clean (normalize domain).
Proof.
  unfold clean, normalize. rewrite find_first_of_tolower, str_map_tolower_idemp.
  split; [|done]. unfold stripPathAndQuery.
  destruct (str_find_first_of "/?:#" (stripSchema domain)) as [pos|] eqn:E;
    [|done].
  by apply find_first_of_take.
Qed.

Lemma normalize_no_url_char (s : string) :
  str_find_first_of "/?:#" s = None → normalize s = str_map tolower s.
Proof.
  intros H. unfold normalize, stripSchema, stripPathAndQuery.
  rewrite (no_url_char_no_schema s H). by rewrite H.
Qed.

Lemma label_suffix_clean (s t : string) :
  label_suffix s t → clean t → clean s.
Proof.
  intros [-> | [pre ->]]; [done|]. intros [Hf Hm].
  apply find_first_of_app in Hf as [_ Hf].
  apply (find_first_of_app _ "." s) in Hf as [_ Hf].
  apply str_map_app_fixed in Hm. apply (str_map_app_fixed _ "." s) in Hm.
  done.
Qed.

(** X16. The normalisation of [search] is idempotent, and the strings it
    leaves alone are the clean ones: those without any of [/ ? : #] and
    without upper-case letters. *)
Theorem normalize_fixpoints (s : string) :
  normalize (normalize s) = normalize s ∧ (normalize s = s ↔ clean s).
Proof.
  assert (∀ t, clean t → normalize t = t) as Hfix.
  { intros t [Hf Hm]. by rewrite normalize_no_url_char. }
  split; [apply Hfix, normalize_clean|]. split; [|apply Hfix].
  intros <-. apply normalize_clean.
Qed.

Lemma search_returns_iff (blocklist : gset string) (domain : string) :
  ∃ b : bool,
    search blocklist domain = Ret b ∧
    (b = true ↔ ∃ s, label_suffix s (normalize domain) ∧ clean s
                     ∧ s ∈ blocklist).
Proof.
  unfold search. cbv zeta.
  destruct (search_loop_spec blocklist (String.length (normalize domain) + 1)
              (normalize domain) ltac:(lia)) as (b & Hb & Hiff).
  exists b. split; [done|]. rewrite Hiff. split.
  - intros (s & Hs & Hin). exists s. split; [done|]. split; [|done].
    eapply label_suffix_clean; [done|apply normalize_clean].
  - intros (s & Hs & _ & Hin). by exists s.
Qed.

(** X17. An entry of the denylist that is not clean matches no name: taking
    it out changes no answer of [search]. *)
Theorem search_dead_entry (blocklist : gset string) (entry domain : string) :
  ¬ clean entry →
  search (blocklist ∖ {[ entry ]}) domain = search blocklist domain.
Proof.
  intros Hdirty.
  destruct (search_returns_iff (blocklist ∖ {[ entry ]}) domain)
    as (b1 & -> & H1).
  destruct (search_returns_iff blocklist domain) as (b2 & -> & H2).
  f_equal. apply eq_true_iff_eq. rewrite H1, H2. split.
  - intros (s & Hs & Hc & Hin). exists s. split; [done|]. split; [done|].
    by apply elem_of_difference in Hin as [Hin _].
  - intros (s & Hs & Hc & Hin). exists s. split; [done|]. split; [done|].
    apply elem_of_difference. split; [done|].
    intros ->%elem_of_singleton. done.
Qed.

Lemma search_dead_entry_witness :
  search (({[ "ads.com"; "http://ads.net" ]} : gset string)
          ∖ {[ "http://ads.net"%string ]}) "x.ads.net"
  = search ({[ "ads.com"; "http://ads.net" ]} : gset string) "x.ads.net".
Proof.
  apply search_dead_entry. intros [H _]. vm_compute in H. discriminate H.
Defined.

Lemma loadBlocklist_lines (blocklist : gset string) (lines : list string)
    (s : string) :
  s ∈ foldl (λ bl line, bl ∪ {[ str_map tolower line ]}) blocklist lines ↔
  s ∈ blocklist ∨ ∃ line, line ∈ lines ∧ s = str_map tolower line.
Proof.
  revert blocklist. induction lines as [|l lines IH]; intros blocklist;
    cbn [foldl].
  - split; [by left|]. intros [H | (line & Hin & _)]; [done|].
    by apply elem_of_nil in Hin.
  - rewrite IH, elem_of_union, elem_of_singleton. split.
    + intros [[H | ->] | (line & Hin & ->)].
      * by left.
      * right. exists l. split; [left|done].
      * right. exists line. split; [by right|done].
    + intros [H | (line & Hin & ->)]; [by left; left|].
      apply elem_of_cons in Hin as [-> | Hin]; [by left; right|].
      right. by exists line.
Qed.

Lemma loadBlocklist_spec (blocklist : gset string)
    (files : list (option (list string))) :
  (∀ s, s ∈ (loadBlocklist blocklist files).1 ↔
        s ∈ blocklist ∨
        ∃ line, line ∈ opened_lines files ∧ s = str_map tolower line) ∧
  (loadBlocklist blocklist files).2
    = (if bool_decide (Forall is_Some files) then OK
       else BLOCKER_FILE_NOT_FOUND).
Proof.
  revert blocklist. induction files as [|[lines|] files IH]; intros blocklist;
    cbn [loadBlocklist opened_lines].
  - split; [|done]. intros s. split; [by left|].
    intros [H | (line & Hin & _)]; [done|]. by apply elem_of_nil in Hin.
  - destruct (IH (foldl (λ bl line, bl ∪ {[ str_map tolower line ]})
                    blocklist lines)) as [Hmem Herr].
    split.
    + intros s. rewrite Hmem, loadBlocklist_lines. split.
      * intros [[H | (line & Hin & ->)] | (line & Hin & ->)].
        -- by left.
        -- right. exists line. split; [|done]. apply elem_of_app. by left.
        -- right. exists line. split; [|done]. apply elem_of_app. by right.
      * intros [H | (line & Hin & ->)]; [by left; left|].
        apply elem_of_app in Hin as [Hin | Hin].
        -- left. right. by exists line.
        -- right. by exists line.
    + rewrite Herr. case_bool_decide as H1; case_bool_decide as H2; try done.
      * destruct H2. by constructor.
      * destruct H1. by inversion H2.
  - split.
    + intros s. split; [by left|].
      intros [H | (line & Hin & _)]; [done|]. by apply elem_of_nil in Hin.
    + cbn [snd]. rewrite bool_decide_eq_false_2; [done|].
      intros [[? [=]] _]%Forall_cons.
Qed.

(** X18. [loadBlocklist] adds to the denylist the lines, in lower case, of
    the files that come before the first one it cannot open, and nothing
    else; what the denylist held stays. It returns OK when every file
    opened, else [BLOCKER_FILE_NOT_FOUND], with the lines of the earlier
    files already added. *)
Theorem loadBlocklist_entries (blocklist : gset string)
    (files : list (option (list string))) :
  (∀ s, s ∈ (loadBlocklist blocklist files).1 ↔
        s ∈ blocklist ∨
        ∃ line, line ∈ opened_lines files ∧ s = str_map tolower line) ∧
  (loadBlocklist blocklist files).2
    = (if bool_decide (Forall is_Some files) then OK
       else BLOCKER_FILE_NOT_FOUND).
Proof.
  exact (loadBlocklist_spec blocklist files).
Qed.

(** X19. A name is blocked when a line of a loaded file is, letter case
    apart, that name or a suffix of it at a label boundary: the case of the
    line in the file and the case of the name asked for play no part. *)
Theorem listed_domain_blocked (blocklist : gset string)
    (files : list (option (list string))) (line domain : string) :
  line ∈ opened_lines files →
  str_find_first_of "/?:#" domain = None →
  label_suffix (str_map tolower line) (str_map tolower domain) →
  search (loadBlocklist blocklist files).1 domain = Ret true.
Proof.
  intros Hin Hdom Hsuf. unfold search. cbv zeta.
  rewrite (normalize_no_url_char domain Hdom).
  destruct (search_loop_spec (loadBlocklist blocklist files).1
              (String.length (str_map tolower domain) + 1)
              (str_map tolower domain) ltac:(lia)) as (b & -> & Hiff).
  f_equal. apply Hiff. exists (str_map tolower line). split; [done|].
  apply (loadBlocklist_spec blocklist files). right. by exists line.
Qed.

Lemma listed_domain_blocked_witness :
  search (loadBlocklist ∅ [mixed_case_file]).1 "Track.ADS.example.com"
  = Ret true.
Proof.
  apply (listed_domain_blocked ∅ [mixed_case_file] "Ads.Example.COM").
  - cbn [opened_lines mixed_case_file app]. constructor.
  - reflexivity.
  - right. exists "track"%string. reflexivity.
Defined.

(** ** Outcomes of the encoder *)

Lemma bind_not_OutOfFuel {A B : Type} (m : exec A) (f : A → exec B) :
  m ≠ OutOfFuel → (∀ a, f a ≠ OutOfFuel) → m ≫= f ≠ OutOfFuel.
Proof. destruct m; cbn [mbind exec_bind]; auto. Qed.

Lemma rd_not_OutOfFuel (data : list byte) (i : nat) : rd data i ≠ OutOfFuel.
Proof. unfold rd. by destruct (data !! i). Qed.

Lemma rd_range_not_OutOfFuel (data : list byte) (i n : nat) :
  rd_range data i n ≠ OutOfFuel.
Proof.
  revert i. induction n as [|n IH]; intros i; [done|]. cbn [rd_range].
  apply bind_not_OutOfFuel; [apply rd_not_OutOfFuel|]. intros b.
  apply bind_not_OutOfFuel; [apply IH|done].
Qed.

Lemma Name_encode_outcome (name : string) (table : option (gmap string Z))
    (baseOffset : Z) :
  encode_outcome (Name_encode name table baseOffset).
Proof.
  pose proof (encode_loop_outcome name baseOffset (String.length name + 2)
                (mk_estate [] 0 table)) as H.
  cbn [e_pos] in H. specialize (H ltac:(lia)). unfold Name_encode.
  destruct (encode_loop _ _ _ _) as [[buf t]|e| |]; try done.
  unfold encode_outcome. tauto.
Qed.

Lemma encode_outcome_bind {A B : Type} (m : exec A) (f : A → exec B) :
  encode_outcome m → (∀ a, encode_outcome (f a)) → encode_outcome (m ≫= f).
Proof. destruct m; cbn [mbind exec_bind]; auto. Qed.

Lemma Question_encode_outcome (q : Question) (t : option (gmap string Z))
    (b : Z) :
  encode_outcome (Question_encode q t b).
Proof.
  unfold Question_encode.
  apply encode_outcome_bind; [apply Name_encode_outcome|]. by intros [buf tb].
Qed.

Lemma ResourceRecord_encode_outcome (rr : ResourceRecord)
    (t : option (gmap string Z)) (b : Z) :
  encode_outcome (ResourceRecord_encode rr t b).
Proof.
  unfold ResourceRecord_encode.
  apply encode_outcome_bind; [apply Name_encode_outcome|]. by intros [buf tb].
Qed.

Lemma encode_section_outcome {T : Type}
    (enc : T → option (gmap string Z) → Z
           → exec (list byte * option (gmap string Z)))
    (items : list T) (buf : list byte) (table : option (gmap string Z)) :
  (∀ x t b, encode_outcome (enc x t b)) →
  encode_outcome (encode_section enc items buf table).
Proof.
  intros Henc. revert buf table.
  induction items as [|x items IH]; intros buf table; [done|].
  cbn [encode_section].
  apply encode_outcome_bind; [apply Henc|]. intros [bytes tb]. apply IH.
Qed.

Lemma MessageParser_encode_outcome (msg : Message) :
  encode_outcome (MessageParser_encode msg).
Proof.
  unfold MessageParser_encode. cbv zeta.
  apply encode_outcome_bind;
    [apply encode_section_outcome, Question_encode_outcome|].
  intros [buf1 t1].
  apply encode_outcome_bind;
    [apply encode_section_outcome, ResourceRecord_encode_outcome|].
  intros [buf2 t2].
  apply encode_outcome_bind;
    [apply encode_section_outcome, ResourceRecord_encode_outcome|].
  intros [buf3 t3].
  apply encode_outcome_bind;
    [apply encode_section_outcome, ResourceRecord_encode_outcome|].
  intros [buf4 t4].
  case_bool_decide; [|done]. unfold encode_outcome. tauto.
Qed.

(** ** The decoders inside a buffer *)

Lemma rd_take (mem : list byte) (len i : nat) :
  i < len → rd (take len mem) i = rd mem i.
Proof. intros H. unfold rd. by rewrite lookup_take_lt. Qed.

Lemma rd_range_take (mem : list byte) (len n i : nat) :
  i + n ≤ len → rd_range (take len mem) i n = rd_range mem i n.
Proof.
  revert i. induction n as [|n IH]; intros i H; [done|].
  cbn [rd_range]. rewrite rd_take by lia. by rewrite IH by lia.
Qed.

Lemma rd16_take (mem : list byte) (len i : nat) :
  i + 1 < len → rd16 (take len mem) i = rd16 mem i.
Proof. intros H. unfold rd16. by rewrite !rd_take by lia. Qed.

(** [Name::decode] reads nothing at or after [len] *)
Lemma decode_step_in_take (mem : list byte) (len : nat) (st : dstate) :
  len ≤ length mem →
  decode_step_in mem len st = decode_step (take len mem) st.
Proof.
  intros Hlen. unfold decode_step_in, decode_step. cbv zeta.
  rewrite length_take_le by done.
  case_bool_decide; [done|]. rewrite (rd_take mem len (d_pos st)) by lia.
  destruct (rd mem (d_pos st)) as [b| | |]; cbn [mbind exec_bind]; try done.
  case_bool_decide; [done|]. case_bool_decide.
  - case_bool_decide; [done|].
    by rewrite (rd_take mem len (d_pos st + 1)) by lia.
  - case_bool_decide; [done|]. case_bool_decide; [done|].
    by rewrite rd_range_take by lia.
Qed.

Lemma decode_loop_in_take (mem : list byte) (len fuel : nat) (st : dstate) :
  len ≤ length mem →
  decode_loop_in fuel mem len st = decode_loop fuel (take len mem) st.
Proof.
  intros Hlen. revert st. induction fuel as [|fuel IH]; intros st; [done|].
  cbn [decode_loop_in decode_loop]. rewrite decode_step_in_take by done.
  destruct (decode_step (take len mem) st) as [[st'|res]| | |];
    cbn [mbind exec_bind]; try done.
Qed.

Lemma Name_decode_in_take (mem : list byte) (len offset : nat) :
  len ≤ length mem →
  Name_decode_in mem len offset = Name_decode (take len mem) offset.
Proof.
  intros Hlen. unfold Name_decode_in, Name_decode.
  rewrite length_take_le by done. by apply decode_loop_in_take.
Qed.

Lemma Question_decode_in_take (mem : list byte) (len offset : nat) :
  len ≤ length mem →
  Question_decode_in mem len offset = Question_decode (take len mem) offset.
Proof.
  intros Hlen. unfold Question_decode_in, Question_decode.
  rewrite Name_decode_in_take, length_take_le by done.
  destruct (Name_decode (take len mem) offset) as [[name off]| | |];
    cbn [mbind exec_bind]; try done.
  case_bool_decide; [done|].
  rewrite (rd_take mem len off), (rd_take mem len (off + 1)),
    (rd_take mem len (off + 2)), (rd_take mem len (off + 3)) by lia.
  done.
Qed.

Lemma Header_decode_in_take (mem : list byte) (len : nat) :
  len ≤ length mem → Header_decode_in mem len = Header_decode (take len mem).
Proof.
  intros Hlen. unfold Header_decode_in, Header_decode.
  rewrite length_take_le by done.
  case_bool_decide; [done|].
  rewrite (rd16_take mem len 0), (rd16_take mem len 2), (rd16_take mem len 4),
    (rd16_take mem len 6), (rd16_take mem len 8), (rd16_take mem len 10) by lia.
  done.
Qed.

Lemma decode_questions_in_take (mem : list byte) (len n offset : nat) :
  len ≤ length mem →
  decode_questions_in mem len n offset
  = decode_questions (take len mem) n offset.
Proof.
  intros Hlen. revert offset. induction n as [|n IH]; intros offset; [done|].
  cbn [decode_questions_in decode_questions].
  rewrite Question_decode_in_take by done.
  destruct (Question_decode (take len mem) offset) as [[q off]| | |];
    cbn [mbind exec_bind]; try done.
  by rewrite IH.
Qed.

(** [ResourceRecord::decode] inside a buffer, as a function of what
    [Name::decode] returns and of the words of the record *)
Lemma ResourceRecord_decode_in_words (mem : list byte) (len offset : nat) :
  len ≤ length mem →
  ResourceRecord_decode_in mem len offset =
    '(name, off) ← Name_decode (take len mem) offset;
    if bool_decide (len < off + 10) then Unexpected PARSE_TRUNCATED else
    let rdlength := word_at mem (off + 8) in
    if bool_decide (len < off + Z.to_nat rdlength)
    then Unexpected PARSE_TRUNCATED else
    rdata ← rd_range mem (off + 10) (Z.to_nat rdlength);
    Ret (mk_ResourceRecord name (word_at mem off) (word_at mem (off + 2))
           (match rd_range mem (off + 4) 4 with
            | Ret [l3; l2; l1; l0] => be32 l3 l2 l1 l0
            | _ => 0%Z
            end)
           rdlength rdata,
         off + 10 + Z.to_nat rdlength).
Proof.
  intros Hlen. unfold ResourceRecord_decode_in.
  rewrite Name_decode_in_take by done.
  destruct (Name_decode (take len mem) offset) as [[name off]| | |];
    cbn [mbind exec_bind]; try done.
  case_bool_decide as Hfix; [done|].
  unfold word_at, rd16. cbn [rd_range].
  replace (off + 2 + 1) with (off + 3) by lia.
  replace (off + 8 + 1) with (off + 9) by lia.
  replace (S (off + 4)) with (off + 5) by lia.
  replace (S (off + 5)) with (off + 6) by lia.
  replace (S (off + 6)) with (off + 7) by lia.
  destruct (rd_in_bounds mem off) as (t0 & _ & ->); [lia|].
  destruct (rd_in_bounds mem (off + 1)) as (t1 & _ & ->); [lia|].
  destruct (rd_in_bounds mem (off + 2)) as (c0 & _ & ->); [lia|].
  destruct (rd_in_bounds mem (off + 3)) as (c1 & _ & ->); [lia|].
  destruct (rd_in_bounds mem (off + 4)) as (l3 & _ & ->); [lia|].
  destruct (rd_in_bounds mem (off + 5)) as (l2 & _ & ->); [lia|].
  destruct (rd_in_bounds mem (off + 6)) as (l1 & _ & ->); [lia|].
  destruct (rd_in_bounds mem (off + 7)) as (l0 & _ & ->); [lia|].
  destruct (rd_in_bounds mem (off + 8)) as (r0 & _ & ->); [lia|].
  destruct (rd_in_bounds mem (off + 9)) as (r1 & _ & ->); [lia|].
  cbn [mbind exec_bind]. done.
Qed.

Lemma rd_range_Ret (data : list byte) (n i : nat) (bytes : list byte) :
  rd_range data i n = Ret bytes →
  length bytes = n ∧ (n = 0 ∨ i + n ≤ length data).
Proof.
  revert i bytes. induction n as [|n IH]; intros i bytes H; cbn [rd_range] in H.
  - injection H as <-. split; [done|]. by left.
  - unfold rd in H. destruct (data !! i) as [b|] eqn:Hb;
      cbn [mbind exec_bind] in H; [|done].
    apply lookup_lt_Some in Hb.
    destruct (rd_range data (S i) n) as [bs| | |] eqn:E;
      cbn [mbind exec_bind] in H; try done.
    injection H as <-. destruct (IH _ _ E) as [Hlen Hin].
    split; [simpl; by rewrite Hlen|]. right. lia.
Qed.

Lemma Name_decode_cursor (data : list byte) (offset : nat)
    (name : string) (off : nat) :
  Name_decode data offset = Ret (name, off) → offset < off ≤ length data.
Proof. apply decode_loop_cursor. unfold cursor_inv. simpl. lia. Qed.

(** what a record decoded inside a buffer satisfies: the guard on RDLENGTH
    is taken at the cursor before the ten fixed bytes, so the record can
    end up to ten bytes after [len] *)
Lemma ResourceRecord_decode_in_cursor (mem : list byte) (len offset : nat)
    (rr : ResourceRecord) (off : nat) :
  len ≤ length mem →
  ResourceRecord_decode_in mem len offset = Ret (rr, off) →
  offset + 10 + length (rdata_ rr) < off ∧ off ≤ len + 10 ∧
  (rdata_ rr = [] ∨ off ≤ length mem) ∧
  Z.of_nat (length (rdata_ rr)) = rdlength_ rr.
Proof.
  intros Hlen. rewrite ResourceRecord_decode_in_words by done.
  destruct (Name_decode (take len mem) offset) as [[name o]| | |] eqn:E;
    cbn [mbind exec_bind]; try done.
  apply Name_decode_cursor in E. rewrite length_take_le in E by done.
  case_bool_decide as Hfix; [done|]. cbv zeta.
  case_bool_decide as Hrd; [done|].
  destruct (rd_range mem (o + 10) _) as [bytes| | |] eqn:Hbytes;
    cbn [mbind exec_bind]; try done.
  intros [= <- <-]. cbn [rdata_ rdlength_].
  destruct (rd_range_Ret _ _ _ _ Hbytes) as [Hn Hin].
  assert (0 ≤ word_at mem (o + 8))%Z by apply word_at_range.
  split; [lia|]. split; [lia|]. split; [|lia].
  destruct Hin as [H0 | Hin]; [|right; lia].
  left. destruct bytes; [done|]. simpl in Hn. lia.
Qed.

Lemma ResourceRecord_decode_in_errors (mem : list byte) (len offset : nat)
    (e : Error) :
  len ≤ length mem →
  ResourceRecord_decode_in mem len offset = Unexpected e → name_error e.
Proof.
  intros Hlen. rewrite ResourceRecord_decode_in_words by done.
  pose proof (Name_decode_returns (take len mem) offset) as Hn.
  destruct (Name_decode (take len mem) offset) as [[name o]|e'| |];
    cbn [mbind exec_bind]; try done.
  - case_bool_decide; [intros [= <-]; unfold name_error; tauto|]. cbv zeta.
    case_bool_decide; [intros [= <-]; unfold name_error; tauto|].
    pose proof (rd_range_not_unexpected mem (Z.to_nat (word_at mem (o + 8)))
                  (o + 10) e) as Hr.
    destruct (rd_range mem (o + 10) _) as [bytes|e'| |];
      cbn [mbind exec_bind]; try done.
    intros [= ->]. done.
  - by intros [= <-].
Qed.

Lemma ResourceRecord_decode_in_not_OutOfFuel (mem : list byte)
    (len offset : nat) :
  len ≤ length mem → ResourceRecord_decode_in mem len offset ≠ OutOfFuel.
Proof.
  intros Hlen. rewrite ResourceRecord_decode_in_words by done.
  pose proof (Name_decode_returns (take len mem) offset) as Hn.
  destruct (Name_decode (take len mem) offset) as [[name o]|e'| |];
    cbn [mbind exec_bind]; try done.
  case_bool_decide; [done|]. cbv zeta. case_bool_decide; [done|].
  pose proof (rd_range_not_OutOfFuel mem (o + 10)
                (Z.to_nat (word_at mem (o + 8)))) as Hr.
  destruct (rd_range mem (o + 10) _) as [bytes|e'| |];
    cbn [mbind exec_bind]; done.
Qed.

(** ten bytes of buffer after [len] are enough for every read *)
Lemma ResourceRecord_decode_in_bounds (mem : list byte) (len offset : nat) :
  len + 10 ≤ length mem →
  ResourceRecord_decode_in mem len offset ≠ OutOfBounds.
Proof.
  intros Hlen. rewrite ResourceRecord_decode_in_words by lia.
  pose proof (Name_decode_returns (take len mem) offset) as Hn.
  destruct (Name_decode (take len mem) offset) as [[name o]|e'| |];
    cbn [mbind exec_bind]; try done.
  case_bool_decide; [done|]. cbv zeta. case_bool_decide; [done|].
  destruct (rd_range_in_bounds mem (Z.to_nat (word_at mem (o + 8))) (o + 10))
    as (bytes & -> & _); [lia|]. done.
Qed.

(** inside a buffer the record decoder does what it does on the datagram
    alone, whenever that stays inside the datagram *)
Lemma ResourceRecord_decode_in_take (mem : list byte) (len offset : nat) :
  len ≤ length mem →
  ResourceRecord_decode (take len mem) offset ≠ OutOfBounds →
  ResourceRecord_decode_in mem len offset
  = ResourceRecord_decode (take len mem) offset.
Proof.
  intros Hlen. unfold ResourceRecord_decode_in, ResourceRecord_decode.
  rewrite Name_decode_in_take, length_take_le by done.
  destruct (Name_decode (take len mem) offset) as [[name off]| | |];
    cbn [mbind exec_bind]; try done.
  case_bool_decide; [done|].
  rewrite (rd_take mem len off), (rd_take mem len (off + 1)),
    (rd_take mem len (off + 2)), (rd_take mem len (off + 3)),
    (rd_take mem len (off + 4)), (rd_take mem len (off + 5)),
    (rd_take mem len (off + 6)), (rd_take mem len (off + 7)),
    (rd_take mem len (off + 8)), (rd_take mem len (off + 9)) by lia.
  repeat match goal with
         | |- context [rd mem ?i] =>
             destruct (rd_in_bounds mem i) as (? & _ & ->); [lia|]
         end.
  cbn [mbind exec_bind]. cbv zeta. case_bool_decide; [done|].
  match goal with
  | |- context [rd_range (take len mem) ?i ?n] =>
      destruct (decide (i + n ≤ len)) as [Hok|Hko];
      [by rewrite rd_range_take by done
      |rewrite (rd_range_out_of_bounds (take len mem) n i)
         by (rewrite length_take_le by done; lia)]
  end.
  done.
Qed.

Lemma decode_records_in_take (mem : list byte) (len n offset : nat) :
  len ≤ length mem →
  decode_records (take len mem) n offset ≠ OutOfBounds →
  decode_records_in mem len n offset = decode_records (take len mem) n offset.
Proof.
  intros Hlen. revert offset. induction n as [|n IH]; intros offset; [done|].
  cbn [decode_records_in decode_records]. intros Hin.
  rewrite ResourceRecord_decode_in_take; [|done|].
  2: { intros E. by rewrite E in Hin. }
  destruct (ResourceRecord_decode (take len mem) offset) as [[rr off]| | |];
    cbn [mbind exec_bind] in *; try done.
  rewrite IH; [done|]. intros E. by rewrite E in Hin.
Qed.

Lemma parse_in_take (mem : list byte) (len : nat) :
  len ≤ length mem →
  parse (take len mem) ≠ OutOfBounds →
  parse_in mem len = parse (take len mem).
Proof.
  intros Hlen. unfold parse_in, parse. rewrite length_take_le by done.
  case_bool_decide; [done|]. case_bool_decide; [done|].
  rewrite Header_decode_in_take by done.
  destruct (Header_decode (take len mem)) as [hdr| | |];
    cbn [mbind exec_bind]; try done.
  cbv zeta. rewrite decode_questions_in_take by done.
  destruct (decode_questions (take len mem) _ 12) as [[qs o1]| | |];
    cbn [mbind exec_bind]; try done.
  intros Hin. rewrite decode_records_in_take; [|done|].
  2: { intros E. by rewrite E in Hin. }
  destruct (decode_records (take len mem) _ o1) as [[an o2]| | |];
    cbn [mbind exec_bind] in *; try done.
  rewrite decode_records_in_take; [|done|].
  2: { intros E. by rewrite E in Hin. }
  destruct (decode_records (take len mem) _ o2) as [[ns o3]| | |];
    cbn [mbind exec_bind] in *; try done.
  rewrite decode_records_in_take; [|done|].
  2: { intros E. by rewrite E in Hin. }
  done.
Qed.

(** on a datagram followed by anything, the parser returns what it
    returns on the datagram alone *)
Lemma parse_in_datagram (data pad : list byte) :
  parse data ≠ OutOfBounds → parse_in (data ++ pad) (length data) = parse data.
Proof.
  intros Hin.
  rewrite parse_in_take; rewrite ?take_app_length; try done.
  rewrite length_app. lia.
Qed.

Lemma decode_records_in_length (mem : list byte) (len n offset : nat)
    (rrs : list ResourceRecord) (off : nat) :
  decode_records_in mem len n offset = Ret (rrs, off) → length rrs = n.
Proof.
  revert offset rrs off. induction n as [|n IH]; intros offset rrs off H;
    cbn [decode_records_in] in H.
  - by injection H as <- _.
  - destruct (ResourceRecord_decode_in mem len offset) as [[rr o]| | |];
      cbn [mbind exec_bind] in H; try done.
    destruct (decode_records_in mem len n o) as [[rrs' o']| | |] eqn:E;
      cbn [mbind exec_bind] in H; try done.
    injection H as <- _. simpl. by rewrite (IH _ _ _ E).
Qed.

Lemma decode_records_in_errors (mem : list byte) (len n offset : nat)
    (e : Error) :
  len ≤ length mem →
  decode_records_in mem len n offset = Unexpected e → name_error e.
Proof.
  intros Hlen. revert offset. induction n as [|n IH]; intros offset H; [done|].
  cbn [decode_records_in] in H.
  destruct (ResourceRecord_decode_in mem len offset) as [[rr off]|e'| |] eqn:Hrr;
    cbn [mbind exec_bind] in H; try done.
  - destruct (decode_records_in mem len n off) as [[rrs off']|e'| |] eqn:Hrrs;
      cbn [mbind exec_bind] in H; try done.
    injection H as <-. by apply (IH off).
  - injection H as <-. by apply (ResourceRecord_decode_in_errors mem len offset).
Qed.

Lemma decode_records_in_not_OutOfFuel (mem : list byte) (len n offset : nat) :
  len ≤ length mem → decode_records_in mem len n offset ≠ OutOfFuel.
Proof.
  intros Hlen. revert offset. induction n as [|n IH]; intros offset; [done|].
  cbn [decode_records_in].
  apply bind_not_OutOfFuel; [by apply ResourceRecord_decode_in_not_OutOfFuel|].
  intros [q off]. apply bind_not_OutOfFuel; [apply IH|]. by intros [qs off'].
Qed.

Lemma bind_not_OutOfBounds {A B : Type} (m : exec A) (f : A → exec B) :
  m ≠ OutOfBounds → (∀ a, f a ≠ OutOfBounds) → m ≫= f ≠ OutOfBounds.
Proof. destruct m; cbn [mbind exec_bind]; auto. Qed.

Lemma decode_records_in_bounds (mem : list byte) (len n offset : nat) :
  len + 10 ≤ length mem → decode_records_in mem len n offset ≠ OutOfBounds.
Proof.
  intros Hlen. revert offset. induction n as [|n IH]; intros offset; [done|].
  cbn [decode_records_in].
  apply bind_not_OutOfBounds; [by apply ResourceRecord_decode_in_bounds|].
  intros [q off]. apply bind_not_OutOfBounds; [apply IH|]. by intros [qs off'].
Qed.

Lemma returns_not_OutOfBounds {A : Type} (r : exec A) :
  returns r → r ≠ OutOfBounds.
Proof. by destruct r. Qed.

Lemma returns_not_OutOfFuel {A : Type} (r : exec A) :
  returns r → r ≠ OutOfFuel.
Proof. by destruct r. Qed.

Lemma decode_questions_returns (data : list byte) (n offset : nat) :
  returns (decode_questions data n offset).
Proof.
  revert offset. induction n as [|n IH]; intros offset; [done|].
  cbn [decode_questions].
  pose proof (Question_decode_returns data offset) as Hq.
  destruct (Question_decode data offset) as [[q off]| | |];
    cbn [mbind exec_bind]; try done.
  specialize (IH off).
  by destruct (decode_questions data n off) as [[qs off']| | |].
Qed.

(** what a message parsed inside a buffer satisfies *)
Lemma parse_in_ok (mem : list byte) (len : nat) (msg : Message) :
  len ≤ length mem →
  parse_in mem len = Ret msg →
  12 ≤ len ≤ 4096 ∧
  Header_decode (take len mem) = Ret (header_ msg) ∧
  Header_valid (header_ msg) ∧
  Z.of_nat (length (questions_ msg)) = qdcount_ (header_ msg) ∧
  Z.of_nat (length (answers_ msg)) = ancount_ (header_ msg) ∧
  Z.of_nat (length (authority_ msg)) = nscount_ (header_ msg) ∧
  Z.of_nat (length (additional_ msg)) = arcount_ (header_ msg) ∧
  length (questions_ msg) ≤ 1 ∧ length (answers_ msg) ≤ 500 ∧
  length (authority_ msg) ≤ 500 ∧ length (additional_ msg) ≤ 500.
Proof.
  intros Hlen. unfold parse_in. intros H.
  case_bool_decide as Hshort; [done|]. case_bool_decide as Hlong; [done|].
  rewrite Header_decode_in_take in H by done.
  destruct (Header_decode (take len mem)) as [hdr| | |] eqn:Hh;
    cbn [mbind exec_bind] in H; try done.
  destruct (Header_decode_ok _ hdr Hh) as (_ & Hv & _).
  cbv zeta in H. rewrite decode_questions_in_take in H by done.
  destruct (decode_questions (take len mem) _ 12) as [[qs o1]| | |] eqn:E1;
    cbn [mbind exec_bind] in H; try done.
  destruct (decode_records_in mem len _ o1) as [[an o2]| | |] eqn:E2;
    cbn [mbind exec_bind] in H; try done.
  destruct (decode_records_in mem len _ o2) as [[ns o3]| | |] eqn:E3;
    cbn [mbind exec_bind] in H; try done.
  destruct (decode_records_in mem len _ o3) as [[ar o4]| | |] eqn:E4;
    cbn [mbind exec_bind] in H; try done.
  injection H as <-. cbn [header_ questions_ answers_ authority_ additional_].
  apply decode_questions_length in E1. apply decode_records_in_length in E2.
  apply decode_records_in_length in E3. apply decode_records_in_length in E4.
  pose proof Hv as (_ & _ & _ & _ & Hqd & Han & Hns & Har).
  unfold Limits.MAX_EDNS_PAYLOAD in Hlong.
  split; [lia|]. split; [done|]. split; [done|].
  repeat split; lia.
Qed.

Lemma parse_in_errors (mem : list byte) (len : nat) (e : Error) :
  len ≤ length mem → parse_in mem len = Unexpected e → decode_error e.
Proof.
  intros Hlen. unfold parse_in, decode_error, name_error. intros H.
  case_bool_decide; [injection H as <-; tauto|].
  case_bool_decide; [injection H as <-; tauto|].
  rewrite Header_decode_in_take in H by done.
  destruct (Header_decode (take len mem)) as [hdr|e'| |] eqn:Hh;
    cbn [mbind exec_bind] in H; try done.
  2: { injection H as <-. apply Header_decode_errors in Hh. tauto. }
  cbv zeta in H. rewrite decode_questions_in_take in H by done.
  destruct (decode_questions (take len mem) _ 12) as [[qs o1]|e'| |] eqn:E1;
    cbn [mbind exec_bind] in H; try done.
  2: { injection H as <-. apply decode_questions_errors in E1.
       unfold name_error in E1. tauto. }
  destruct (decode_records_in mem len _ o1) as [[an o2]|e'| |] eqn:E2;
    cbn [mbind exec_bind] in H; try done.
  2: { injection H as <-. apply decode_records_in_errors in E2; [|done].
       unfold name_error in E2. tauto. }
  destruct (decode_records_in mem len _ o2) as [[ns o3]|e'| |] eqn:E3;
    cbn [mbind exec_bind] in H; try done.
  2: { injection H as <-. apply decode_records_in_errors in E3; [|done].
       unfold name_error in E3. tauto. }
  destruct (decode_records_in mem len _ o3) as [[ar o4]|e'| |] eqn:E4;
    cbn [mbind exec_bind] in H; try done.
  injection H as <-. apply decode_records_in_errors in E4; [|done].
  unfold name_error in E4. tauto.
Qed.

Lemma parse_in_not_OutOfFuel (mem : list byte) (len : nat) :
  len ≤ length mem → parse_in mem len ≠ OutOfFuel.
Proof.
  intros Hlen. unfold parse_in.
  case_bool_decide; [done|]. case_bool_decide; [done|].
  rewrite Header_decode_in_take by done.
  apply bind_not_OutOfFuel;
    [apply returns_not_OutOfFuel, Header_decode_returns|].
  intros hdr. cbv zeta. rewrite decode_questions_in_take by done.
  apply bind_not_OutOfFuel;
    [apply returns_not_OutOfFuel, decode_questions_returns|].
  intros [qs off1].
  apply bind_not_OutOfFuel; [by apply decode_records_in_not_OutOfFuel|].
  intros [an off2].
  apply bind_not_OutOfFuel; [by apply decode_records_in_not_OutOfFuel|].
  intros [ns off3].
  apply bind_not_OutOfFuel; [by apply decode_records_in_not_OutOfFuel|].
  by intros [ar off4].
Qed.

(** with ten bytes of buffer after [len] the parser reads nothing outside
    the buffer *)
Lemma parse_in_bounds (mem : list byte) (len : nat) :
  len + 10 ≤ length mem → parse_in mem len ≠ OutOfBounds.
Proof.
  intros Hlen. unfold parse_in.
  case_bool_decide; [done|]. case_bool_decide; [done|].
  rewrite Header_decode_in_take by lia.
  apply bind_not_OutOfBounds;
    [apply returns_not_OutOfBounds, Header_decode_returns|].
  intros hdr. cbv zeta. rewrite decode_questions_in_take by lia.
  apply bind_not_OutOfBounds;
    [apply returns_not_OutOfBounds, decode_questions_returns|].
  intros [qs off1].
  apply bind_not_OutOfBounds; [by apply decode_records_in_bounds|].
  intros [an off2].
  apply bind_not_OutOfBounds; [by apply decode_records_in_bounds|].
  intros [ns off3].
  apply bind_not_OutOfBounds; [by apply decode_records_in_bounds|].
  by intros [ar off4].
Qed.

(** X4. Inside a buffer of at least [len] bytes, a name or a question that
    is decoded leaves the cursor strictly past its start and at most at
    [len]. A record that is decoded leaves it past its ten fixed bytes
    and its RDATA, holds exactly RDLENGTH bytes of RDATA, and ends at most
    ten bytes after [len]: not at most at [len]. *)
Theorem decoders_advance_cursor (mem : list byte) (len offset : nat) :
  len ≤ length mem →
  (∀ name off,
     Name_decode_in mem len offset = Ret (name, off) →
     offset < off ≤ len) ∧
  (∀ q off,
     Question_decode_in mem len offset = Ret (q, off) →
     offset + 4 < off ≤ len) ∧
  (∀ rr off,
     ResourceRecord_decode_in mem len offset = Ret (rr, off) →
     offset + 10 + length (rdata_ rr) < off ≤ len + 10 ∧
     (rdata_ rr = [] ∨ off ≤ length mem) ∧
     Z.of_nat (length (rdata_ rr)) = rdlength_ rr).
Proof.
  intros Hlen. split; [|split].
  - intros name off. rewrite Name_decode_in_take by done.
    intros H%Name_decode_cursor. by rewrite length_take_le in H.
  - intros q off. rewrite Question_decode_in_take by done.
    intros H. apply (proj1 (proj2 (decoders_cursor_datagram _ _))) in H.
    by rewrite length_take_le in H.
  - intros rr off H.
    apply ResourceRecord_decode_in_cursor in H; [|done]. tauto.
Qed.

Lemma decoders_advance_cursor_witness :
  19 + 10 + length (rdata_ overread_record) < 34 ≤ 30 + 10 ∧
  (rdata_ overread_record = [] ∨
   34 ≤ length (short_rdata_query ++ replicate 10 x00)) ∧
  Z.of_nat (length (rdata_ overread_record)) = rdlength_ overread_record.
Proof.
  destruct (decoders_advance_cursor (short_rdata_query ++ replicate 10 x00)
              30 19) as (_ & _ & H); [simpl; lia|].
  apply (H overread_record 34). vm_compute. reflexivity.
Defined.

(** ** Listener::handleQuery with its sockets *)

Lemma receive_buffer_take (d : list byte) :
  take (length d) (receive_buffer d) = d.
Proof. unfold receive_buffer. by rewrite take_app_length. Qed.

Lemma receive_buffer_length (d : list byte) :
  length d ≤ length (receive_buffer d) ∧
  (length d ≤ 4086 → length d + 10 ≤ length (receive_buffer d)).
Proof.
  unfold receive_buffer, Limits.MAX_EDNS_PAYLOAD.
  rewrite length_app, length_replicate. lia.
Qed.

(** what step 6 does: nothing is sent when the encoder fails; else [sendto]
    is called once and the code says whether all was sent *)
Lemma send_blocked_io_cases (io : sockets) (msg : Message) :
  match send_blocked_io io msg with
  | Ret (acts, e) =>
      (acts = [] ∧ MessageParser_encode msg = Unexpected e ∧
       (e = ENCODE_LABEL_TOO_LONG ∨ e = ENCODE_NAME_TOO_LONG ∨
        e = ENCODE_OVERFLOW)) ∨
      (∃ enc, MessageParser_encode msg = Ret enc ∧
              acts = [SendToClient enc] ∧ e = sent_code io acts OK)
  | _ => False
  end.
Proof.
  unfold send_blocked_io.
  pose proof (MessageParser_encode_outcome msg) as Hout.
  destruct (MessageParser_encode msg) as [enc|e| |] eqn:Henc; try done.
  - apply MessageParser_encode_ok in Henc as ([_ Hfit] & _).
    rewrite bool_decide_eq_false_2 by (unfold Limits.MAX_EDNS_PAYLOAD; lia).
    destruct (sendto_ io enc) as [sent|] eqn:Hsent.
    + case_bool_decide as Hne; right; exists enc; split; try done;
        split; try done; cbn [sent_code]; rewrite Hsent.
      * rewrite bool_decide_eq_false_2; [done|]. by intros [= ->].
      * rewrite bool_decide_eq_true_2; [done|]. f_equal.
        destruct (decide (sent = length enc)); [done|]. by destruct Hne.
    + right. exists enc. split; [done|]. split; [done|].
      cbn [sent_code]. rewrite Hsent. by rewrite bool_decide_eq_false_2.
  - left. unfold encode_outcome in Hout. done.
Qed.

(** the handler, case by case *)
Lemma Listener_handleQuery_cases (blocklist : gset string) (io : sockets) :
  match Listener_handleQuery blocklist io with
  | Ret (acts, e) =>
      (recvfrom_ io = None ∧ acts = [] ∧ e = SERVER_RECV_FAIL) ∨
      ∃ d, recvfrom_ io = Some d ∧
        ((length d < 13 ∧ acts = [] ∧ e = PARSE_TOO_SHORT) ∨
         (13 ≤ length d ∧ acts = [] ∧ decode_error e ∧
          parse_in (receive_buffer d) (length d) = Unexpected e) ∨
         (13 ≤ length d ∧
          ∃ msg, parse_in (receive_buffer d) (length d) = Ret msg ∧
            ((questions_ msg = [] ∧ acts = [] ∧ e = OK) ∨
             ∃ q, questions_ msg = [q] ∧
               ((search blocklist (qname_ q) = Ret false ∧
                 acts = [Forward d] ∧ e = OK) ∨
                (search blocklist (qname_ q) = Ret true ∧
                 send_blocked_io io (blocked_response msg q)
                   = Ret (acts, e))))))
  | OutOfBounds =>
      ∃ d, recvfrom_ io = Some d ∧ 4086 < length d ∧
           parse_in (receive_buffer d) (length d) = OutOfBounds
  | Unexpected _ | OutOfFuel => False
  end.
Proof.
  unfold Listener_handleQuery.
  destruct (recvfrom_ io) as [d|]; [|by left]. cbv zeta.
  destruct (receive_buffer_length d) as [Hlen Hpad].
  case_bool_decide as Hshort.
  { right. exists d. split; [done|]. by left. }
  pose proof (parse_in_not_OutOfFuel _ _ Hlen) as Hfuel.
  pose proof (parse_in_errors (receive_buffer d) (length d)) as Herr.
  destruct (parse_in (receive_buffer d) (length d)) as [msg|e| |] eqn:Hparse;
    try done.
  - destruct (parse_in_ok _ _ msg Hlen Hparse)
      as (_ & _ & _ & _ & _ & _ & _ & Hq & _).
    destruct (questions_ msg) as [|q [|q' qs]] eqn:Hqs; [| |simpl in Hq; lia].
    { right. exists d. split; [done|]. right. right. split; [lia|].
      exists msg. split; [done|]. by left. }
    cbn [handle_questions_io].
    destruct (search_loop_spec blocklist
                (String.length (normalize (qname_ q)) + 1)
                (normalize (qname_ q)) ltac:(lia)) as (hit & Hs & _).
    assert (search blocklist (qname_ q) = Ret hit) as Hsearch by exact Hs.
    rewrite Hsearch. cbn [mbind exec_bind]. destruct hit.
    + pose proof (send_blocked_io_cases io (blocked_response msg q)) as Hsend.
      destruct (send_blocked_io io (blocked_response msg q))
        as [[acts e]| | |] eqn:Hsb; try done.
      right. exists d. split; [done|]. right. right. split; [lia|].
      exists msg. split; [done|]. right. exists q. split; [done|].
      right. done.
    + cbn [mbind exec_bind]. rewrite receive_buffer_take.
      right. exists d. split; [done|]. right. right. split; [lia|].
      exists msg. split; [done|]. right. exists q. split; [done|].
      left. done.
  - right. exists d. split; [done|]. right. left.
    repeat split; try done; [lia|]. by apply Herr.
  - exists d. split; [done|]. split; [|done].
    destruct (Nat.le_gt_cases (length d) 4086) as [Hok|]; [|lia].
    by destruct (parse_in_bounds _ _ (Hpad Hok)).
Qed.

(** X11. One call, at most one thing done on the sockets, whatever
    [recvfrom] and [sendto] do. [handleQuery] hands nothing to the sockets,
    or forwards the datagram it received, byte for byte, and returns OK, or
    hands one synthesized reply of 12 to 4096 bytes to [sendto] and returns
    OK when [sendto] sent all of it, [SERVER_SEND_FAIL] otherwise. With any
    other code nothing was sent or forwarded; a failed [recvfrom] gives
    [SERVER_RECV_FAIL], a datagram of fewer than 13 bytes
    [PARSE_TOO_SHORT]. The one case left out is a datagram of more than
    4086 bytes on which the parser reads past the end of [buf]. *)
Theorem handleQuery_one_action (blocklist : gset string) (io : sockets) :
  match Listener_handleQuery blocklist io with
  | Ret (acts, e) =>
      (acts = [] ∨
       (∃ d, recvfrom_ io = Some d ∧ acts = [Forward d] ∧ e = OK) ∨
       (∃ enc, acts = [SendToClient enc] ∧ 12 ≤ length enc ≤ 4096 ∧
               e = sent_code io acts OK)) ∧
      (e ≠ OK → e ≠ SERVER_SEND_FAIL → acts = []) ∧
      (recvfrom_ io = None → acts = [] ∧ e = SERVER_RECV_FAIL) ∧
      (∀ d, recvfrom_ io = Some d → length d < 13 →
            acts = [] ∧ e = PARSE_TOO_SHORT)
  | OutOfBounds => ∃ d, recvfrom_ io = Some d ∧ 4086 < length d
  | Unexpected _ | OutOfFuel => False
  end.
Proof.
  pose proof (Listener_handleQuery_cases blocklist io) as H.
  destruct (Listener_handleQuery blocklist io) as [[acts e]| | |]; try done.
  2: { destruct H as (d & ? & ? & _). by exists d. }
  assert (acts = [] ∨
          (∃ d, recvfrom_ io = Some d ∧ acts = [Forward d] ∧ e = OK) ∨
          (∃ enc, acts = [SendToClient enc] ∧ 12 ≤ length enc ≤ 4096 ∧
                  e = sent_code io acts OK)) as Hcases.
  { destruct H as [(_ & -> & _) | (d & Hd & H)]; [by left|].
    destruct H as [(_ & -> & _) | [(_ & -> & _) | (_ & msg & _ & H)]];
      [by left|by left|].
    destruct H as [(_ & -> & _) | (q & _ & H)]; [by left|].
    destruct H as [(_ & -> & ->) | (_ & Hsend)].
    { right. left. by exists d. }
    pose proof (send_blocked_io_cases io (blocked_response msg q)) as Hc.
    rewrite Hsend in Hc.
    destruct Hc as [(-> & _) | (enc & Henc & -> & ->)]; [by left|].
    right. right. exists enc. split; [done|].
    apply MessageParser_encode_ok in Henc as (Hfit & _). done. }
  split; [done|]. split; [|split].
  - intros Hok Hsf.
    destruct Hcases as [-> | [(d & _ & _ & ->) | (enc & -> & _ & He)]];
      [done|done|].
    cbn [sent_code] in He. by case_bool_decide.
  - intros Hnone. rewrite Hnone in H.
    destruct H as [(_ & -> & ->) | (d & [=] & _)]. done.
  - intros d Hd Hshort. rewrite Hd in H.
    destruct H as [([=] & _) | (d' & [= <-] & H)].
    destruct H as [(_ & -> & ->) | [(? & _) | (? & _)]]; [done|lia|lia].
Qed.

(** X20. The handler always comes back, unless the parser reads past the
    end of [buf], which takes a datagram of more than 4086 bytes. It
    returns OK, [SERVER_RECV_FAIL], [SERVER_SEND_FAIL], a code of the
    parser or a code of the encoder; [SERVER_RECV_FAIL] exactly when
    [recvfrom] failed, and [SERVER_SEND_FAIL] exactly when a reply was
    handed to [sendto] and [sendto] did not send all of it: the size guard
    that follows the encoder never fires. *)
Theorem handleQuery_outcomes (blocklist : gset string) (io : sockets) :
  match Listener_handleQuery blocklist io with
  | Ret (acts, e) =>
      (e = OK ∨ e = SERVER_RECV_FAIL ∨ e = SERVER_SEND_FAIL ∨
       decode_error e ∨ e = ENCODE_LABEL_TOO_LONG ∨
       e = ENCODE_NAME_TOO_LONG ∨ e = ENCODE_OVERFLOW) ∧
      (e = SERVER_RECV_FAIL ↔ recvfrom_ io = None) ∧
      (e = SERVER_SEND_FAIL ↔
       ∃ enc, acts = [SendToClient enc] ∧
              sendto_ io enc ≠ Some (length enc))
  | OutOfBounds =>
      ∃ d, recvfrom_ io = Some d ∧ 4086 < length d ∧
           parse_in (receive_buffer d) (length d) = OutOfBounds
  | Unexpected _ | OutOfFuel => False
  end.
Proof.
  pose proof (Listener_handleQuery_cases blocklist io) as H.
  destruct (Listener_handleQuery blocklist io) as [[acts e]| | |]; try done.
  assert (∀ e', decode_error e' →
                e' ≠ SERVER_RECV_FAIL ∧ e' ≠ SERVER_SEND_FAIL) as Hdec.
  { intros e'. unfold decode_error, name_error.
    intros [[->|[->|[->|[->| ->]]]] | [-> | [-> | ->]]]; done. }
  destruct H as [(Hnone & -> & ->) | (d & Hd & H)].
  { split; [tauto|]. split; [done|]. split; [done|].
    by intros (enc & [=] & _). }
  rewrite Hd.
  destruct H as [(_ & -> & ->) | [(_ & -> & He & _) | (_ & msg & _ & H)]].
  - split; [unfold decode_error; tauto|]. split; [done|]. split; [done|].
    by intros (enc & [=] & _).
  - destruct (Hdec e He). split; [tauto|]. split; [done|]. split; [done|].
    by intros (enc & [=] & _).
  - destruct H as [(_ & -> & ->) | (q & _ & H)].
    { split; [tauto|]. split; [done|]. split; [done|].
      by intros (enc & [=] & _). }
    destruct H as [(_ & -> & ->) | (_ & Hsend)].
    { split; [tauto|]. split; [done|]. split; [done|].
      by intros (enc & [=] & _). }
    pose proof (send_blocked_io_cases io (blocked_response msg q)) as Hc.
    rewrite Hsend in Hc.
    destruct Hc as [(-> & _ & He) | (enc & _ & -> & ->)].
    + split; [tauto|]. split; [by destruct He as [->|[->| ->]]|].
      split; [by destruct He as [->|[->| ->]]|]. by intros (enc & [=] & _).
    + cbn [sent_code]. case_bool_decide as Hsent.
      * split; [tauto|]. split; [done|]. split; [done|].
        by intros (enc' & [= <-] & Hne).
      * split; [tauto|]. split; [done|]. split; [|done].
        intros _. by exists enc.
Qed.

(** X12. The header of every reply that [handleQuery] hands to [sendto], on
    the wire: the id of the datagram received, QR and RA set, Z clear, and
    the opcode, AA, TC, RD, AD, CD and RCODE bits of the datagram as they
    came. *)
Theorem blocked_reply_header (blocklist : gset string) (io : sockets)
    (enc : list byte) (acts : list action) (e : Error) :
  Listener_handleQuery blocklist io = Ret (acts, e) →
  SendToClient enc ∈ acts →
  ∃ d, recvfrom_ io = Some d ∧
    let qf := word_at d 2 in
    let rf := word_at enc 2 in
    word_at enc 0 = word_at d 0 ∧
    flag_set (Z.shiftr rf 15) 1 = true ∧ flag_set rf Flags.RA = true ∧
    flag_set rf Flags.Z_ = false ∧
    Z.land (Z.shiftr rf 11) 0xF = Z.land (Z.shiftr qf 11) 0xF ∧
    flag_set rf Flags.AA = flag_set qf Flags.AA ∧
    flag_set rf Flags.TC = flag_set qf Flags.TC ∧
    flag_set rf Flags.RD = flag_set qf Flags.RD ∧
    flag_set rf Flags.AD = flag_set qf Flags.AD ∧
    flag_set rf Flags.CD = flag_set qf Flags.CD ∧
    Z.land rf 0xF = Z.land qf 0xF.
Proof.
  intros H Hin.
  pose proof (Listener_handleQuery_cases blocklist io) as Hc.
  rewrite H in Hc.
  destruct Hc as [(_ & -> & _) | (d & Hd & Hc)];
    [by apply elem_of_nil in Hin|].
  destruct Hc as [(_ & -> & _) | [(_ & -> & _) | (_ & msg & Hparse & Hc)]];
    [by apply elem_of_nil in Hin|by apply elem_of_nil in Hin|].
  destruct Hc as [(_ & -> & _) | (q & _ & Hc)];
    [by apply elem_of_nil in Hin|].
  destruct Hc as [(_ & -> & _) | (_ & Hsend)].
  { by apply list_elem_of_singleton in Hin. }
  pose proof (send_blocked_io_cases io (blocked_response msg q)) as Hs.
  rewrite Hsend in Hs.
  destruct Hs as [(-> & _) | (enc' & Henc & -> & _)];
    [by apply elem_of_nil in Hin|].
  apply list_elem_of_singleton in Hin. injection Hin as ->.
  exists d. split; [done|].
  destruct (parse_in_ok _ _ msg (proj1 (receive_buffer_length d)) Hparse)
    as (_ & Hhdr & Hv & _).
  rewrite receive_buffer_take in Hhdr.
  destruct (MessageParser_encode_ok _ _ Henc)
    as (_ & Hid & Hf & _).
  destruct (blocked_response_flag_fields msg q)
    as (Eid & Eqr & Era & Eop & Eaa & Etc & Erd & Ead & Ecd & Erc).
  cbv zeta in *.
  destruct (Header_decode_ok d _ Hhdr) as (_ & _ & Hidq & _).
  destruct Hv as (Hidr & _).
  rewrite Hid by (rewrite Eid; done). rewrite Eid, Hidq. split; [done|].
  rewrite Hf.
  destruct (getRawFlags_bits (header_ (blocked_response msg q)))
    as (_ & -> & -> & -> & -> & -> & -> & -> & -> & -> & ->).
  rewrite Eqr, Era, Eop, Eaa, Etc, Erd, Ead, Ecd, Erc.
  rewrite <- (Header_decode_flags d _ Hhdr).
  destruct (getRawFlags_bits (header_ msg))
    as (_ & _ & _ & -> & -> & -> & -> & _ & -> & -> & ->).
  done.
Qed.

Lemma blocked_reply_header_witness :
  ∃ d, recvfrom_ (working_sockets rcode3_query) = Some d ∧
    word_at rcode3_reply 0 = word_at d 0 ∧
    flag_set (Z.shiftr (word_at rcode3_reply 2) 15) 1 = true ∧
    flag_set (word_at rcode3_reply 2) Flags.RA = true ∧
    flag_set (word_at rcode3_reply 2) Flags.Z_ = false ∧
    Z.land (Z.shiftr (word_at rcode3_reply 2) 11) 0xF
      = Z.land (Z.shiftr (word_at d 2) 11) 0xF ∧
    flag_set (word_at rcode3_reply 2) Flags.AA
      = flag_set (word_at d 2) Flags.AA ∧
    flag_set (word_at rcode3_reply 2) Flags.TC
      = flag_set (word_at d 2) Flags.TC ∧
    flag_set (word_at rcode3_reply 2) Flags.RD
      = flag_set (word_at d 2) Flags.RD ∧
    flag_set (word_at rcode3_reply 2) Flags.AD
      = flag_set (word_at d 2) Flags.AD ∧
    flag_set (word_at rcode3_reply 2) Flags.CD
      = flag_set (word_at d 2) Flags.CD ∧
    Z.land (word_at rcode3_reply 2) 0xF = Z.land (word_at d 2) 0xF.
Proof.
  apply (blocked_reply_header ads_blocklist (working_sockets rcode3_query)
           rcode3_reply [SendToClient rcode3_reply] OK).
  - vm_compute. reflexivity.
  - constructor.
Defined.

(** what the handler does on a datagram and nothing else, it does inside
    its buffer, up to the result of [sendto], whenever the parser does not
    read past the datagram *)
Lemma Listener_handleQuery_datagram (blocklist : gset string) (io : sockets)
    (d : list byte) (acts : list action) (e : Error) :
  recvfrom_ io = Some d →
  handleQuery blocklist d = Ret (acts, e) →
  Listener_handleQuery blocklist io = Ret (acts, sent_code io acts e).
Proof.
  intros Hd H. unfold handleQuery in H. unfold Listener_handleQuery.
  rewrite Hd. cbv zeta.
  case_bool_decide; [by injection H as <- <-|].
  assert (parse d ≠ OutOfBounds) as Hin.
  { intros E. by rewrite E in H. }
  unfold receive_buffer. rewrite (parse_in_datagram d _ Hin).
  fold (receive_buffer d).
  destruct (parse d) as [msg|e'| |] eqn:Hparse; try done.
  2: { by injection H as <- <-. }
  destruct (parse_ok d msg Hparse) as (_ & _ & _ & _ & _ & _ & _ & Hq & _).
  destruct (questions_ msg) as [|q [|q' qs]]; [| |simpl in Hq; lia].
  { by injection H as <- <-. }
  cbn [handle_questions] in H. cbn [handle_questions_io].
  destruct (search blocklist (qname_ q)) as [hit| | |]; try done.
  cbn [mbind exec_bind] in *. destruct hit.
  - unfold send_blocked in H. unfold send_blocked_io.
    destruct (MessageParser_encode (blocked_response msg q)) as [enc|e'| |];
      try done.
    2: { by injection H as <- <-. }
    case_bool_decide; [by injection H as <- <-|].
    injection H as <- <-. cbn [sent_code].
    destruct (sendto_ io enc) as [sent|] eqn:Hsent.
    + case_bool_decide as Hne.
      * rewrite bool_decide_eq_false_2; [done|]. by intros [= ->].
      * rewrite bool_decide_eq_true_2; [done|]. f_equal.
        destruct (Nat.eq_dec sent (length enc)); [done|]. by destruct Hne.
    + by rewrite bool_decide_eq_false_2.
  - cbn [mbind exec_bind] in *. injection H as <- <-.
    by rewrite receive_buffer_take.
Qed.

(** In its buffer the handler reads the four zero bytes that follow
    [short_rdata_query] as the RDATA of the OPT record, and forwards the
    query. *)
Example short_rdata_query_in_buffer :
  ResourceRecord_decode_in (receive_buffer short_rdata_query) 30 19
    = Ret (overread_record, 34) ∧
  Listener_handleQuery ∅ (working_sockets short_rdata_query)
    = Ret ([Forward short_rdata_query], OK).
Proof. split; vm_compute; reflexivity. Qed.

(** The replies to [edns_query] and [rcode3_query] are those of the handler
    with its sockets and its buffer. *)
Example blocked_replies_in_buffer :
  Listener_handleQuery ads_blocklist (working_sockets edns_query)
    = Ret ([SendToClient edns_reply], OK) ∧
  Listener_handleQuery ads_blocklist (working_sockets rcode3_query)
    = Ret ([SendToClient rcode3_reply], OK).
Proof. split; vm_compute; reflexivity. Qed.

(** X14. A query made of a valid header with QDCOUNT 1 and no other record,
    and of one question whose name is made of labels of 1 to 63 bytes that
    hold no dot, with at most 255 bytes of wire name, for a name that
    [search] finds: [handleQuery] hands exactly one reply to [sendto] and
    forwards nothing. The reply is the header of the query with QR and RA
    set and ANCOUNT 1, the question as it came, and one answer: a pointer
    to the name of the question (offset 12), the type and class of the
    question, TTL 0 and 4 zero bytes of RDATA, 16 for AAAA. For type HTTPS
    the reply has no answer and ANCOUNT 0. The code returned is OK when
    [sendto] sent the whole reply, [SERVER_SEND_FAIL] otherwise. *)
Theorem blocked_query_reply (blocklist : gset string) (io : sockets)
    (h : Header) (labels : list string) (qtype qclass : Z) :
  Header_valid (setCounts h 1 0 0 0) →
  Forall label_ok labels → length (wire_name labels) ≤ 255 →
  (0 ≤ qtype < 65536)%Z → (0 ≤ qclass < 65536)%Z →
  search blocklist (join_labels labels) = Ret true →
  let question := wire_name labels ++ write16 qtype ++ write16 qclass in
  let query := Header_encode (setCounts h 1 0 0 0) ++ question in
  let rdlen := if bool_decide (qtype = QType.AAAA) then 16%Z else 4%Z in
  let answer :=
    if bool_decide (qtype = QType.HTTPS) then []
    else [xc0; x0c] ++ write16 qtype ++ write16 qclass ++ write32 0
         ++ write16 rdlen ++ replicate (Z.to_nat rdlen) x00 in
  let reply_header :=
    setCounts (setRa (setQr h true) true)
              1 (if bool_decide (qtype = QType.HTTPS) then 0 else 1) 0 0 in
  let reply := Header_encode reply_header ++ question ++ answer in
  recvfrom_ io = Some query →
  Listener_handleQuery blocklist io
    = Ret ([SendToClient reply],
           if bool_decide (sendto_ io reply = Some (length reply)) then OK
           else SERVER_SEND_FAIL).
Proof.
  intros Hv Hall Hfit Ht Hc Hhit question query rdlen answer reply_header
    reply Hrecv.
  apply (Listener_handleQuery_datagram blocklist io query
           [SendToClient reply] OK Hrecv).
  exact (blocked_query_reply_datagram blocklist h labels qtype qclass
           Hv Hall Hfit Ht Hc Hhit).
Qed.

Lemma blocked_query_reply_witness :
  Listener_handleQuery ads_blocklist
    (working_sockets
       (Header_encode (setCounts query_header 1 0 0 0)
        ++ wire_name sub_ads_com ++ write16 1 ++ write16 1))
  = Ret ([SendToClient
            (Header_encode
            (setCounts (setRa (setQr query_header true) true)
               1 (if bool_decide (1%Z = QType.HTTPS) then 0 else 1) 0 0)
          ++ (wire_name sub_ads_com ++ write16 1 ++ write16 1)
          ++ (if bool_decide (1%Z = QType.HTTPS) then []
              else [xc0; x0c] ++ write16 1 ++ write16 1 ++ write32 0
                   ++ write16 (if bool_decide (1%Z = QType.AAAA)
                               then 16%Z else 4%Z)
                   ++ replicate
                        (Z.to_nat (if bool_decide (1%Z = QType.AAAA)
                                   then 16%Z else 4%Z)) x00))],
         if bool_decide
              (sendto_
                 (working_sockets
                    (Header_encode (setCounts query_header 1 0 0 0)
        ++ wire_name sub_ads_com ++ write16 1 ++ write16 1))
                 (Header_encode
            (setCounts (setRa (setQr query_header true) true)
               1 (if bool_decide (1%Z = QType.HTTPS) then 0 else 1) 0 0)
          ++ (wire_name sub_ads_com ++ write16 1 ++ write16 1)
          ++ (if bool_decide (1%Z = QType.HTTPS) then []
              else [xc0; x0c] ++ write16 1 ++ write16 1 ++ write32 0
                   ++ write16 (if bool_decide (1%Z = QType.AAAA)
                               then 16%Z else 4%Z)
                   ++ replicate
                        (Z.to_nat (if bool_decide (1%Z = QType.AAAA)
                                   then 16%Z else 4%Z)) x00))
               = Some
                   (length
                      (Header_encode
            (setCounts (setRa (setQr query_header true) true)
               1 (if bool_decide (1%Z = QType.HTTPS) then 0 else 1) 0 0)
          ++ (wire_name sub_ads_com ++ write16 1 ++ write16 1)
          ++ (if bool_decide (1%Z = QType.HTTPS) then []
              else [xc0; x0c] ++ write16 1 ++ write16 1 ++ write32 0
                   ++ write16 (if bool_decide (1%Z = QType.AAAA)
                               then 16%Z else 4%Z)
                   ++ replicate
                        (Z.to_nat (if bool_decide (1%Z = QType.AAAA)
                                   then 16%Z else 4%Z)) x00))))
         then OK else SERVER_SEND_FAIL).
Proof.
  apply (blocked_query_reply ads_blocklist
           (working_sockets
              (Header_encode (setCounts query_header 1 0 0 0)
        ++ wire_name sub_ads_com ++ write16 1 ++ write16 1))
           query_header sub_ads_com 1 1).
  - unfold Header_valid; cbn. repeat split; (done || lia).
  - repeat constructor; simpl; lia.
  - simpl. lia.
  - lia.
  - lia.
  - vm_compute. reflexivity.
  - reflexivity.
Defined.

(** X15. For such a query, of a type other than HTTPS, the reply that
    [handleQuery] hands to [sendto] is a message the parser of the program
    accepts, alone or followed by anything in a buffer: it parses back as
    the reply header, the question, and one answer that carries the name
    of the question (read through the pointer), TTL 0 and RDATA of
    zeros. *)
Theorem blocked_reply_parses (blocklist : gset string) (io : sockets)
    (h : Header) (labels : list string) (qtype qclass : Z) :
  Header_valid (setCounts h 1 0 0 0) →
  Forall label_ok labels → length (wire_name labels) ≤ 255 →
  (0 ≤ qtype < 65536)%Z → (0 ≤ qclass < 65536)%Z →
  search blocklist (join_labels labels) = Ret true →
  qtype ≠ QType.HTTPS →
  recvfrom_ io
    = Some (Header_encode (setCounts h 1 0 0 0)
            ++ wire_name labels ++ write16 qtype ++ write16 qclass) →
  let name := join_labels labels in
  let rdlen := if bool_decide (qtype = QType.AAAA) then 16 else 4 in
  let parsed :=
    mk_Message (setCounts (setRa (setQr h true) true) 1 1 0 0)
      [mk_Question name qtype qclass]
      [mk_ResourceRecord name qtype qclass 0 (Z.of_nat rdlen)
         (replicate rdlen x00)]
      [] [] in
  ∃ reply e,
    Listener_handleQuery blocklist io = Ret ([SendToClient reply], e) ∧
    parse reply = Ret parsed ∧
    ∀ pad, parse_in (reply ++ pad) (length reply) = Ret parsed.
Proof.
  intros Hv Hall Hfit Ht Hc Hhit Hhttps Hrecv name rdlen parsed.
  pose proof (blocked_query_reply_datagram blocklist h labels qtype qclass
                Hv Hall Hfit Ht Hc Hhit) as Hreply.
  cbv zeta in Hreply. rewrite (bool_decide_eq_false_2 _ Hhttps) in Hreply.
  apply (Listener_handleQuery_datagram blocklist io _ _ _ Hrecv) in Hreply.
  pose proof (blocked_reply_bytes_parse h labels qtype qclass
                Hv Hall Hfit Ht Hc Hhttps) as Hparse.
  cbv zeta in Hparse. fold name rdlen parsed in Hparse.
  eexists _, _. split; [exact Hreply|].
  assert (parse
            (Header_encode (setCounts (setRa (setQr h true) true) 1 1 0 0)
             ++ (wire_name labels ++ write16 qtype ++ write16 qclass)
             ++ [xc0; x0c] ++ write16 qtype ++ write16 qclass ++ write32 0
             ++ write16 (if bool_decide (qtype = QType.AAAA) then 16%Z
                         else 4%Z)
             ++ replicate
                  (Z.to_nat (if bool_decide (qtype = QType.AAAA) then 16%Z
                             else 4%Z)) x00)
          = Ret parsed) as Hp.
  { unfold rdlen in Hparse. case_bool_decide; exact Hparse. }
  split; [exact Hp|].
  intros pad. rewrite parse_in_datagram; [exact Hp|]. by rewrite Hp.
Qed.

Lemma blocked_reply_parses_witness :
  ∃ reply e,
    Listener_handleQuery ads_blocklist
      (working_sockets
         (Header_encode (setCounts query_header 1 0 0 0)
          ++ wire_name sub_ads_com ++ write16 28 ++ write16 1))
      = Ret ([SendToClient reply], e) ∧
    parse reply
      = Ret (mk_Message
               (setCounts (setRa (setQr query_header true) true) 1 1 0 0)
               [mk_Question (join_labels sub_ads_com) 28 1]
               [mk_ResourceRecord (join_labels sub_ads_com) 28 1 0
                  (Z.of_nat
                     (if bool_decide (28%Z = QType.AAAA) then 16 else 4))
                  (replicate
                     (if bool_decide (28%Z = QType.AAAA) then 16 else 4)
                     x00)]
               [] []) ∧
    ∀ pad,
      parse_in (reply ++ pad) (length reply)
      = Ret (mk_Message
               (setCounts (setRa (setQr query_header true) true) 1 1 0 0)
               [mk_Question (join_labels sub_ads_com) 28 1]
               [mk_ResourceRecord (join_labels sub_ads_com) 28 1 0
                  (Z.of_nat
                     (if bool_decide (28%Z = QType.AAAA) then 16 else 4))
                  (replicate
                     (if bool_decide (28%Z = QType.AAAA) then 16 else 4)
                     x00)]
               [] []).
Proof.
  apply (blocked_reply_parses ads_blocklist
           (working_sockets
              (Header_encode (setCounts query_header 1 0 0 0)
               ++ wire_name sub_ads_com ++ write16 28 ++ write16 1))
           query_header sub_ads_com 28 1).
  - unfold Header_valid; cbn. repeat split; (done || lia).
  - repeat constructor; simpl; lia.
  - simpl. lia.
  - lia.
  - lia.
  - vm_compute. reflexivity.
  - unfold QType.HTTPS. lia.
  - reflexivity.
Defined.
